(** * BPM-synchronised ping-pong delay (NTS-1 user delay effect)

    A shallow embedding of [bpmdelay_pingpong.cpp] and the properties of
    its delay-line engine, glide, division table and wet/dry law.

    The C type [float] is IEEE-754 binary32.  The program is embedded once,
    over an interface [FloatOps] of the operations the source uses on
    [float], and the interface has two implementations:

    - [b32_ops], exact binary32 arithmetic (round to nearest, ties to even,
      signed zeros, infinities and NaN) built on the Standard Library's
      [SpecFloat]: what the device computes; concrete runs of the program
      are evaluated in it;
    - [Q_ops], the same operations without rounding, on the rationals: the
      real-number reading of the program, in which its algebraic laws are
      proved.

    The statements about every run of the binary32 program (the silence
    property, the time knob, the sum of the mix levels) rest on a theory
    of rounding to nearest for [SpecFloat]'s operations, proved here: what
    a multiplication, an addition, a subtraction and a division return,
    in terms of the real values of their operands.

    Conversions of a [float] to an integer type are undefined in C when the
    integral part does not fit; they are modelled as partial ([option]). *)

From Stdlib Require Import ZArith QArith Qpower Qround Qabs Qminmax Bool List Sorted.
From Stdlib Require Import Lia Lqa Psatz.
From Stdlib Require Import SpecFloat.
Import ListNotations.

Set Implicit Arguments.

(** ** The arithmetic of [float] *)

Class FloatOps (F : Type) : Type := {
  fadd : F -> F -> F;
  fsub : F -> F -> F;
  fmul : F -> F -> F;
  fdiv : F -> F -> F;
  (** [x <= y] and [x < y] as C evaluates them (false when unordered) *)
  fle : F -> F -> bool;
  flt : F -> F -> bool;
  (** conversion of an integer value to [float] *)
  of_Z : Z -> F;
  (** a decimal constant with the [f] suffix *)
  lit : Q -> F;
  (** a decimal constant without suffix (a [double]) stored in a [float] *)
  dlit : Q -> F;
  (** integral part, towards zero; undefined for infinities and NaN *)
  trunc : F -> option Z
}.

Declare Scope fl_scope.
Delimit Scope fl_scope with fl.
Notation "x + y" := (fadd x y) : fl_scope.
Notation "x - y" := (fsub x y) : fl_scope.
Notation "x * y" := (fmul x y) : fl_scope.
Notation "x / y" := (fdiv x y) : fl_scope.
Notation "x <=? y" := (fle x y) : fl_scope.
Notation "x <? y" := (flt x y) : fl_scope.
Notation "x >=? y" := (fle y x) : fl_scope.

(** *** IEEE-754 binary32 *)

Module B32.

Definition prec : Z := 24.
Definition emax : Z := 128.

Definition float32 : Type := spec_float.

Definition zero : float32 := S754_zero false.
Definition nan : float32 := S754_nan.
Definition pinf : float32 := S754_infinity false.
Definition ninf : float32 := S754_infinity true.

(** Correctly rounded quotient of two positive integers in a format. *)
Definition round_ratio (p e : Z) (s : bool) (n d : positive) : spec_float :=
  let '(mz, ez, lz) := SFdiv_core_binary p e (Zpos n) 0 (Zpos d) 0 in
  binary_round_aux p e s mz ez lz.

Definition of_Q_fmt (p e : Z) (q : Q) : spec_float :=
  match Qnum q with
  | Z0 => S754_zero false
  | Zpos n => round_ratio p e false n (Qden q)
  | Zneg n => round_ratio p e true n (Qden q)
  end.

(** Rounding of a rational to the nearest binary32. *)
Definition of_Q (q : Q) : float32 := of_Q_fmt prec emax q.

(** Rounding to binary64 first, then to binary32: what an unsuffixed
    constant undergoes when it initialises a [float]. *)
Definition of_Q_via_double (q : Q) : float32 :=
  match of_Q_fmt 53 1024 q with
  | S754_finite s m e => binary_round prec emax s m e
  | x => x
  end.

Definition of_int (z : Z) : float32 := binary_normalize prec emax z 0 false.

Definition to_Z (x : float32) : option Z :=
  match x with
  | S754_zero _ => Some 0%Z
  | S754_finite s m e =>
      let a := match e with
               | Zneg k => Z.shiftr (Zpos m) (Zpos k)
               | _ => Z.shiftl (Zpos m) e
               end in
      Some (if s then Z.opp a else a)
  | _ => None
  end.

(** The real value of a finite number (0 for the others). *)
Definition to_Q (x : float32) : Q :=
  match x with
  | S754_finite s m e =>
      let a := match e with
               | Zneg k => Zpos m # Pos.shiftl 1 (Npos k)
               | _ => inject_Z (Z.shiftl (Zpos m) e)
               end in
      if s then Qopp a else a
  | _ => 0
  end.

Definition is_finite (x : float32) : bool :=
  match x with
  | S754_zero _ | S754_finite _ _ _ => true
  | _ => false
  end.

Definition is_nan (x : float32) : bool :=
  match x with S754_nan => true | _ => false end.

End B32.

#[export] Instance b32_ops : FloatOps B32.float32 := {|
  fadd := SFadd B32.prec B32.emax;
  fsub := SFsub B32.prec B32.emax;
  fmul := SFmul B32.prec B32.emax;
  fdiv := SFdiv B32.prec B32.emax;
  fle := SFleb;
  flt := SFltb;
  of_Z := B32.of_int;
  lit := B32.of_Q;
  dlit := B32.of_Q_via_double;
  trunc := B32.to_Z
|}.

(** *** Exact arithmetic *)

Definition Q_trunc (q : Q) : Z := Z.quot (Qnum q) (Zpos (Qden q)).

#[export] Instance Q_ops : FloatOps Q := {|
  fadd := Qplus;
  fsub := Qminus;
  fmul := Qmult;
  fdiv := Qdiv;
  fle := Qle_bool;
  flt := fun x y => negb (Qle_bool y x);
  of_Z := inject_Z;
  lit := fun q => q;
  dlit := fun q => q;
  trunc := fun q => Some (Q_trunc q)
|}.

(** ** The program *)

(** *** Constants (the [#define]s) *)

Definition NUM_DELAY_DIVISIONS : Z := 15.
Definition DELAY_LINE_SIZE : Z := 0x40000.
Definition DELAY_LINE_SIZE_MASK : Z := 0x3FFFF.
Definition DELAY_GLIDE_RATE : Z := 12000.
Definition MIN_BPM : Z := 56.
Definition NUM_NOTES_PER_BEAT : Z := 4.
Definition SAMPLE_RATE : Z := 48000.

(** Values of [uint32_t] and [int] *)
Definition UINT32_MOD : Z := 2 ^ 32.
Definition INT_MIN : Z := - 2 ^ 31.
Definition INT_MAX : Z := 2 ^ 31 - 1.

(** A [float] array indexed by integers; a delay line uses the cells
    [0 .. DELAY_LINE_SIZE - 1]. *)
Definition upd {F : Type} (a : Z -> F) (i : Z) (v : F) : Z -> F :=
  fun j => if Z.eqb j i then v else a j.

(** The selector of [DELFX_PARAM]'s [switch]: the three knobs it handles,
    and every other index. *)
Inductive delfx_param : Type :=
  | k_user_delfx_param_time
  | k_user_delfx_param_depth
  | k_user_delfx_param_shift_depth
  | k_user_delfx_param_other (index : Z).

(** One stereo frame of the interleaved buffer: left, right. *)
Definition frame (F : Type) : Type := (F * F)%type.

Section Program.

Context {F : Type} {ops : FloatOps F}.

Local Open Scope fl_scope.

(** The conversion of the Q31 control value to a [float], provided by the
    platform. *)
Variable q31_to_f32 : Z -> F.

(** [(uint32_t)x] and [(int)x] *)
Definition to_uint32 (x : F) : option Z :=
  match trunc x with
  | Some z => if ((0 <=? z) && (z <? UINT32_MOD))%Z then Some z else None
  | None => None
  end.

Definition to_int (x : F) : option Z :=
  match trunc x with
  | Some z => if ((INT_MIN <=? z) && (z <=? INT_MAX))%Z then Some z else None
  | None => None
  end.

(** The delay divisions, from the time knob at 0 to full:
    1/64, 1/48, 1/32, 1/24, 1/16, 1/12, 1/8, 1/6, 3/16, 1/4, 1/3, 3/8,
    1/2, 3/4, 1 *)
Definition delayDivisions : list F :=
  [ dlit 0.015625; dlit 0.02083333; dlit 0.03125; dlit 0.04166666;
    lit 0.0625; lit 0.08333333; lit 0.125; lit 0.16666667; lit 0.1875;
    lit 0.25; lit 0.33333333; lit 0.375; lit 0.5; lit 0.75; of_Z 1 ].

(** The module's variables *)
Record state : Type := mkState {
  delayLine_L : Z -> F;
  delayLine_R : Z -> F;
  delayLine_Wr : Z;
  currentDelayTime : F;
  targetDelayTime : F;
  valDepth : F;
  valTime : F;
  multiplier : F;
  wet : F;
  dry : F
}.

(** *** DELFX_INIT *)

(** The clearing loop, [n] iterations from index 0 *)
Fixpoint clear_lines (n : nat) (lr : (Z -> F) * (Z -> F)) : (Z -> F) * (Z -> F) :=
  match n with
  | O => lr
  | S k =>
      let '(l, r) := clear_lines k lr in
      (upd l (Z.of_nat k) (of_Z 0), upd r (Z.of_nat k) (of_Z 0))
  end.

Definition DELFX_INIT (st : state) : state :=
  let lines :=
    clear_lines (Z.to_nat DELAY_LINE_SIZE) (delayLine_L st, delayLine_R st) in
  {| delayLine_L := fst lines;
     delayLine_R := snd lines;
     delayLine_Wr := 0;
     currentDelayTime := of_Z SAMPLE_RATE;
     targetDelayTime := of_Z SAMPLE_RATE;
     valDepth := of_Z 0;
     valTime := of_Z 0;
     multiplier := of_Z 1;
     wet := lit 0.5;
     dry := lit 0.5 |}.

(** *** readFrac *)

(** Modelled from the spec: [linintf], the platform's linear interpolation
    [interpolateLinear(fraction, a, b)], [s0 + frac * (s1 - s0)]. *)
Definition linintf (fr x0 x1 : F) : F := x0 + fr * (x1 - x0).

Definition readFrac (pos : F) (pDelayLine : Z -> F) : option F :=
  match to_uint32 pos with
  | None => None
  | Some base =>
      let frac := pos - of_Z base in
      let s0 := pDelayLine (Z.land base DELAY_LINE_SIZE_MASK) in
      let base := ((base + 1) mod UINT32_MOD)%Z in
      let s1 := pDelayLine (Z.land base DELAY_LINE_SIZE_MASK) in
      Some (linintf frac s0 s1)
  end.

(** *** DELFX_PROCESS *)

(** The tempo after the failsafe *)
Definition failsafe_bpm (bpmF : F) : F :=
  if bpmF <=? of_Z 0 then of_Z MIN_BPM else bpmF.

(** Once per buffer: the delay time aimed at, from the tempo *)
Definition target_of_bpm (bpmF multiplier : F) : F :=
  let bpmF := failsafe_bpm bpmF in
  let bpm_s := of_Z 60 / bpmF in
  of_Z SAMPLE_RATE * bpm_s * of_Z NUM_NOTES_PER_BEAT * multiplier.

(** One step of the glide of the delay time *)
Definition glide (targetDelayTime currentDelayTime : F) : F :=
  let delta := targetDelayTime - currentDelayTime in
  let delta := delta / of_Z DELAY_GLIDE_RATE in
  currentDelayTime + delta.

(** The body of the sample loop on one frame *)
Definition process_frame (x : frame F) (st : state) : option (frame F * state) :=
  let currentDelayTime := glide (targetDelayTime st) (currentDelayTime st) in
  let sigInL := fst x in
  let sigInR := snd x in
  let Wr := delayLine_Wr st in
  let readIndex := of_Z Wr - currentDelayTime in
  let readIndex :=
    if readIndex <? of_Z 0 then readIndex + of_Z DELAY_LINE_SIZE_MASK
    else readIndex in
  match readFrac readIndex (delayLine_R st) with
  | None => None
  | Some delayLineSig_R =>
      let line_R := upd (delayLine_R st) Wr sigInR in
      let line_L := upd (delayLine_L st) Wr (delayLineSig_R * valDepth st) in
      match readFrac readIndex line_L with
      | None => None
      | Some delayLineSig_L =>
          let line_R := upd line_R Wr (line_R Wr + delayLineSig_L * valDepth st) in
          let Wr' := Z.land ((Wr + 1) mod UINT32_MOD) DELAY_LINE_SIZE_MASK in
          let sigOutL := sigInL * dry st + delayLineSig_L * wet st in
          let sigOutR := sigInR * dry st + delayLineSig_R * wet st in
          Some ((sigOutL, sigOutR),
                {| delayLine_L := line_L;
                   delayLine_R := line_R;
                   delayLine_Wr := Wr';
                   currentDelayTime := currentDelayTime;
                   targetDelayTime := targetDelayTime st;
                   valDepth := valDepth st;
                   valTime := valTime st;
                   multiplier := multiplier st;
                   wet := wet st;
                   dry := dry st |})
      end
  end.

(** The sample loop over the buffer *)
Fixpoint process_frames (xn : list (frame F)) (st : state)
  : option (list (frame F) * state) :=
  match xn with
  | [] => Some ([], st)
  | x :: xn' =>
      match process_frame x st with
      | None => None
      | Some (y, st1) =>
          match process_frames xn' st1 with
          | None => None
          | Some (ys, st2) => Some (y :: ys, st2)
          end
      end
  end.

Definition set_target (t : F) (st : state) : state :=
  {| delayLine_L := delayLine_L st;
     delayLine_R := delayLine_R st;
     delayLine_Wr := delayLine_Wr st;
     currentDelayTime := currentDelayTime st;
     targetDelayTime := t;
     valDepth := valDepth st;
     valTime := valTime st;
     multiplier := multiplier st;
     wet := wet st;
     dry := dry st |}.

(** [bpmF] is what [fx_get_bpmf()] returns during the call; [xn] the frames
    of the buffer, replaced by the result. *)
Definition DELFX_PROCESS (bpmF : F) (xn : list (frame F)) (st : state)
  : option (list (frame F) * state) :=
  process_frames xn (set_target (target_of_bpm bpmF (multiplier st)) st).

(** Consecutive calls, each with its tempo and its buffer *)
Fixpoint process_calls (calls : list (F * list (frame F))) (st : state)
  : option (list (list (frame F)) * state) :=
  match calls with
  | [] => Some ([], st)
  | (bpmF, xn) :: rest =>
      match DELFX_PROCESS bpmF xn st with
      | None => None
      | Some (ys, st1) =>
          match process_calls rest st1 with
          | None => None
          | Some (yss, st2) => Some (ys :: yss, st2)
          end
      end
  end.

(** *** DELFX_PARAM *)

(** The table index computed from the time knob, before the failsafe *)
Definition divIndex_of (valf : F) : option Z :=
  let f := valf in
  let f := f * of_Z (NUM_DELAY_DIVISIONS - 1) in
  to_int f.

(** The failsafe on the index *)
Definition divIndex_failsafe (divIndex : Z) : Z :=
  if ((NUM_DELAY_DIVISIONS <=? divIndex) || (divIndex <? 0))%Z
  then (NUM_DELAY_DIVISIONS - 1)%Z else divIndex.

(** The wet level from the shift-depth knob *)
Definition mix_of (valf : F) : F :=
  if valf <=? lit 0.49 then lit 1.02040816326530612244 * valf
  else if valf >=? lit 0.51 then lit 0.5 + lit 1.02 * (valf - lit 0.51)
  else lit 0.5.

Definition DELFX_PARAM (index : delfx_param) (value : Z) (st : state)
  : option state :=
  let valf := q31_to_f32 value in
  match index with
  | k_user_delfx_param_time =>
      match divIndex_of valf with
      | None => None
      | Some divIndex =>
          let divIndex := divIndex_failsafe divIndex in
          match nth_error delayDivisions (Z.to_nat divIndex) with
          | None => None
          | Some m =>
              Some {| delayLine_L := delayLine_L st;
                      delayLine_R := delayLine_R st;
                      delayLine_Wr := delayLine_Wr st;
                      currentDelayTime := currentDelayTime st;
                      targetDelayTime := targetDelayTime st;
                      valDepth := valDepth st;
                      valTime := valf;
                      multiplier := m;
                      wet := wet st;
                      dry := dry st |}
          end
      end
  | k_user_delfx_param_depth =>
      Some {| delayLine_L := delayLine_L st;
              delayLine_R := delayLine_R st;
              delayLine_Wr := delayLine_Wr st;
              currentDelayTime := currentDelayTime st;
              targetDelayTime := targetDelayTime st;
              valDepth := valf;
              valTime := valTime st;
              multiplier := multiplier st;
              wet := wet st;
              dry := dry st |}
  | k_user_delfx_param_shift_depth =>
      let s_mix := mix_of valf in
      Some {| delayLine_L := delayLine_L st;
              delayLine_R := delayLine_R st;
              delayLine_Wr := delayLine_Wr st;
              currentDelayTime := currentDelayTime st;
              targetDelayTime := targetDelayTime st;
              valDepth := valDepth st;
              valTime := valTime st;
              multiplier := multiplier st;
              wet := s_mix;
              dry := lit 1 - s_mix |}
  | k_user_delfx_param_other _ => Some st
  end.

End Program.

Arguments state F : clear implicits.

(** ** Definitions used to state the properties *)

(** Modelled from the spec: [q31_to_f32], the platform's conversion
    [normalizeControlValue(rawFixedPoint) -> float in [0,1]] of a Q31
    fixed-point control value: the value scaled by 2^-31.  The theorems
    hold for every conversion; this one instantiates them. *)
Definition q31_to_f32_ref {F : Type} {ops : FloatOps F} (q : Z) : F :=
  (of_Z q * lit (1 # 2147483648))%fl.


(** A buffer of [n] silent frames *)
Definition silence {F : Type} {ops : FloatOps F} (n : nat) : list (frame F) :=
  repeat (of_Z 0, of_Z 0) n.

(** A unit impulse on the right channel followed by [n] silent frames *)
Definition impulse_R {F : Type} {ops : FloatOps F} (n : nat) : list (frame F) :=
  (of_Z 0, of_Z 1) :: silence n.

(** A tempo for which the delay time fits the delay line when the
    multiplier is 1: not positive (the failsafe applies), or at least
    11520000 / 262143 BPM. *)
Definition tempo_fits (bpmF : Q) : Prop :=
  bpmF <= 0 \/ 11520000 <= 262143 * bpmF.

(** Powers of the feedback depth *)
Fixpoint qpow (d : Q) (n : nat) : Q :=
  match n with
  | O => 1
  | S k => d * qpow d k
  end.

(** The echo train of a unit impulse: [k] samples after the impulse, with a
    delay of [T] samples and feedback [d], the delayed right signal carries
    d^(j-1) when k = j*T with j odd, the delayed left signal d^(j-1) when
    k = j*T with j even and positive. *)
Definition echo_amp (T : Z) (d : Q) (k : Z) : Q :=
  if ((0 <? k) && (k mod T =? 0))%Z then qpow d (Z.to_nat (k / T - 1)) else 0.

Definition echo_R (T : Z) (d : Q) (k : Z) : Q :=
  if Z.odd (k / T) then echo_amp T d k else 0.

Definition echo_L (T : Z) (d : Q) (k : Z) : Q :=
  if Z.even (k / T) then echo_amp T d k else 0.

(** The tempi the failsafe of [DELFX_PROCESS] replaces, in binary32: the
    zeros, the negative numbers and minus infinity. *)
Definition b32_nonpositive (x : B32.float32) : bool :=
  match x with
  | S754_zero _ => true
  | S754_infinity s => s
  | S754_nan => false
  | S754_finite s _ _ => s
  end.

(** A state of the binary32 program with clear delay lines *)
Definition b32_clear_state (current target depth mult w d : B32.float32)
  : state B32.float32 :=
  {| delayLine_L := fun _ => B32.zero;
     delayLine_R := fun _ => B32.zero;
     delayLine_Wr := 0;
     currentDelayTime := current;
     targetDelayTime := target;
     valDepth := depth;
     valTime := B32.zero;
     multiplier := mult;
     wet := w;
     dry := d |}.

(** The right input of the impulse at frame [k] *)
Definition inR_at (k : Z) : Q := if (k =? 0)%Z then 1 else 0.

(** What the delay lines hold after [n] frames of the impulse *)
Definition line_R_at (T : Z) (d : Q) (n i : Z) : Q :=
  if (i <? n)%Z then inR_at i + echo_L T d i * d else 0.

Definition line_L_at (T : Z) (d : Q) (n i : Z) : Q :=
  if (i <? n)%Z then echo_R T d i * d else 0.

(** The state after [n] frames of the impulse, for a delay of [T] samples,
    feedback [d], mix [w], [dr] and multiplier [m] *)
Record echo_inv (T : Z) (d w dr m : Q) (n : Z) (st : state Q) : Prop := {
  ei_wr : delayLine_Wr st = (n mod DELAY_LINE_SIZE)%Z;
  ei_cur : currentDelayTime st == inject_Z T;
  ei_tgt : targetDelayTime st == inject_Z T;
  ei_d : valDepth st = d;
  ei_w : wet st = w;
  ei_dr : dry st = dr;
  ei_m : multiplier st = m;
  ei_R : forall i, (0 <= i < DELAY_LINE_SIZE)%Z ->
           delayLine_R st i == line_R_at T d n i;
  ei_L : forall i, (0 <= i < DELAY_LINE_SIZE)%Z ->
           delayLine_L st i == line_L_at T d n i
}.

(** The frames [n], [n+1], ... of the impulse stream *)
Definition is_stream (n : nat) (xs : list (frame Q)) : Prop :=
  forall j, (j < length xs)%nat ->
    fst (nth j xs (0, 0)) == 0
    /\ snd (nth j xs (0, 0)) == inR_at (Z.of_nat (n + j)).

(** The frames the effect returns for the frames [n], [n+1], ... *)
Definition is_echo (T : Z) (d w dr : Q) (n : nat) (ys : list (frame Q)) : Prop :=
  forall j, (j < length ys)%nat ->
    fst (nth j ys (0, 0)) == echo_L T d (Z.of_nat (n + j)) * w
    /\ snd (nth j ys (0, 0))
       == inR_at (Z.of_nat (n + j)) * dr + echo_R T d (Z.of_nat (n + j)) * w.

(** Both delay lines are clear *)
Definition lines_clear (st : state Q) : Prop :=
  forall i, (0 <= i < DELAY_LINE_SIZE)%Z ->
    delayLine_L st i == 0 /\ delayLine_R st i == 0.

(** The cursor is in the line and the delay times fit it *)
Definition time_fits (st : state Q) : Prop :=
  (0 <= delayLine_Wr st < DELAY_LINE_SIZE)%Z
  /\ 0 <= currentDelayTime st <= inject_Z DELAY_LINE_SIZE_MASK
  /\ 0 <= targetDelayTime st <= inject_Z DELAY_LINE_SIZE_MASK.

(** Two states with the same write cursor and delay times *)
Definition same_control {F : Type} (s1 s2 : state F) : Prop :=
  delayLine_Wr s1 = delayLine_Wr s2
  /\ currentDelayTime s1 = currentDelayTime s2
  /\ targetDelayTime s1 = targetDelayTime s2.

(** A state of the binary32 program used to instantiate the theorems: a
    stable delay of 750 samples (240 BPM at the division 1/64), feedback
    0.5 and an even mix *)
Definition b32_demo_state : state B32.float32 :=
  b32_clear_state (of_Z 750) (of_Z 750) (lit 0.5) (dlit 0.015625) (lit 0.5) (lit 0.5).

(** *** Rounding to nearest in binary32 *)

(** Binary32 numbers as reals: the powers of two *)
Definition bpow (e : Z) : Q := 2 ^ e.

(** [k] is the integer nearest to [y], the even one when [y] is half-way
    between two integers *)
Definition is_rne (y : Q) (k : Z) : Prop :=
  inject_Z k - (1 # 2) <= y <= inject_Z k + (1 # 2)
  /\ (y == inject_Z k - (1 # 2) \/ y == inject_Z k + (1 # 2) -> Z.even k = true).

(** A significand shifted right by [SpecFloat], with its round and sticky
    bits, stands for the real [y]: [m <= y < m + 1], the round bit tells
    whether [y] is in the upper half and the sticky bit whether it is
    strictly inside a half *)
Definition shr_rep (mrs : shr_record) (y : Q) : Prop :=
  let m := inject_Z (shr_m mrs) in
  match shr_r mrs, shr_s mrs with
  | false, false => y == m
  | false, true => m < y /\ y < m + (1 # 2)
  | true, false => y == m + (1 # 2)
  | true, true => m + (1 # 2) < y /\ y < m + 1
  end.

(** The positive real [a] rounds to [v]: [b] is the binade of [a]. *)
Definition rounds_mag (a v : Q) : Prop :=
  exists b k : Z,
    bpow (b - 1) <= a /\ a < bpow b
    /\ is_rne (a * bpow (- fexp B32.prec B32.emax b)) k
    /\ v == inject_Z k * bpow (fexp B32.prec B32.emax b).

(** The real [x] rounds to [v] *)
Definition rounds (x v : Q) : Prop :=
  (x == 0 /\ v == 0) \/ (0 < x /\ rounds_mag x v) \/ (x < 0 /\ rounds_mag (- x) (- v)).

(** [r] is a finite binary32 number, the rounding of the real [x] (or [x] itself) *)
Definition b32_rounds (x : Q) (r : B32.float32) : Prop :=
  B32.is_finite r = true /\ (B32.to_Q r == x \/ rounds x (B32.to_Q r)).

(** A number whose significand has all its 24 bits, or zero *)
Definition b32_normal (y : B32.float32) : Prop :=
  match y with
  | S754_finite _ m _ => (24 <= Zpos (digits2_pos m))%Z
  | _ => True
  end.

(** A binary32 number whose value lies between the reals [lo] and [hi] *)
Definition b32_between (lo hi : Q) (x : B32.float32) : Prop :=
  B32.is_finite x = true /\ lo <= B32.to_Q x /\ B32.to_Q x <= hi.

(** [x <= y] for two binary32 numbers, as C evaluates it and as reals *)
Definition b32_le (x y : B32.float32) : Prop :=
  (x <=? y)%fl = true /\ B32.to_Q x <= B32.to_Q y.

(** The state of the binary32 program while it is fed silence after
    [DELFX_INIT]: clear lines, a cursor in the line, no feedback, the mix and
    the multiplier of [DELFX_INIT] *)
Record silent_inv (st : state B32.float32) : Prop := {
  si_L : forall i, (0 <= i < DELAY_LINE_SIZE)%Z -> delayLine_L st i = B32.zero;
  si_R : forall i, (0 <= i < DELAY_LINE_SIZE)%Z -> delayLine_R st i = B32.zero;
  si_wr : (0 <= delayLine_Wr st < DELAY_LINE_SIZE)%Z;
  si_depth : valDepth st = B32.zero;
  si_wet : wet st = lit 0.5;
  si_dry : dry st = lit 0.5;
  si_mult : multiplier st = of_Z 1
}.

(** The delay times are binary32 numbers that fit the delay line *)
Definition delay_fits (st : state B32.float32) : Prop :=
  b32_between 0 262143 (currentDelayTime st)
  /\ b32_between 0 262143 (targetDelayTime st).

(** A tempo of the binary32 program for which the delay time fits the
    delay line when the multiplier is 1: one the failsafe replaces, or a
    number from 44 to 10^9 BPM *)
Definition tempo_fits_b32 (bpmF : B32.float32) : Prop :=
  (bpmF <=? of_Z 0)%fl = true \/ b32_between 44 1000000000 bpmF.

(** Unfolding of the exact arithmetic *)
Ltac qsimpl :=
  cbn [fadd fsub fmul fdiv fle flt of_Z lit dlit trunc Q_ops] in *.

(** ** Properties *)

(** *** Rounding to nearest in binary32 *)

(** Powers of two *)
Lemma bpow_pos (e : Z) : 0 < bpow e.
Proof. apply Qpower_0_lt. reflexivity. Qed.

Lemma bpow_add (a b : Z) : bpow (a + b) == bpow a * bpow b.
Proof. apply Qpower_plus. discriminate. Qed.

Lemma bpow_opp (a : Z) : bpow (- a) == / bpow a.
Proof. apply Qpower_opp. Qed.

Lemma bpow_inv (a : Z) : bpow a * bpow (- a) == 1.
Proof. rewrite <- bpow_add. rewrite Z.add_opp_diag_r. reflexivity. Qed.

Lemma bpow_Z (n : Z) : (0 <= n)%Z -> bpow n == inject_Z (2 ^ n).
Proof. intros H. unfold bpow. rewrite Zpower_Qpower by exact H. reflexivity. Qed.

Lemma bpow_le (a b : Z) : (a <= b)%Z -> bpow a <= bpow b.
Proof. intros H. apply Qpower_le_compat_l; [exact H|]. lra. Qed.

Lemma bpow_lt_inv (a b : Z) : bpow a < bpow b -> (a < b)%Z.
Proof. intros H. apply Qpower_lt_compat_l_inv with (q := 2); [exact H|reflexivity]. Qed.

Lemma bpow_succ (a : Z) : bpow (a + 1) == 2 * bpow a.
Proof. rewrite bpow_add. change (bpow 1) with 2. ring. Qed.

(** The number of binary digits of a significand *)
Lemma digits2_pos_bounds (p : positive) :
  (2 ^ (Zpos (digits2_pos p) - 1) <= Zpos p < 2 ^ Zpos (digits2_pos p))%Z.
Proof.
  induction p as [p IH|p IH|]; cbn [digits2_pos].
  - rewrite Pos2Z.inj_succ.
    replace (Z.succ (Zpos (digits2_pos p)) - 1)%Z with (Z.succ (Zpos (digits2_pos p) - 1))%Z by lia.
    rewrite !Z.pow_succ_r by lia. lia.
  - rewrite Pos2Z.inj_succ.
    replace (Z.succ (Zpos (digits2_pos p)) - 1)%Z with (Z.succ (Zpos (digits2_pos p) - 1))%Z by lia.
    rewrite !Z.pow_succ_r by lia. lia.
  - cbn. lia.
Qed.

Lemma digits2_pos_ge (p : positive) (k : Z) :
  (2 ^ k <= Zpos p)%Z -> (0 <= k)%Z -> (k + 1 <= Zpos (digits2_pos p))%Z.
Proof.
  intros H Hk. destruct (digits2_pos_bounds p) as [_ Hu].
  destruct (Z_lt_le_dec (Zpos (digits2_pos p)) (k + 1)) as [Hlt|]; [|assumption].
  exfalso. assert (2 ^ Zpos (digits2_pos p) <= 2 ^ k)%Z by (apply Z.pow_le_mono_r; lia). lia.
Qed.

Lemma digits2_pos_le (p : positive) (k : Z) :
  (Zpos p < 2 ^ k)%Z -> (0 <= k)%Z -> (Zpos (digits2_pos p) <= k)%Z.
Proof.
  intros H Hk. destruct (digits2_pos_bounds p) as [Hl _].
  destruct (Z_lt_le_dec k (Zpos (digits2_pos p))) as [Hlt|]; [|assumption].
  exfalso. assert (2 ^ k <= 2 ^ (Zpos (digits2_pos p) - 1))%Z by (apply Z.pow_le_mono_r; lia). lia.
Qed.

(** [SpecFloat]'s iteration over a positive number *)
Lemma iter_pos_nat {A : Type} (f : A -> A) (p : positive) : forall x : A,
  iter_pos f p x = Nat.iter (Pos.to_nat p) f x.
Proof.
  induction p as [p IH|p IH|]; intros x; cbn [iter_pos].
  - rewrite !IH. rewrite Pos2Nat.inj_xI. 
    replace (S (2 * Pos.to_nat p)) with (Pos.to_nat p + (Pos.to_nat p + 1))%nat by lia.
    rewrite !Nat.iter_add. reflexivity.
  - rewrite !IH. rewrite Pos2Nat.inj_xO.
    replace (2 * Pos.to_nat p)%nat with (Pos.to_nat p + Pos.to_nat p)%nat by lia.
    rewrite Nat.iter_add. reflexivity.
  - reflexivity.
Qed.

(** A shift to the right halves the real a record stands for *)
Lemma shr_1_rep (mrs : shr_record) (y : Q) :
  (0 <= shr_m mrs)%Z -> shr_rep mrs y ->
  shr_rep (shr_1 mrs) (y * (1 # 2)) /\ (0 <= shr_m (shr_1 mrs))%Z.
Proof.
  destruct mrs as [m r s]. cbn [shr_m]. intros Hm H.
  assert (Hs : forall p : positive, inject_Z (Zpos p~0) == 2 * inject_Z (Zpos p)).
  { intros p. rewrite Pos2Z.inj_xO, inject_Z_mult. reflexivity. }
  assert (Hi : forall p : positive, inject_Z (Zpos p~1) == 2 * inject_Z (Zpos p) + 1).
  { intros p. rewrite Pos2Z.inj_xI, inject_Z_plus, inject_Z_mult. reflexivity. }
  unfold shr_rep in *. cbn [shr_m shr_r shr_s] in *.
  destruct m as [|[p|p|]|p]; try lia; cbn [shr_1 shr_m shr_r shr_s];
    try (specialize (Hs p)); try (specialize (Hi p));
    change (inject_Z 1) with 1 in *; change (inject_Z 0) with 0 in *;
    destruct r, s; cbn [orb]; (split; [lra|lia]).
Qed.

Lemma shr_rep_ext (mrs : shr_record) (y y' : Q) :
  y == y' -> shr_rep mrs y -> shr_rep mrs y'.
Proof.
  unfold shr_rep. intros E H. destruct (shr_r mrs), (shr_s mrs); lra.
Qed.

Lemma shr_iter_rep (n : nat) : forall (mrs : shr_record) (y : Q),
  (0 <= shr_m mrs)%Z -> shr_rep mrs y ->
  shr_rep (Nat.iter n shr_1 mrs) (y * bpow (- Z.of_nat n))
  /\ (0 <= shr_m (Nat.iter n shr_1 mrs))%Z.
Proof.
  induction n as [|n IH]; intros mrs y Hm H.
  - cbn [Nat.iter Z.of_nat Z.opp]. split; [|assumption].
    apply shr_rep_ext with (y := y); [|assumption].
    change (bpow 0) with 1. ring.
  - cbn [Nat.iter]. destruct (IH _ _ Hm H) as [H1 H2].
    destruct (@shr_1_rep _ _ H2 H1) as [H3 H4]. split; [|assumption].
    apply shr_rep_ext with (y := y * bpow (- Z.of_nat n) * (1 # 2)); [|assumption].
    replace (- Z.of_nat (S n))%Z with (- Z.of_nat n + -1)%Z by lia.
    rewrite bpow_add. change (bpow (-1)) with (1 # 2). ring.
Qed.

(** [round_nearest_even] returns the nearest integer, ties to even *)
Lemma round_nearest_even_rep (mrs : shr_record) (y : Q) :
  shr_rep mrs y ->
  is_rne y (round_nearest_even (shr_m mrs) (loc_of_shr_record mrs)).
Proof.
  destruct mrs as [m r s]. unfold shr_rep, is_rne. cbn [shr_m shr_r shr_s loc_of_shr_record].
  destruct r, s; cbn [round_nearest_even]; intros H.
  - rewrite inject_Z_plus. change (inject_Z 1) with 1. split; [lra|]. intros [E|E]; lra.
  - destruct (Z.even m) eqn:Ev.
    + split; [lra|]. intros _. exact Ev.
    + rewrite inject_Z_plus. change (inject_Z 1) with 1. split; [lra|]. intros _.
      rewrite Z.even_add, Ev. reflexivity.
  - split; [lra|]. intros [E|E]; lra.
  - split; [lra|]. intros [E|E]; lra.
Qed.

(** The nearest integer is monotone and does not cross an integer *)
Lemma is_rne_mono (y1 y2 : Q) (k1 k2 : Z) :
  is_rne y1 k1 -> is_rne y2 k2 -> y1 <= y2 -> (k1 <= k2)%Z.
Proof.
  intros [B1 T1] [B2 T2] H.
  destruct (Z_lt_le_dec k2 k1) as [Hlt|]; [|lia]. exfalso.
  assert (Hk : inject_Z k2 + 1 <= inject_Z k1).
  { change 1 with (inject_Z 1). rewrite <- inject_Z_plus, <- Zle_Qle. lia. }
  assert (E1 : y1 == inject_Z k1 - (1 # 2)) by lra.
  assert (E2 : y2 == inject_Z k2 + (1 # 2)) by lra.
  assert (Ek : inject_Z k1 == inject_Z k2 + 1) by lra.
  assert (k1 = k2 + 1)%Z.
  { apply inject_Z_injective. rewrite Ek, inject_Z_plus. reflexivity. }
  specialize (T1 (or_introl E1)). specialize (T2 (or_intror E2)).
  subst k1. rewrite Z.even_add, T2 in T1. discriminate.
Qed.

Lemma is_rne_le (y : Q) (k K : Z) : is_rne y k -> y <= inject_Z K -> (k <= K)%Z.
Proof.
  intros [B _] H. destruct (Z_lt_le_dec K k) as [Hlt|]; [|lia]. exfalso.
  assert (inject_Z K + 1 <= inject_Z k).
  { change 1 with (inject_Z 1). rewrite <- inject_Z_plus, <- Zle_Qle. lia. }
  lra.
Qed.

Lemma is_rne_ge (y : Q) (k K : Z) : is_rne y k -> inject_Z K <= y -> (K <= k)%Z.
Proof.
  intros [B _] H. destruct (Z_lt_le_dec k K) as [Hlt|]; [|lia]. exfalso.
  assert (inject_Z k + 1 <= inject_Z K).
  { change 1 with (inject_Z 1). rewrite <- inject_Z_plus, <- Zle_Qle. lia. }
  lra.
Qed.

Lemma is_rne_double (y : Q) (k : Z) : is_rne y k -> 0 <= y -> inject_Z k <= 2 * y.
Proof.
  intros H Hy. destruct (Qlt_le_dec y (1 # 2)) as [Hs|Hs].
  - assert (k <= 0)%Z.
    { destruct (Z_lt_le_dec 0 k) as [Hlt|]; [|lia]. exfalso.
      assert (1 <= inject_Z k). { change 1 with (inject_Z 1). rewrite <- Zle_Qle. lia. }
      destruct H as [B _]. lra. }
    assert (inject_Z k <= 0). { change 0 with (inject_Z 0). rewrite <- Zle_Qle. lia. }
    lra.
  - destruct H as [B _]. lra.
Qed.

Lemma fexp_b32 (e : Z) : fexp B32.prec B32.emax e = Z.max (e - 24) (-149).
Proof. reflexivity. Qed.

Lemma shr_record_of_loc_m (m : Z) (l : location) : shr_m (shr_record_of_loc m l) = m.
Proof. destruct l as [|[| |]]; reflexivity. Qed.

Lemma shr_spec (mrs : shr_record) (e n : Z) (y : Q) :
  (0 <= shr_m mrs)%Z -> shr_rep mrs y -> (0 <= n)%Z ->
  shr_rep (fst (shr mrs e n)) (y * bpow (- n))
  /\ (0 <= shr_m (fst (shr mrs e n)))%Z
  /\ snd (shr mrs e n) = (e + n)%Z.
Proof.
  intros Hm H Hn. destruct n as [|p|p]; cbn [shr fst snd].
  - split; [|split; [assumption|lia]].
    apply shr_rep_ext with (y := y); [|assumption]. change (bpow (- 0)) with 1. ring.
  - rewrite iter_pos_nat. destruct (@shr_iter_rep (Pos.to_nat p) _ _ Hm H) as [H1 H2].
    rewrite positive_nat_Z in H1. split; [assumption|split; [assumption|reflexivity]].
  - lia.
Qed.

Lemma shr_noop (mrs : shr_record) (e n : Z) : (n <= 0)%Z -> shr mrs e n = (mrs, e).
Proof. destruct n; [reflexivity|lia|reflexivity]. Qed.

Lemma shr_rep_lower (mrs : shr_record) (y : Q) :
  shr_rep mrs y -> inject_Z (shr_m mrs) <= y < inject_Z (shr_m mrs) + 1.
Proof. unfold shr_rep. destruct (shr_r mrs), (shr_s mrs); lra. Qed.

Lemma Zdigits2_upper (m : Z) : (0 <= m)%Z ->
  (m + 1 <= 2 ^ Zdigits2 m)%Z /\ (0 <= Zdigits2 m)%Z.
Proof.
  intros H. destruct m as [|p|p]; [cbn; lia| |lia].
  cbn [Zdigits2]. destruct (digits2_pos_bounds p). lia.
Qed.

(** The rounding step shared by the operations: from a significand [mx]
    with its location, standing for the real [y] at the exponent [ex],
    [binary_round_aux] returns (when nothing overflows) the zero or the
    finite number worth [k] units of the exponent of the result, [k] being
    the integer nearest to [y] brought to that exponent *)
Lemma binary_round_aux_rep (sx : bool) (mx ex : Z) (lx : location) (y : Q) :
  (0 <= mx)%Z -> shr_rep (shr_record_of_loc mx lx) y ->
  (ex <= fexp B32.prec B32.emax (Zdigits2 mx + ex))%Z ->
  (fexp B32.prec B32.emax (Zdigits2 mx + ex) < 104)%Z ->
  exists k : Z,
    is_rne (y * bpow (ex - fexp B32.prec B32.emax (Zdigits2 mx + ex))) k
    /\ ((k = 0%Z /\ binary_round_aux B32.prec B32.emax sx mx ex lx = S754_zero sx)
        \/ (exists m e, binary_round_aux B32.prec B32.emax sx mx ex lx = S754_finite sx m e
              /\ inject_Z (Zpos m) * bpow e
                 == inject_Z k * bpow (fexp B32.prec B32.emax (Zdigits2 mx + ex)))).
Proof.
  intros Hm H Hal Hov.
  set (g := fexp B32.prec B32.emax (Zdigits2 mx + ex)) in *.
  assert (Hg : (Zdigits2 mx + ex - 24 <= g /\ -149 <= g)%Z).
  { unfold g. rewrite fexp_b32. lia. }
  assert (Hm0 : (0 <= shr_m (shr_record_of_loc mx lx))%Z) by (rewrite shr_record_of_loc_m; exact Hm).
  destruct (@shr_spec _ ex (g - ex) _ Hm0 H ltac:(lia)) as (H1 & H2 & H3).
  unfold binary_round_aux, shr_fexp. fold g.
  destruct (shr (shr_record_of_loc mx lx) ex (g - ex)) as [mrs' e'] eqn:E1.
  cbn [fst snd] in H1, H2, H3.
  assert (He' : e' = g) by lia. clear H3. subst e'.
  set (k := round_nearest_even (shr_m mrs') (loc_of_shr_record mrs')).
  assert (Hk : is_rne (y * bpow (ex - g)) k).
  { replace (ex - g)%Z with (- (g - ex))%Z by lia. apply round_nearest_even_rep. exact H1. }
  exists k. split; [exact Hk|].
  (* bounds on k *)
  destruct (@shr_rep_lower _ _ H) as [Hy0 Hy1]. rewrite shr_record_of_loc_m in Hy0, Hy1.
  destruct (@Zdigits2_upper _ Hm) as [Hd Hd0].
  assert (Hy : 0 <= y).
  { assert (0 <= inject_Z mx) by (change 0 with (inject_Z 0); rewrite <- Zle_Qle; exact Hm). lra. }
  assert (Hyu : y <= bpow (Zdigits2 mx)).
  { rewrite bpow_Z by exact Hd0.
    assert (inject_Z mx + 1 <= inject_Z (2 ^ Zdigits2 mx)).
    { change 1 with (inject_Z 1). rewrite <- inject_Z_plus, <- Zle_Qle. exact Hd. }
    lra. }
  assert (Hk0 : (0 <= k)%Z).
  { apply (@is_rne_ge _ _ _ Hk). change (inject_Z 0) with 0.
    apply Qmult_le_0_compat; [exact Hy|]. apply Qlt_le_weak, bpow_pos. }
  assert (Hk1 : (k <= 2 ^ 24)%Z).
  { apply (@is_rne_le _ _ _ Hk). rewrite <- bpow_Z by lia.
    apply Qle_trans with (bpow (Zdigits2 mx) * bpow (ex - g)).
    - apply Qmult_le_compat_r; [exact Hyu|]. apply Qlt_le_weak, bpow_pos.
    - rewrite <- bpow_add. apply bpow_le. lia. }
  destruct (Z.eq_dec k 0) as [K0|K0].
  - left. split; [exact K0|]. rewrite K0. cbn [Zdigits2].
    rewrite shr_noop by (rewrite fexp_b32; lia). reflexivity.
  - right. destruct (Z.eq_dec k (2 ^ 24)) as [K1|K1].
    + rewrite K1. change (Zdigits2 (2 ^ 24)) with 25%Z.
      replace (fexp B32.prec B32.emax (25 + g) - g)%Z with 1%Z by (rewrite fexp_b32; lia).
      cbn [shr shr_record_of_loc iter_pos]. 
      change (shr_m (shr_1 {| shr_m := 2 ^ 24; shr_r := false; shr_s := false |})) with 8388608%Z.
      cbv iota beta.
      replace (g + 1 <=? B32.emax - B32.prec)%Z with true
        by (symmetry; apply Z.leb_le; unfold B32.emax, B32.prec; lia).
      exists 8388608%positive, (g + 1)%Z. split; [reflexivity|].
      rewrite bpow_succ. change (inject_Z (2 ^ 24)) with (2 * inject_Z 8388608). ring.
    + destruct k as [|p|p]; [lia| |lia].
      assert (Hp : (Zpos (digits2_pos p) <= 24)%Z) by (apply digits2_pos_le; lia).
      cbn [Zdigits2]. rewrite shr_noop by (rewrite fexp_b32; lia).
      cbn [shr_record_of_loc shr_m].
      replace (g <=? B32.emax - B32.prec)%Z with true
        by (symmetry; apply Z.leb_le; unfold B32.emax, B32.prec; lia).
      exists p, g. split; reflexivity.
Qed.

Lemma Zpos_shiftl (p d : positive) : Zpos (Pos.iter xO p d) = (Zpos p * 2 ^ Zpos d)%Z.
Proof.
  change (Pos.iter xO p d) with (Pos.shiftl p (Npos d)).
  rewrite <- shift_pos_equiv, shift_pos_correct. 
  change (Z.pow_pos 2 d) with (2 ^ Zpos d)%Z. lia.
Qed.

(** The real value of a finite number *)
Lemma to_Q_finite (s : bool) (m : positive) (e : Z) :
  B32.to_Q (S754_finite s m e)
  == if s then - (inject_Z (Zpos m) * bpow e) else inject_Z (Zpos m) * bpow e.
Proof.
  assert (E : (match e with
               | Zneg k => Zpos m # Pos.shiftl 1 (Npos k)
               | _ => inject_Z (Z.shiftl (Zpos m) e)
               end) == inject_Z (Zpos m) * bpow e).
  { destruct e as [|k|k].
    - change (bpow 0) with 1. cbn [Z.shiftl]. ring.
    - rewrite Z.shiftl_mul_pow2 by lia. rewrite inject_Z_mult, bpow_Z by lia. reflexivity.
    - change (Z.neg k) with (- Zpos k)%Z. rewrite bpow_opp, bpow_Z by lia.
      rewrite Qmake_Qdiv. cbn [Pos.shiftl]. rewrite Zpos_shiftl.
      rewrite Z.mul_1_l. reflexivity. }
  cbn [B32.to_Q]. destruct s; rewrite E; reflexivity.
Qed.

Lemma bpow_mul_Z (N E g : Z) : (g <= E)%Z ->
  inject_Z N * bpow E == inject_Z (N * 2 ^ (E - g)) * bpow g.
Proof.
  intros H. rewrite inject_Z_mult, <- bpow_Z by lia.
  rewrite <- Qmult_assoc, <- bpow_add. replace (E - g + g)%Z with E by lia. reflexivity.
Qed.

Lemma Qmul_bpow_le (a c : Q) (e : Z) : a <= c -> a * bpow e <= c * bpow e.
Proof. intros H. apply Qmult_le_compat_r; [exact H|]. apply Qlt_le_weak, bpow_pos. Qed.

Lemma Qmul_bpow_le_inv (a c : Q) (e : Z) : a * bpow e <= c * bpow e -> a <= c.
Proof.
  intros H. apply (@Qmul_bpow_le _ _ (- e)) in H.
  rewrite <- !Qmult_assoc, !bpow_inv, !Qmult_1_r in H. exact H.
Qed.

(** The rounding relation: a rounded value does not cross a representable
    number, rounding is monotone, and the error is at most half a unit of
    the last place *)
Lemma rounds_mag_nonneg (a v : Q) : rounds_mag a v -> 0 <= v.
Proof.
  intros (b & k & Hl & Hu & Hk & Hv). rewrite Hv.
  assert (0 <= a) by (pose proof (bpow_pos (b - 1)); lra).
  assert (0 <= k)%Z.
  { apply (@is_rne_ge _ _ _ Hk). change (inject_Z 0) with 0.
    apply Qmult_le_0_compat; [assumption|]. apply Qlt_le_weak, bpow_pos. }
  apply Qmult_le_0_compat; [|apply Qlt_le_weak, bpow_pos].
  change 0 with (inject_Z 0). rewrite <- Zle_Qle. assumption.
Qed.

Lemma rounds_mag_le (a v : Q) (N E : Z) :
  rounds_mag a v -> a <= inject_Z N * bpow E -> (N < 2 ^ 24)%Z -> (-149 <= E)%Z ->
  v <= inject_Z N * bpow E.
Proof.
  intros (b & k & Hl & Hu & Hk & Hv) H HN HE. rewrite Hv.
  set (g := fexp B32.prec B32.emax b) in *.
  assert (Hb : (b - 1 < 24 + E)%Z).
  { apply bpow_lt_inv. apply Qle_lt_trans with a; [exact Hl|].
    apply Qle_lt_trans with (inject_Z N * bpow E); [exact H|].
    rewrite bpow_add. apply Qmult_lt_compat_r; [apply bpow_pos|].
    rewrite bpow_Z by lia. rewrite <- Zlt_Qlt. exact HN. }
  assert (Hg : (g <= E)%Z) by (unfold g; rewrite fexp_b32; lia).
  rewrite (bpow_mul_Z N Hg). apply Qmul_bpow_le. rewrite <- Zle_Qle.
  apply (@is_rne_le _ _ _ Hk). 
  apply Qmul_bpow_le_inv with (e := g).
  rewrite <- Qmult_assoc, (Qmult_comm (bpow (- g))), bpow_inv, Qmult_1_r.
  rewrite <- (bpow_mul_Z N Hg). exact H.
Qed.

Lemma rounds_mag_ge (a v : Q) (N E : Z) :
  rounds_mag a v -> inject_Z N * bpow E <= a -> (N < 2 ^ 24)%Z -> (-149 <= E)%Z ->
  inject_Z N * bpow E <= v.
Proof.
  intros (b & k & Hl & Hu & Hk & Hv) H HN HE. rewrite Hv.
  set (g := fexp B32.prec B32.emax b) in *.
  destruct (Z_le_gt_dec g E) as [Hg|Hg].
  - rewrite (bpow_mul_Z N Hg). apply Qmul_bpow_le. rewrite <- Zle_Qle.
    apply (@is_rne_ge _ _ _ Hk).
    apply Qmul_bpow_le_inv with (e := g).
    rewrite <- Qmult_assoc, (Qmult_comm (bpow (- g))), bpow_inv, Qmult_1_r.
    rewrite <- (bpow_mul_Z N Hg). exact H.
  - assert (Hgb : g = (b - 24)%Z) by (unfold g in *; rewrite fexp_b32 in *; lia).
    apply Qle_trans with (bpow (b - 1)).
    + apply Qle_trans with (bpow (24 + E)); [|apply bpow_le; lia].
      rewrite bpow_add. apply Qmult_le_compat_r; [|apply Qlt_le_weak, bpow_pos].
      rewrite bpow_Z by lia. rewrite <- Zle_Qle. lia.
    + assert (Hg1 : (g <= b - 1)%Z) by lia.
      assert (E1 : bpow (b - 1) == inject_Z (1 * 2 ^ (b - 1 - g)) * bpow g).
      { rewrite <- (bpow_mul_Z 1 Hg1). change (inject_Z 1) with 1. ring. }
      rewrite E1. apply Qmul_bpow_le. rewrite <- Zle_Qle.
      apply (@is_rne_ge _ _ _ Hk).
      apply Qmul_bpow_le_inv with (e := g).
      rewrite <- Qmult_assoc, (Qmult_comm (bpow (- g))), bpow_inv, Qmult_1_r.
      rewrite <- E1. exact Hl.
Qed.

Lemma rounds_mag_mono (a1 v1 a2 v2 : Q) :
  rounds_mag a1 v1 -> rounds_mag a2 v2 -> a1 <= a2 -> v1 <= v2.
Proof.
  intros H1 H2 H.
  destruct H1 as (b1 & k1 & Hl1 & Hu1 & Hk1 & Hv1).
  destruct H2 as (b2 & k2 & Hl2 & Hu2 & Hk2 & Hv2).
  assert (Hb : (b1 - 1 < b2)%Z).
  { apply bpow_lt_inv. apply Qle_lt_trans with a1; [exact Hl1|].
    apply Qle_lt_trans with a2; assumption. }
  destruct (Z.eq_dec (fexp B32.prec B32.emax b1) (fexp B32.prec B32.emax b2)) as [Eg|Eg].
  - rewrite Hv1, Hv2, Eg. apply Qmul_bpow_le. rewrite <- Zle_Qle.
    apply (is_rne_mono Hk1 Hk2). rewrite Eg. apply Qmul_bpow_le. exact H.
  - assert (Hg : (b1 < b2 /\ -149 <= b2 - 1)%Z) by (rewrite !fexp_b32 in Eg; lia).
    assert (E1 : bpow (b2 - 1) == inject_Z 1 * bpow (b2 - 1)) by (change (inject_Z 1) with 1; ring).
    apply Qle_trans with (inject_Z 1 * bpow (b2 - 1)).
    + apply rounds_mag_le with (a := a1); [exists b1, k1; tauto| |lia|lia].
      rewrite <- E1. apply Qle_trans with (bpow b1); [apply Qlt_le_weak; exact Hu1|].
      apply bpow_le. lia.
    + apply rounds_mag_ge with (a := a2); [exists b2, k2; tauto| |lia|lia].
      rewrite <- E1. exact Hl2.
Qed.

Lemma rounds_mag_err (a v : Q) (B : Z) :
  rounds_mag a v -> a < bpow B ->
  - bpow (fexp B32.prec B32.emax B - 1) <= v - a <= bpow (fexp B32.prec B32.emax B - 1).
Proof.
  intros (b & k & Hl & Hu & Hk & Hv) H.
  assert (Hb : (b - 1 < B)%Z).
  { apply bpow_lt_inv. apply Qle_lt_trans with a; assumption. }
  set (g := fexp B32.prec B32.emax b) in *.
  assert (Hg : bpow (g - 1) <= bpow (fexp B32.prec B32.emax B - 1)).
  { apply bpow_le. unfold g. rewrite !fexp_b32. lia. }
  assert (E : a == a * bpow (- g) * bpow g).
  { rewrite <- Qmult_assoc, (Qmult_comm (bpow (- g))), bpow_inv. ring. }
  assert (Eh : bpow (g - 1) == (1 # 2) * bpow g).
  { replace (g - 1)%Z with (g + -1)%Z by lia. rewrite bpow_add. change (bpow (-1)) with (1 # 2). ring. }
  destruct Hk as [[K1 K2] _]. pose proof (bpow_pos g) as Hp.
  set (t := a * bpow (- g)) in *.
  assert (v - a == (inject_Z k - t) * bpow g) by (rewrite Hv, E; ring).
  assert ((inject_Z k - t) * bpow g <= (1 # 2) * bpow g) by (apply Qmul_bpow_le; lra).
  assert (- (1 # 2) * bpow g <= (inject_Z k - t) * bpow g ) by (apply Qmul_bpow_le; lra).
  lra.
Qed.

Lemma rounds_mag_double (a v : Q) : rounds_mag a v -> v <= 2 * a.
Proof.
  intros (b & k & Hl & Hu & Hk & Hv).
  set (g := fexp B32.prec B32.emax b) in *.
  assert (Ha : 0 <= a) by (pose proof (bpow_pos (b - 1)); lra).
  assert (E : a == a * bpow (- g) * bpow g).
  { rewrite <- Qmult_assoc, (Qmult_comm (bpow (- g))), bpow_inv. ring. }
  assert (H0 : 0 <= a * bpow (- g)).
  { apply Qmult_le_0_compat; [assumption|]. apply Qlt_le_weak, bpow_pos. }
  pose proof (is_rne_double Hk H0) as Hd.
  apply (@Qmul_bpow_le _ _ g) in Hd. rewrite Hv.
  set (t := a * bpow (- g)) in *. lra.
Qed.

(** The same for a real of either sign *)
Lemma rounds_sign (x v : Q) : rounds x v -> (0 <= x -> 0 <= v) /\ (x <= 0 -> v <= 0).
Proof.
  intros [[Hx Hv]|[[Hx H]|[Hx H]]]; pose proof (rounds_mag_nonneg H) as Hn || idtac; split; intros; lra.
Qed.

Lemma rounds_le (x v : Q) (N E : Z) :
  rounds x v -> x <= inject_Z N * bpow E -> (- 2 ^ 24 < N < 2 ^ 24)%Z -> (-149 <= E)%Z ->
  v <= inject_Z N * bpow E.
Proof.
  intros [[Hx Hv]|[[Hx H]|[Hx H]]] Hle HN HE.
  - lra.
  - apply rounds_mag_le with (a := x); [assumption|assumption|lia|assumption].
  - pose proof (rounds_mag_nonneg H) as Hn. pose proof (bpow_pos E) as Hp.
    destruct (Z_lt_le_dec N 0) as [Hneg|Hpos].
    + assert (inject_Z (- N) * bpow E <= - v).
      { apply rounds_mag_ge with (a := - x); [assumption| |lia|assumption].
        rewrite inject_Z_opp. lra. }
      rewrite inject_Z_opp in *. lra.
    + assert (0 <= inject_Z N * bpow E).
      { apply Qmult_le_0_compat; [|lra]. change 0 with (inject_Z 0). rewrite <- Zle_Qle. lia. }
      lra.
Qed.

Lemma rounds_opp (x v : Q) : rounds x v -> rounds (- x) (- v).
Proof.
  intros [[Hx Hv]|[[Hx H]|[Hx H]]].
  - left. split; lra.
  - right. right. split; [lra|]. destruct H as (b & k & Hl & Hu & Hk & Hv). exists b, k.
    repeat split; try (rewrite Qopp_involutive; assumption); try apply Hk.
    + rewrite Qopp_involutive. apply Hk.
    + rewrite Qopp_involutive. apply Hk.
    + destruct Hk as [_ T]. intros HT. apply T. rewrite Qopp_involutive in HT. exact HT.
  - right. left. split; [lra|]. exact H.
Qed.

Lemma rounds_ge (x v : Q) (N E : Z) :
  rounds x v -> inject_Z N * bpow E <= x -> (- 2 ^ 24 < N < 2 ^ 24)%Z -> (-149 <= E)%Z ->
  inject_Z N * bpow E <= v.
Proof.
  intros H Hle HN HE. apply rounds_opp in H.
  assert (- v <= inject_Z (- N) * bpow E).
  { apply rounds_le with (x := - x); [assumption| |lia|assumption].
    rewrite inject_Z_opp. lra. }
  rewrite inject_Z_opp in *. lra.
Qed.

Lemma rounds_mono (x1 v1 x2 v2 : Q) :
  rounds x1 v1 -> rounds x2 v2 -> x1 <= x2 -> v1 <= v2.
Proof.
  intros H1 H2 H.
  destruct (rounds_sign H1) as [P1 N1]. destruct (rounds_sign H2) as [P2 N2].
  destruct H1 as [[Hx1 Hv1]|[[Hx1 M1]|[Hx1 M1]]];
  destruct H2 as [[Hx2 Hv2]|[[Hx2 M2]|[Hx2 M2]]]; try lra.
  - apply (rounds_mag_mono M1 M2 H).
  - assert (- v2 <= - v1) by (apply (rounds_mag_mono M2 M1); lra). lra.
Qed.

Lemma rounds_err (x v : Q) (B : Z) :
  rounds x v -> - bpow B < x -> x < bpow B ->
  - bpow (fexp B32.prec B32.emax B - 1) <= v - x <= bpow (fexp B32.prec B32.emax B - 1).
Proof.
  intros [[Hx Hv]|[[Hx H]|[Hx H]]] Hl Hu.
  - pose proof (bpow_pos (fexp B32.prec B32.emax B - 1)). lra.
  - apply (@rounds_mag_err _ _ _ H Hu).
  - assert (Hu' : - x < bpow B) by lra. pose proof (@rounds_mag_err _ _ _ H Hu'). lra.
Qed.

Lemma rounds_int_le (x v : Q) (K : Z) :
  rounds x v -> x <= inject_Z K -> (- 2 ^ 24 < K < 2 ^ 24)%Z -> v <= inject_Z K.
Proof.
  intros H Hle HK. pose proof (@rounds_le x v K 0 H) as L.
  change (bpow 0) with 1 in L. rewrite Qmult_1_r in L. apply L; [assumption|assumption|lia].
Qed.

Lemma rounds_int_ge (x v : Q) (K : Z) :
  rounds x v -> inject_Z K <= x -> (- 2 ^ 24 < K < 2 ^ 24)%Z -> inject_Z K <= v.
Proof.
  intros H Hle HK. pose proof (@rounds_ge x v K 0 H) as L.
  change (bpow 0) with 1 in L. rewrite Qmult_1_r in L. apply L; [assumption|assumption|lia].
Qed.

Lemma is_rne_ext (y y' : Q) (k : Z) : y == y' -> is_rne y k -> is_rne y' k.
Proof.
  intros E [B T]. split; [lra|]. intros [H|H]; apply T; [left|right]; lra.
Qed.

Lemma rounds_mag_ext (a a' v v' : Q) : a == a' -> v == v' -> rounds_mag a v -> rounds_mag a' v'.
Proof.
  intros E E' (b & k & Hl & Hu & Hk & Hv). exists b, k. repeat split; try lra.
  - destruct Hk as [[K1 K2] _]. 
    assert (a' * bpow (- fexp B32.prec B32.emax b) == a * bpow (- fexp B32.prec B32.emax b))
      by (rewrite E; reflexivity). lra.
  - destruct Hk as [[K1 K2] _]. 
    assert (a' * bpow (- fexp B32.prec B32.emax b) == a * bpow (- fexp B32.prec B32.emax b))
      by (rewrite E; reflexivity). lra.
  - assert (Hk' : is_rne (a' * bpow (- fexp B32.prec B32.emax b)) k).
    { apply is_rne_ext with (y := a * bpow (- fexp B32.prec B32.emax b)); [|assumption].
      rewrite E. reflexivity. }
    apply Hk'.
Qed.

Lemma rounds_ext (x x' v v' : Q) : x == x' -> v == v' -> rounds x v -> rounds x' v'.
Proof.
  intros E E' [[Hx Hv]|[[Hx H]|[Hx H]]].
  - left. split; lra.
  - right. left. split; [lra|]. apply (rounds_mag_ext E E' H).
  - right. right. split; [lra|]. apply rounds_mag_ext with (a := - x) (v := - v); [lra|lra|assumption].
Qed.

Lemma Zpos_bpow_bounds (m : positive) (e : Z) :
  bpow (Zpos (digits2_pos m) + e - 1) <= inject_Z (Zpos m) * bpow e
  /\ inject_Z (Zpos m) * bpow e < bpow (Zpos (digits2_pos m) + e).
Proof.
  destruct (digits2_pos_bounds m) as [Hl Hu]. split.
  - replace (Zpos (digits2_pos m) + e - 1)%Z with (Zpos (digits2_pos m) - 1 + e)%Z by lia.
    rewrite bpow_add. apply Qmul_bpow_le. rewrite bpow_Z by lia. rewrite <- Zle_Qle. exact Hl.
  - rewrite bpow_add. apply Qmult_lt_compat_r; [apply bpow_pos|].
    rewrite bpow_Z by lia. rewrite <- Zlt_Qlt. exact Hu.
Qed.

Lemma digits_of_bound (m : positive) (e B : Z) :
  inject_Z (Zpos m) * bpow e < bpow B -> (Zpos (digits2_pos m) + e <= B)%Z.
Proof.
  intros H. destruct (Zpos_bpow_bounds m e) as [Hl _].
  assert (Zpos (digits2_pos m) + e - 1 < B)%Z; [|lia].
  apply bpow_lt_inv. apply Qle_lt_trans with (inject_Z (Zpos m) * bpow e); assumption.
Qed.

(** What [SpecFloat]'s rounding functions return on an exact significand *)
Lemma binary_round_aux_exact (sx : bool) (mx : positive) (ex : Z) :
  (ex <= fexp B32.prec B32.emax (Zpos (digits2_pos mx) + ex))%Z ->
  (Zpos (digits2_pos mx) + ex <= 127)%Z ->
  B32.is_finite (binary_round_aux B32.prec B32.emax sx (Zpos mx) ex loc_Exact) = true
  /\ exists v, rounds_mag (inject_Z (Zpos mx) * bpow ex) v
       /\ B32.to_Q (binary_round_aux B32.prec B32.emax sx (Zpos mx) ex loc_Exact)
          == (if sx then - v else v).
Proof.
  intros Hal Hov.
  assert (Hrep : shr_rep (shr_record_of_loc (Zpos mx) loc_Exact) (inject_Z (Zpos mx))).
  { unfold shr_rep. cbn. reflexivity. }
  destruct (@binary_round_aux_rep sx (Zpos mx) ex loc_Exact _ ltac:(lia) Hrep) as (k & Hk & Hr).
  - exact Hal.
  - cbn [Zdigits2]. rewrite fexp_b32. lia.
  - cbn [Zdigits2] in *.
    set (g := fexp B32.prec B32.emax (Zpos (digits2_pos mx) + ex)) in *.
    assert (Hm : rounds_mag (inject_Z (Zpos mx) * bpow ex) (inject_Z k * bpow g)).
    { exists (Zpos (digits2_pos mx) + ex)%Z, k. fold g.
      destruct (Zpos_bpow_bounds mx ex) as [Hl Hu].
      split; [exact Hl|]. split; [exact Hu|]. split; [|reflexivity].
      apply is_rne_ext with (y := inject_Z (Zpos mx) * bpow (ex - g)); [|exact Hk].
      unfold Z.sub. rewrite bpow_add. ring. }
    destruct Hr as [[K0 Hr]|(m & e & Hr & Hv)]; rewrite Hr.
    + split; [reflexivity|]. exists (inject_Z k * bpow g). split; [exact Hm|].
      rewrite K0. cbn [B32.to_Q]. destruct sx; change (inject_Z 0) with 0; ring.
    + split; [reflexivity|]. exists (inject_Z k * bpow g). split; [exact Hm|].
      rewrite to_Q_finite. destruct sx; rewrite Hv; reflexivity.
Qed.

Lemma digits2_pos_shiftl (m d : positive) :
  Zpos (digits2_pos (Pos.iter xO m d)) = (Zpos (digits2_pos m) + Zpos d)%Z.
Proof.
  destruct (digits2_pos_bounds m) as [Hl Hu].
  apply Z.le_antisymm.
  - apply digits2_pos_le; [|lia]. rewrite Zpos_shiftl, Z.pow_add_r by lia. nia.
  - replace (Zpos (digits2_pos m) + Zpos d)%Z with (Zpos (digits2_pos m) - 1 + Zpos d + 1)%Z by lia.
    apply digits2_pos_ge; [|lia]. rewrite Zpos_shiftl, Z.pow_add_r by lia.
    assert (0 < 2 ^ Zpos d)%Z by (apply Z.pow_pos_nonneg; lia). nia.
Qed.

Lemma binary_round_exact (sx : bool) (mx : positive) (ex : Z) :
  (Zpos (digits2_pos mx) + ex <= 127)%Z ->
  B32.is_finite (binary_round B32.prec B32.emax sx mx ex) = true
  /\ exists v, rounds_mag (inject_Z (Zpos mx) * bpow ex) v
       /\ B32.to_Q (binary_round B32.prec B32.emax sx mx ex) == (if sx then - v else v).
Proof.
  intros Hov. unfold binary_round, shl_align.
  set (g := fexp B32.prec B32.emax (Zpos (digits2_pos mx) + ex)).
  destruct (g - ex)%Z as [|d|d] eqn:Ed.
  - apply binary_round_aux_exact; [fold g; lia|exact Hov].
  - apply binary_round_aux_exact; [fold g; lia|exact Hov].
  - assert (Hd : (Zpos (digits2_pos (Pos.iter xO mx d)) + g
                  = Zpos (digits2_pos mx) + ex)%Z) by (rewrite digits2_pos_shiftl; lia).
    destruct (@binary_round_aux_exact sx (Pos.iter xO mx d) g) as (Hf & v & Hm & Hv).
    + rewrite Hd. fold g. lia.
    + rewrite Hd. exact Hov.
    + split; [exact Hf|]. exists v. split; [|exact Hv].
      apply rounds_mag_ext with (a := inject_Z (Zpos (Pos.iter xO mx d)) * bpow g) (v := v);
        [|reflexivity|exact Hm].
      rewrite Zpos_shiftl, inject_Z_mult, <- bpow_Z by lia.
      rewrite <- Qmult_assoc, <- bpow_add. replace (Zpos d + g)%Z with ex by lia. reflexivity.
Qed.

Lemma binary_normalize_rounds (z ez : Z) :
  - bpow 127 < inject_Z z * bpow ez -> inject_Z z * bpow ez < bpow 127 ->
  B32.is_finite (binary_normalize B32.prec B32.emax z ez false) = true
  /\ rounds (inject_Z z * bpow ez) (B32.to_Q (binary_normalize B32.prec B32.emax z ez false)).
Proof.
  intros Hl Hu. destruct z as [|m|m]; cbn [binary_normalize].
  - split; [reflexivity|]. left. split; [|reflexivity]. change (inject_Z 0) with 0. ring.
  - destruct (@binary_round_exact false m ez) as (Hf & v & Hm & Hv).
    + apply digits_of_bound. exact Hu.
    + split; [exact Hf|]. right. left. split.
      * apply Qmult_lt_0_compat; [reflexivity|apply bpow_pos].
      * apply rounds_mag_ext with (a := inject_Z (Zpos m) * bpow ez) (v := v);
          [reflexivity|symmetry; exact Hv|exact Hm].
  - assert (E : inject_Z (Zneg m) == - inject_Z (Zpos m)).
    { change (Zneg m) with (- Zpos m)%Z. rewrite inject_Z_opp. reflexivity. }
    destruct (@binary_round_exact true m ez) as (Hf & v & Hm & Hv).
    + apply digits_of_bound. rewrite E in Hl. lra.
    + split; [exact Hf|]. right. right. split.
      * assert (0 < inject_Z (Zpos m) * bpow ez)
          by (apply Qmult_lt_0_compat; [reflexivity|apply bpow_pos]).
        rewrite E. lra.
      * apply rounds_mag_ext with (a := inject_Z (Zpos m) * bpow ez) (v := v);
          [rewrite E; ring|rewrite Hv; ring|exact Hm].
Qed.

Lemma of_int_rounds (z : Z) : (- 2 ^ 127 < z < 2 ^ 127)%Z ->
  B32.is_finite (B32.of_int z) = true /\ rounds (inject_Z z) (B32.to_Q (B32.of_int z)).
Proof.
  intros H. unfold B32.of_int.
  assert (E : inject_Z z * bpow 0 == inject_Z z) by (change (bpow 0) with 1; ring).
  destruct (@binary_normalize_rounds z 0) as [Hf Hr].
  - rewrite E. rewrite bpow_Z by lia. rewrite <- inject_Z_opp, <- Zlt_Qlt. lia.
  - rewrite E. rewrite bpow_Z by lia. rewrite <- Zlt_Qlt. lia.
  - split; [exact Hf|]. apply rounds_ext with (x := inject_Z z * bpow 0) (v := B32.to_Q (binary_normalize B32.prec B32.emax z 0 false)); [exact E|reflexivity|exact Hr].
Qed.

Lemma of_int_exact (z : Z) : (- 2 ^ 24 < z < 2 ^ 24)%Z ->
  B32.is_finite (B32.of_int z) = true /\ B32.to_Q (B32.of_int z) == inject_Z z.
Proof.
  intros H. destruct (@of_int_rounds z) as [Hf Hr]; [lia|]. split; [exact Hf|].
  apply Qle_antisym.
  - apply (rounds_int_le Hr); [apply Qle_refl|lia].
  - apply (rounds_int_ge Hr); [apply Qle_refl|lia].
Qed.

(** Multiplication, addition and subtraction of finite numbers *)
Lemma finite_mag_pos (m : positive) (e : Z) : 0 < inject_Z (Zpos m) * bpow e.
Proof. apply Qmult_lt_0_compat; [reflexivity|apply bpow_pos]. Qed.

Lemma SFmul_rounds (x y : B32.float32) :
  B32.is_finite x = true -> B32.is_finite y = true -> b32_normal x \/ b32_normal y ->
  - bpow 127 < B32.to_Q x * B32.to_Q y -> B32.to_Q x * B32.to_Q y < bpow 127 ->
  B32.is_finite (SFmul B32.prec B32.emax x y) = true
  /\ rounds (B32.to_Q x * B32.to_Q y) (B32.to_Q (SFmul B32.prec B32.emax x y)).
Proof.
  intros Fx Fy Ny Hl Hu.
  destruct x as [sx|sx| |sx mx ex]; try discriminate;
  destruct y as [sy|sy| |sy my ey]; try discriminate; cbn [SFmul].
  - split; [reflexivity|]. left. rewrite ?to_Q_finite. cbn [B32.to_Q]. split; [ring|reflexivity].
  - split; [reflexivity|]. left. rewrite ?to_Q_finite. cbn [B32.to_Q]. split; [ring|reflexivity].
  - split; [reflexivity|]. left. rewrite ?to_Q_finite. cbn [B32.to_Q]. split; [ring|reflexivity].
  - cbn [b32_normal] in Ny.
    set (A := inject_Z (Zpos (mx * my)) * bpow (ex + ey)).
    assert (P : B32.to_Q (S754_finite sx mx ex) * B32.to_Q (S754_finite sy my ey)
                == if xorb sx sy then - A else A).
    { unfold A. rewrite !to_Q_finite.
      destruct sx, sy; cbn [xorb]; rewrite Pos2Z.inj_mul, inject_Z_mult, bpow_add; ring. }
    pose proof (finite_mag_pos (mx * my) (ex + ey)) as Pxy. fold A in Pxy.
    assert (Hd : (24 <= Zpos (digits2_pos (mx * my)))%Z).
    { replace 24%Z with (23 + 1)%Z by lia. apply digits2_pos_ge; [|lia].
      destruct (digits2_pos_bounds mx) as [Hmx _]. destruct (digits2_pos_bounds my) as [Hmy _].
      rewrite Pos2Z.inj_mul. destruct Ny as [Ny|Ny].
      - assert (2 ^ 23 <= 2 ^ (Zpos (digits2_pos mx) - 1))%Z by (apply Z.pow_le_mono_r; lia). nia.
      - assert (2 ^ 23 <= 2 ^ (Zpos (digits2_pos my) - 1))%Z by (apply Z.pow_le_mono_r; lia). nia. }
    destruct (@binary_round_aux_exact (xorb sx sy) (mx * my) (ex + ey)) as (Hf & v & Hm & Hv).
    + rewrite fexp_b32. lia.
    + apply digits_of_bound. fold A. destruct (xorb sx sy); lra.
    + split; [exact Hf|]. fold A in Hm.
      destruct (xorb sx sy).
      * right. right. split; [lra|].
        apply rounds_mag_ext with (a := A) (v := v); [lra|lra|exact Hm].
      * right. left. split; [lra|].
        apply rounds_mag_ext with (a := A) (v := v); [lra|lra|exact Hm].
Qed.

Lemma shl_align_fst (mx : positive) (ex ez : Z) : (ez <= ex)%Z ->
  inject_Z (Zpos (fst (shl_align mx ex ez))) * bpow ez == inject_Z (Zpos mx) * bpow ex.
Proof.
  intros H. unfold shl_align. destruct (ez - ex)%Z as [|d|d] eqn:Ed; cbn [fst].
  - replace ez with ex by lia. reflexivity.
  - lia.
  - rewrite Zpos_shiftl, inject_Z_mult, <- bpow_Z by lia.
    rewrite <- Qmult_assoc, <- bpow_add. replace (Zpos d + ez)%Z with ex by lia. reflexivity.
Qed.

Lemma cond_Zopp_Q (s : bool) (a : Z) :
  inject_Z (cond_Zopp s a) == if s then - inject_Z a else inject_Z a.
Proof. destruct s; cbn [cond_Zopp]; [rewrite inject_Z_opp|]; reflexivity. Qed.

Lemma aligned_value (s : bool) (m : positive) (e ez : Z) : (ez <= e)%Z ->
  inject_Z (cond_Zopp s (Zpos (fst (shl_align m e ez)))) * bpow ez
  == B32.to_Q (S754_finite s m e).
Proof.
  intros H. rewrite cond_Zopp_Q, to_Q_finite. pose proof (shl_align_fst m H) as E.
  destruct s; rewrite <- E; ring.
Qed.

Lemma SFadd_rounds (x y : B32.float32) :
  B32.is_finite x = true -> B32.is_finite y = true ->
  - bpow 127 < B32.to_Q x + B32.to_Q y -> B32.to_Q x + B32.to_Q y < bpow 127 ->
  b32_rounds (B32.to_Q x + B32.to_Q y) (SFadd B32.prec B32.emax x y).
Proof.
  intros Fx Fy Hl Hu. unfold b32_rounds.
  destruct x as [sx|sx| |sx mx ex]; try discriminate;
  destruct y as [sy|sy| |sy my ey]; try discriminate; cbn [SFadd].
  - destruct sx, sy; (split; [reflexivity|]); left; cbn [B32.to_Q]; ring.
  - split; [reflexivity|]. left. rewrite ?to_Q_finite. cbn [B32.to_Q]. ring.
  - split; [reflexivity|]. left. rewrite ?to_Q_finite. cbn [B32.to_Q]. ring.
  - cbv zeta. set (ez := Z.min ex ey).
    assert (E : inject_Z (cond_Zopp sx (Zpos (fst (shl_align mx ex ez)))
                          + cond_Zopp sy (Zpos (fst (shl_align my ey ez)))) * bpow ez
                == B32.to_Q (S754_finite sx mx ex) + B32.to_Q (S754_finite sy my ey)).
    { rewrite inject_Z_plus, Qmult_plus_distr_l, !aligned_value by (unfold ez; lia). reflexivity. }
    destruct (@binary_normalize_rounds
                (cond_Zopp sx (Zpos (fst (shl_align mx ex ez)))
                 + cond_Zopp sy (Zpos (fst (shl_align my ey ez)))) ez) as [Hf Hr].
    + rewrite E. exact Hl.
    + rewrite E. exact Hu.
    + split; [exact Hf|]. right. apply (rounds_ext E (Qeq_refl _) Hr).
Qed.

Lemma SFsub_rounds (x y : B32.float32) :
  B32.is_finite x = true -> B32.is_finite y = true ->
  - bpow 127 < B32.to_Q x - B32.to_Q y -> B32.to_Q x - B32.to_Q y < bpow 127 ->
  b32_rounds (B32.to_Q x - B32.to_Q y) (SFsub B32.prec B32.emax x y).
Proof.
  intros Fx Fy Hl Hu. unfold b32_rounds.
  destruct x as [sx|sx| |sx mx ex]; try discriminate;
  destruct y as [sy|sy| |sy my ey]; try discriminate; cbn [SFsub].
  - destruct sx, sy; (split; [reflexivity|]); left; cbn [B32.to_Q]; ring.
  - split; [reflexivity|]. left. rewrite !to_Q_finite. cbn [B32.to_Q]. destruct sy; cbn [negb]; ring.
  - split; [reflexivity|]. left. rewrite ?to_Q_finite. cbn [B32.to_Q]. ring.
  - cbv zeta. set (ez := Z.min ex ey).
    assert (E : inject_Z (cond_Zopp sx (Zpos (fst (shl_align mx ex ez)))
                          - cond_Zopp sy (Zpos (fst (shl_align my ey ez)))) * bpow ez
                == B32.to_Q (S754_finite sx mx ex) - B32.to_Q (S754_finite sy my ey)).
    { unfold Z.sub. rewrite inject_Z_plus, inject_Z_opp.
      assert (A1 := @aligned_value sx mx ex ez ltac:(unfold ez; lia)).
      assert (A2 := @aligned_value sy my ey ez ltac:(unfold ez; lia)).
      rewrite <- A1, <- A2. ring. }
    destruct (@binary_normalize_rounds
                (cond_Zopp sx (Zpos (fst (shl_align mx ex ez)))
                 - cond_Zopp sy (Zpos (fst (shl_align my ey ez)))) ez) as [Hf Hr].
    + rewrite E. exact Hl.
    + rewrite E. exact Hu.
    + split; [exact Hf|]. right. apply (rounds_ext E (Qeq_refl _) Hr).
Qed.

(** Bounds on a rounded result by integers *)
Lemma b32_rounds_int_le (x : Q) (r : B32.float32) (K : Z) :
  b32_rounds x r -> x <= inject_Z K -> (- 2 ^ 24 < K < 2 ^ 24)%Z -> B32.to_Q r <= inject_Z K.
Proof.
  intros [_ [E|H]] Hx HK; [lra|]. apply (rounds_int_le H Hx HK).
Qed.

Lemma b32_rounds_int_ge (x : Q) (r : B32.float32) (K : Z) :
  b32_rounds x r -> inject_Z K <= x -> (- 2 ^ 24 < K < 2 ^ 24)%Z -> inject_Z K <= B32.to_Q r.
Proof.
  intros [_ [E|H]] Hx HK; [lra|]. apply (rounds_int_ge H Hx HK).
Qed.

(** The integral part of a finite number *)
Lemma to_Z_spec (r : B32.float32) (z : Z) :
  B32.to_Z r = Some z ->
  B32.is_finite r = true
  /\ (0 <= B32.to_Q r -> inject_Z z <= B32.to_Q r /\ B32.to_Q r < inject_Z z + 1)
  /\ (B32.to_Q r <= 0 -> inject_Z z - 1 < B32.to_Q r /\ B32.to_Q r <= inject_Z z).
Proof.
  destruct r as [s|s| |s m e]; cbn [B32.to_Z]; intros H; try discriminate.
  - injection H as <-. split; [reflexivity|]. cbn [B32.to_Q]. change (inject_Z 0) with 0.
    split; intros _; lra.
  - split; [reflexivity|].
    set (a := match e with
              | Zneg k => Z.shiftr (Zpos m) (Zpos k)
              | _ => Z.shiftl (Zpos m) e
              end) in *.
    assert (Ha : inject_Z a <= inject_Z (Zpos m) * bpow e
                 /\ inject_Z (Zpos m) * bpow e < inject_Z a + 1).
    { destruct e as [|k|k]; unfold a.
      - cbn [Z.shiftl]. change (bpow 0) with 1. lra.
      - rewrite Z.shiftl_mul_pow2 by lia. rewrite inject_Z_mult, bpow_Z by lia. lra.
      - rewrite Z.shiftr_div_pow2 by lia.
        assert (Hp : (0 < 2 ^ Zpos k)%Z) by (apply Z.pow_pos_nonneg; lia).
        pose proof (Z.div_mod (Zpos m) (2 ^ Zpos k) ltac:(lia)) as Hdm.
        pose proof (Z.mod_pos_bound (Zpos m) (2 ^ Zpos k) Hp) as Hmod.
        set (q := (Zpos m / 2 ^ Zpos k)%Z) in *.
        change (Zneg k) with (- Zpos k)%Z.
        split.
        + apply Qmul_bpow_le_inv with (e := Zpos k).
          rewrite <- Qmult_assoc, (Qmult_comm (bpow (- Zpos k))), bpow_inv, Qmult_1_r.
          rewrite bpow_Z by lia. rewrite <- inject_Z_mult, <- Zle_Qle. lia.
        + assert (L : inject_Z (Zpos m) * bpow (- Zpos k) * bpow (Zpos k)
                      < (inject_Z q + 1) * bpow (Zpos k)).
          { rewrite <- Qmult_assoc, (Qmult_comm (bpow (- Zpos k))), bpow_inv, Qmult_1_r.
            rewrite bpow_Z by lia. change 1 with (inject_Z 1).
            rewrite <- inject_Z_plus, <- inject_Z_mult, <- Zlt_Qlt. lia. }
          pose proof (bpow_pos (Zpos k)) as Hb.
          destruct (Qlt_le_dec (inject_Z (Zpos m) * bpow (- Zpos k)) (inject_Z q + 1)) as [|C];
            [assumption|].
          apply (@Qmul_bpow_le _ _ (Zpos k)) in C. lra. }
    pose proof (finite_mag_pos m e) as Hp.
    injection H as <-. rewrite to_Q_finite. destruct s.
    + rewrite inject_Z_opp. split; intros; lra.
    + split; intros; lra.
Qed.

Lemma to_Z_defined (r : B32.float32) :
  B32.is_finite r = true -> exists z, B32.to_Z r = Some z.
Proof. destruct r; try discriminate; intros _; cbn [B32.to_Z]; eexists; reflexivity. Qed.

(** The comparison with zero *)
Lemma b32_lt_zero (r : B32.float32) : B32.is_finite r = true ->
  (SFltb r (S754_zero false) = true -> B32.to_Q r < 0)
  /\ (SFltb r (S754_zero false) = false -> 0 <= B32.to_Q r).
Proof.
  destruct r as [s|s| |s m e]; try discriminate; intros _.
  - cbn. split; [discriminate|]. intros _. apply Qle_refl.
  - unfold SFltb. cbn [SFcompare]. rewrite to_Q_finite. pose proof (finite_mag_pos m e).
    destruct s; split; intros; try discriminate; lra.
Qed.

Lemma b32_rounds_le (x : Q) (r : B32.float32) (N E : Z) :
  b32_rounds x r -> x <= inject_Z N * bpow E -> (- 2 ^ 24 < N < 2 ^ 24)%Z -> (-149 <= E)%Z ->
  B32.to_Q r <= inject_Z N * bpow E.
Proof.
  intros [_ [Ex|H]] Hx HN HE; [lra|]. apply (rounds_le H Hx HN HE).
Qed.

Lemma b32_rounds_ge (x : Q) (r : B32.float32) (N E : Z) :
  b32_rounds x r -> inject_Z N * bpow E <= x -> (- 2 ^ 24 < N < 2 ^ 24)%Z -> (-149 <= E)%Z ->
  inject_Z N * bpow E <= B32.to_Q r.
Proof.
  intros [_ [Ex|H]] Hx HN HE; [lra|]. apply (rounds_ge H Hx HN HE).
Qed.

Lemma b32_rounds_err (x : Q) (r : B32.float32) (B : Z) :
  b32_rounds x r -> - bpow B < x -> x < bpow B ->
  - bpow (fexp B32.prec B32.emax B - 1) <= B32.to_Q r - x
  /\ B32.to_Q r - x <= bpow (fexp B32.prec B32.emax B - 1).
Proof.
  intros [_ [Ex|H]] Hl Hu.
  - pose proof (bpow_pos (fexp B32.prec B32.emax B - 1)). lra.
  - apply (@rounds_err _ _ _ H Hl Hu).
Qed.

Lemma SFmul_b32_rounds (x y : B32.float32) :
  B32.is_finite x = true -> B32.is_finite y = true -> b32_normal x \/ b32_normal y ->
  - bpow 127 < B32.to_Q x * B32.to_Q y -> B32.to_Q x * B32.to_Q y < bpow 127 ->
  b32_rounds (B32.to_Q x * B32.to_Q y) (SFmul B32.prec B32.emax x y).
Proof.
  intros Fx Fy N Hl Hu. destruct (@SFmul_rounds x y Fx Fy N Hl Hu) as [Hf Hr].
  split; [exact Hf|right; exact Hr].
Qed.

(** The comparison of two valid binary32 numbers is the comparison of
    their values *)
Lemma canonical_bounds (m : positive) (e : Z) :
  canonical_mantissa B32.prec B32.emax m e = true ->
  (Zpos (digits2_pos m) <= 24 /\ -149 <= e /\ (e = -149 \/ Zpos (digits2_pos m) = 24))%Z.
Proof.
  unfold canonical_mantissa. rewrite fexp_b32. intros H. apply Z.eqb_eq in H. lia.
Qed.

Lemma mag_lt_exp (m1 m2 : positive) (e1 e2 : Z) :
  canonical_mantissa B32.prec B32.emax m1 e1 = true ->
  canonical_mantissa B32.prec B32.emax m2 e2 = true ->
  (e1 < e2)%Z ->
  inject_Z (Zpos m1) * bpow e1 < inject_Z (Zpos m2) * bpow e2.
Proof.
  intros C1 C2 H. apply canonical_bounds in C1, C2.
  destruct (Zpos_bpow_bounds m1 e1) as [_ U1]. destruct (Zpos_bpow_bounds m2 e2) as [L2 _].
  apply Qlt_le_trans with (bpow (Zpos (digits2_pos m1) + e1)); [exact U1|].
  apply Qle_trans with (bpow (Zpos (digits2_pos m2) + e2 - 1)); [|exact L2].
  apply bpow_le. lia.
Qed.

Lemma SFcompare_valid (x y : B32.float32) :
  valid_binary B32.prec B32.emax x = true -> valid_binary B32.prec B32.emax y = true ->
  B32.is_finite x = true -> B32.is_finite y = true ->
  match SFcompare x y with
  | Some Lt => B32.to_Q x < B32.to_Q y
  | Some Eq => B32.to_Q x == B32.to_Q y
  | Some Gt => B32.to_Q y < B32.to_Q x
  | None => False
  end.
Proof.
  intros Vx Vy Fx Fy.
  destruct x as [sx|sx| |sx mx ex]; try discriminate;
  destruct y as [sy|sy| |sy my ey]; try discriminate; cbn [SFcompare].
  - reflexivity.
  - pose proof (to_Q_finite sy my ey) as Ey. change (B32.to_Q (S754_zero sx)) with 0.
    pose proof (finite_mag_pos my ey). destruct sy; lra.
  - pose proof (to_Q_finite sx mx ex) as Ex. change (B32.to_Q (S754_zero sy)) with 0.
    pose proof (finite_mag_pos mx ex). destruct sx; lra.
  - cbn [valid_binary] in Vx, Vy. unfold bounded in Vx, Vy.
    apply andb_prop in Vx, Vy. destruct Vx as [Cx _]. destruct Vy as [Cy _].
    pose proof (to_Q_finite sx mx ex) as Ex. pose proof (to_Q_finite sy my ey) as Ey.
    pose proof (finite_mag_pos mx ex) as Px. pose proof (finite_mag_pos my ey) as Py.
    assert (M : match Z.compare ex ey with
                | Lt => inject_Z (Zpos mx) * bpow ex < inject_Z (Zpos my) * bpow ey
                | Gt => inject_Z (Zpos my) * bpow ey < inject_Z (Zpos mx) * bpow ex
                | Eq => match Pos.compare_cont Eq mx my with
                        | Lt => inject_Z (Zpos mx) * bpow ex < inject_Z (Zpos my) * bpow ey
                        | Gt => inject_Z (Zpos my) * bpow ey < inject_Z (Zpos mx) * bpow ex
                        | Eq => inject_Z (Zpos mx) * bpow ex == inject_Z (Zpos my) * bpow ey
                        end
                end).
    { destruct (Z.compare_spec ex ey) as [E|E|E].
      - subst ey. change (Pos.compare_cont Eq mx my) with (Pos.compare mx my).
        pose proof (bpow_pos ex) as Hb.
        destruct (Pos.compare_spec mx my) as [E|E|E].
        + subst my. reflexivity.
        + apply Qmult_lt_compat_r; [exact Hb|]. rewrite <- Zlt_Qlt. lia.
        + apply Qmult_lt_compat_r; [exact Hb|]. rewrite <- Zlt_Qlt. lia.
      - apply mag_lt_exp; assumption.
      - apply mag_lt_exp; assumption. }
    destruct sx, sy; try lra.
    + destruct (Z.compare ex ey); [destruct (Pos.compare_cont Eq mx my)| |]; cbn [CompOpp]; lra.
    + destruct (Z.compare ex ey); [destruct (Pos.compare_cont Eq mx my)| |]; lra.
Qed.

Lemma b32_le_value (x y : B32.float32) :
  valid_binary B32.prec B32.emax x = true -> valid_binary B32.prec B32.emax y = true ->
  B32.is_finite x = true -> B32.is_finite y = true ->
  ((x <=? y)%fl = true -> B32.to_Q x <= B32.to_Q y)
  /\ ((x <=? y)%fl = false -> B32.to_Q y < B32.to_Q x).
Proof.
  intros Vx Vy Fx Fy. pose proof (SFcompare_valid x y Vx Vy Fx Fy) as H.
  cbn [fle b32_ops]. unfold SFleb.
  destruct (SFcompare x y) as [[| |]|]; split; intros; try discriminate; try lra; contradiction.
Qed.

(** Division: the quotient and the location of the remainder stand for
    the exact quotient *)
Lemma new_location_rep (d q r : Z) (y : Q) :
  (0 < d)%Z -> (0 <= r < d)%Z -> y * inject_Z d == inject_Z q * inject_Z d + inject_Z r ->
  shr_rep (shr_record_of_loc q (new_location d r)) y.
Proof.
  intros Hd Hr Hy.
  assert (D : 0 < inject_Z d) by (change 0 with (inject_Z 0); rewrite <- Zlt_Qlt; exact Hd).
  set (Y := y - inject_Z q).
  assert (EY : Y * inject_Z d == inject_Z r) by (unfold Y; lra).
  assert (C : forall a b : Q, a * inject_Z d < b * inject_Z d -> a < b).
  { intros a b H. destruct (Qlt_le_dec a b) as [|G]; [assumption|].
    apply (Qmult_le_compat_r _ _ (inject_Z d)) in G; lra. }
  assert (R0 : (r = 0)%Z -> y == inject_Z q).
  { intros ->. change (inject_Z 0) with 0 in EY.
    assert (Y == 0); [|unfold Y in *; lra].
    destruct (Qmult_integral _ _ EY) as [H|H]; [exact H|lra]. }
  assert (Rlt : (2 * r < d)%Z -> y < inject_Z q + (1 # 2)).
  { intros H. apply C. 
    assert (inject_Z (2 * r) < inject_Z d) by (rewrite <- Zlt_Qlt; exact H).
    rewrite inject_Z_mult in H0. change (inject_Z 2) with 2 in H0. lra. }
  assert (Rgt : (d < 2 * r)%Z -> inject_Z q + (1 # 2) < y).
  { intros H. apply C. 
    assert (inject_Z d < inject_Z (2 * r)) by (rewrite <- Zlt_Qlt; exact H).
    rewrite inject_Z_mult in H0. change (inject_Z 2) with 2 in H0. lra. }
  assert (Req : (2 * r = d)%Z -> y == inject_Z q + (1 # 2)).
  { intros H. assert (E : inject_Z (2 * r) == inject_Z d) by (rewrite H; reflexivity).
    rewrite inject_Z_mult in E. change (inject_Z 2) with 2 in E.
    assert (E2 : (Y - (1 # 2)) * inject_Z d == 0) by lra.
    destruct (Qmult_integral _ _ E2) as [G|G]; [unfold Y in *; lra|lra]. }
  assert (Rpos : (0 < r)%Z -> inject_Z q < y).
  { intros H. apply C. 
    assert (0 < inject_Z r) by (change 0 with (inject_Z 0); rewrite <- Zlt_Qlt; exact H). lra. }
  assert (Rup : y < inject_Z q + 1).
  { apply C. assert (inject_Z r < inject_Z d) by (rewrite <- Zlt_Qlt; lia). lra. }
  unfold new_location, new_location_even, new_location_odd.
  destruct (Z.even d) eqn:Ev; destruct (Z.eqb_spec r 0) as [E0|E0].
  - unfold shr_rep. cbn. apply R0. exact E0.
  - destruct (Z.compare_spec (2 * r) d) as [E|E|E]; unfold shr_rep;
      cbn [shr_record_of_loc shr_m shr_r shr_s].
    + apply Req. exact E.
    + split; [apply Rpos; lia|apply Rlt; exact E].
    + split; [apply Rgt; exact E|exact Rup].
  - unfold shr_rep. cbn. apply R0. exact E0.
  - assert (Hodd : (2 * r <> d)%Z).
    { intros E. rewrite <- E, Z.even_mul in Ev. discriminate. }
    destruct (Z.compare_spec (2 * r + 1) d) as [E|E|E]; unfold shr_rep;
      cbn [shr_record_of_loc shr_m shr_r shr_s].
    + split; [apply Rpos; lia|apply Rlt; lia].
    + split; [apply Rpos; lia|apply Rlt; lia].
    + split; [apply Rgt; lia|exact Rup].
Qed.

Lemma Zdigits2_pos_ge (q k : Z) : (0 <= k)%Z -> (2 ^ k <= q)%Z -> (k + 1 <= Zdigits2 q)%Z.
Proof.
  intros Hk H. assert (0 < 2 ^ k)%Z by (apply Z.pow_pos_nonneg; lia).
  destruct q as [|p|p]; try lia. cbn [Zdigits2]. apply digits2_pos_ge; assumption.
Qed.

(** Division of finite numbers, the divisor positive: when nothing
    overflows the quotient is the zero or the finite number worth [k]
    units of its exponent [g], [k] being the integer nearest to the exact
    quotient brought to that exponent; [q] is the integer quotient of the
    significands that [SFdiv_core_binary] computes at the exponent [e'] *)
Lemma SFdiv_finite_rep (sx : bool) (mx my : positive) (ex ey : Z) :
  inject_Z (Zpos mx) * bpow ex < bpow 126 * (inject_Z (Zpos my) * bpow ey) ->
  exists (q e' k : Z) (y : Q),
    B32.is_finite (SFdiv B32.prec B32.emax (S754_finite sx mx ex) (S754_finite false my ey))
    = true
    /\ B32.to_Q (SFdiv B32.prec B32.emax (S754_finite sx mx ex) (S754_finite false my ey))
       == (if sx then - (inject_Z k * bpow (fexp B32.prec B32.emax (Zdigits2 q + e')))
           else inject_Z k * bpow (fexp B32.prec B32.emax (Zdigits2 q + e')))
    /\ is_rne (y * bpow (e' - fexp B32.prec B32.emax (Zdigits2 q + e'))) k
    /\ (0 <= q)%Z /\ inject_Z q <= y /\ y < inject_Z q + 1
    /\ y * bpow e' * (inject_Z (Zpos my) * bpow ey) == inject_Z (Zpos mx) * bpow ex
    /\ (-149 < e' -> 2 ^ 23 <= q)%Z.
Proof.
  intros Hu. pose proof (finite_mag_pos my ey) as Py. cbn [SFdiv].
  unfold SFdiv_core_binary.
  set (d1 := Zdigits2 (Zpos mx)). set (d2 := Zdigits2 (Zpos my)).
  set (e' := Z.min (fexp B32.prec B32.emax (d1 + ex - (d2 + ey))) (ex - ey)).
  set (s := (ex - ey - e')%Z).
  assert (Hs : (0 <= s)%Z) by (unfold s, e'; lia).
  set (m' := match s with
             | Zpos _ => Z.shiftl (Zpos mx) s
             | Z0 => Zpos mx
             | Zneg _ => 0%Z
             end).
  assert (Em : m' = (Zpos mx * 2 ^ s)%Z).
  { unfold m'. destruct s as [|p|p]; [cbn; lia|apply Z.shiftl_mul_pow2; lia|lia]. }
  assert (Hp : (0 < 2 ^ s)%Z) by (apply Z.pow_pos_nonneg; lia).
  pose proof (Z_div_mod m' (Zpos my) ltac:(lia)) as DM.
  destruct (Z.div_eucl m' (Zpos my)) as [q r]. destruct DM as [DM Hr].
  assert (Hq : (0 <= q)%Z) by nia.
  set (y := inject_Z m' / inject_Z (Zpos my)).
  assert (Dy : 0 < inject_Z (Zpos my)) by reflexivity.
  assert (Ey : y * inject_Z (Zpos my) == inject_Z q * inject_Z (Zpos my) + inject_Z r).
  { unfold y. rewrite <- inject_Z_mult, <- inject_Z_plus.
    replace (q * Zpos my + r)%Z with m' by lia. field. lra. }
  assert (Hrep : shr_rep (shr_record_of_loc q (new_location (Zpos my) r)) y).
  { apply new_location_rep; [lia|lia|exact Ey]. }
  pose proof (finite_mag_pos mx ex) as Px.
  assert (Eq : y * bpow e' * (inject_Z (Zpos my) * bpow ey) == inject_Z (Zpos mx) * bpow ex).
  { assert (Eb : bpow ex == bpow s * bpow e' * bpow ey).
    { rewrite <- !bpow_add. replace (s + e' + ey)%Z with ex by (unfold s; lia). reflexivity. }
    unfold y. rewrite Em, inject_Z_mult, <- bpow_Z by lia. rewrite Eb. field. lra. }
  destruct (digits2_pos_bounds mx) as [Lx Ux]. destruct (digits2_pos_bounds my) as [Ly Uy].
  fold (Zdigits2 (Zpos mx)) in Lx, Ux. fold (Zdigits2 (Zpos my)) in Ly, Uy.
  fold d1 in Lx, Ux. fold d2 in Ly, Uy.
  assert (Hd1 : (1 <= d1)%Z) by (unfold d1; cbn; lia).
  assert (Hd2 : (1 <= d2)%Z) by (unfold d2; cbn; lia).
  assert (Hbig : (-149 < e' -> 2 ^ 23 <= q)%Z).
  { intros He. assert (Hs' : (24 - d1 + d2 <= s)%Z).
    { unfold s. unfold e' in *. rewrite fexp_b32 in *. lia. }
    apply Z.le_trans with (2 ^ (d1 - 1 + s - d2))%Z; [apply Z.pow_le_mono_r; lia|].
    assert (0 < 2 ^ (d1 - 1 + s - d2))%Z by (apply Z.pow_pos_nonneg; lia).
    assert (E2 : (2 ^ (d1 - 1 + s) = 2 ^ (d1 - 1 + s - d2) * 2 ^ d2)%Z).
    { rewrite <- Z.pow_add_r by lia. f_equal. lia. }
    assert (E3 : (2 ^ (d1 - 1 + s) = 2 ^ (d1 - 1) * 2 ^ s)%Z).
    { rewrite <- Z.pow_add_r by lia. reflexivity. }
    assert (2 ^ (d1 - 1 + s - d2) * Zpos my < (q + 1) * Zpos my)%Z by nia.
    nia. }
  assert (Hal : (e' <= fexp B32.prec B32.emax (Zdigits2 q + e'))%Z).
  { rewrite fexp_b32. destruct (Z_le_gt_dec e' (-149)) as [He|He]; [lia|].
    assert (24 <= Zdigits2 q)%Z by (apply (@Zdigits2_pos_ge q 23); [lia|apply Hbig; lia]).
    lia. }
  destruct (@shr_rep_lower _ _ Hrep) as [Hyq Hyq1]. rewrite shr_record_of_loc_m in Hyq, Hyq1.
  assert (Hyb : y * bpow e' < bpow 126).
  { assert (y * bpow e' * (inject_Z (Zpos my) * bpow ey)
            < bpow 126 * (inject_Z (Zpos my) * bpow ey)) by (rewrite Eq; exact Hu).
    destruct (Qlt_le_dec (y * bpow e') (bpow 126)) as [|G]; [assumption|].
    apply (Qmult_le_compat_r _ _ (inject_Z (Zpos my) * bpow ey)) in G; lra. }
  assert (Hov : (fexp B32.prec B32.emax (Zdigits2 q + e') < 104)%Z).
  { rewrite fexp_b32. destruct q as [|p|p]; [|cbn [Zdigits2]|lia].
    - cbn [Zdigits2]. destruct (Z_le_gt_dec e' (-149)) as [He|He]; [lia|].
      specialize (Hbig ltac:(lia)). lia.
    - assert (Zpos (digits2_pos p) + e' <= 126)%Z; [|lia].
      apply digits_of_bound. apply Qle_lt_trans with (y * bpow e'); [|exact Hyb].
      apply Qmul_bpow_le. exact Hyq. }
  destruct (@binary_round_aux_rep (xorb sx false) q e' (new_location (Zpos my) r) y
              Hq Hrep Hal Hov) as (k & Hk & Hres).
  exists q, e', k, y. rewrite xorb_false_r in *.
  split; [|split; [|split; [exact Hk|split; [exact Hq|split; [exact Hyq|split;
    [exact Hyq1|split; [exact Eq|exact Hbig]]]]]]].
  - destruct Hres as [[K0 Hr0]|(m & e & Hr1 & Hm)]; [rewrite Hr0|rewrite Hr1]; reflexivity.
  - destruct Hres as [[K0 Hr0]|(m & e & Hr1 & Hm)].
    + rewrite Hr0, K0. cbn [B32.to_Q]. change (inject_Z 0) with 0. destruct sx; ring.
    + rewrite Hr1, to_Q_finite. destruct sx; rewrite Hm; reflexivity.
Qed.

(** The quotient by a positive number has the sign of the dividend and is
    at most twice the exact quotient *)
Lemma SFdiv_bound (x : B32.float32) (my : positive) (ey : Z) :
  B32.is_finite x = true ->
  - bpow 126 * (inject_Z (Zpos my) * bpow ey) < B32.to_Q x ->
  B32.to_Q x < bpow 126 * (inject_Z (Zpos my) * bpow ey) ->
  B32.is_finite (SFdiv B32.prec B32.emax x (S754_finite false my ey)) = true
  /\ (0 <= B32.to_Q x ->
      0 <= B32.to_Q (SFdiv B32.prec B32.emax x (S754_finite false my ey))
      /\ B32.to_Q (SFdiv B32.prec B32.emax x (S754_finite false my ey))
         * (inject_Z (Zpos my) * bpow ey) <= 2 * B32.to_Q x)
  /\ (B32.to_Q x <= 0 ->
      B32.to_Q (SFdiv B32.prec B32.emax x (S754_finite false my ey)) <= 0
      /\ 2 * B32.to_Q x
         <= B32.to_Q (SFdiv B32.prec B32.emax x (S754_finite false my ey))
            * (inject_Z (Zpos my) * bpow ey)).
Proof.
  intros Fx Hl Hu. pose proof (finite_mag_pos my ey) as Py.
  destruct x as [sx|sx| |sx mx ex]; try discriminate.
  - cbn [SFdiv]. split; [reflexivity|]. cbn [B32.to_Q]. split; intros _; split; lra.
  - pose proof (finite_mag_pos mx ex) as Px. pose proof (to_Q_finite sx mx ex) as Ex.
    destruct (@SFdiv_finite_rep sx mx my ex ey) as (q & e' & k & y & Fin & Val & Hk & Hq & Hyq & _ & Eq & _).
    { destruct sx; lra. }
    set (g := fexp B32.prec B32.emax (Zdigits2 q + e')) in *.
    pose proof (bpow_pos g) as Pg.
    assert (Hy0 : 0 <= y * bpow (e' - g)).
    { apply Qmult_le_0_compat; [|apply Qlt_le_weak, bpow_pos].
      apply Qle_trans with (inject_Z q); [|exact Hyq].
      change 0 with (inject_Z 0). rewrite <- Zle_Qle. exact Hq. }
    assert (Hk0 : 0 <= inject_Z k).
    { change 0 with (inject_Z 0). rewrite <- Zle_Qle. apply (@is_rne_ge _ _ _ Hk).
      change (inject_Z 0) with 0. exact Hy0. }
    pose proof (is_rne_double Hk Hy0) as Hk2.
    assert (Hv : inject_Z k * bpow g * (inject_Z (Zpos my) * bpow ey)
                 <= 2 * (inject_Z (Zpos mx) * bpow ex)).
    { rewrite <- Eq.
      assert (E4 : y * bpow e' == y * bpow (e' - g) * bpow g).
      { rewrite <- Qmult_assoc, <- bpow_add. replace (e' - g + g)%Z with e' by lia. reflexivity. }
      rewrite E4.
      assert (inject_Z k * bpow g <= 2 * (y * bpow (e' - g)) * bpow g)
        by (apply Qmul_bpow_le; exact Hk2).
      apply Qle_trans with (2 * (y * bpow (e' - g)) * bpow g * (inject_Z (Zpos my) * bpow ey)).
      - apply Qmult_le_compat_r; [assumption|lra].
      - ring_simplify. apply Qle_refl. }
    assert (Hv0 : 0 <= inject_Z k * bpow g) by (apply Qmult_le_0_compat; lra).
    split; [exact Fin|]. rewrite Val.
    destruct sx; split; intros Hsx; split; lra.
Qed.

(** The quotient of two positive numbers is the rounding of the exact
    quotient, when it is neither too small nor too large for binary32 *)
Lemma SFdiv_pos_rounds (mx my : positive) (ex ey : Z) :
  bpow (-149) * (inject_Z (Zpos my) * bpow ey) <= inject_Z (Zpos mx) * bpow ex ->
  inject_Z (Zpos mx) * bpow ex < bpow 126 * (inject_Z (Zpos my) * bpow ey) ->
  B32.is_finite (SFdiv B32.prec B32.emax (S754_finite false mx ex) (S754_finite false my ey))
  = true
  /\ rounds_mag ((inject_Z (Zpos mx) * bpow ex) / (inject_Z (Zpos my) * bpow ey))
       (B32.to_Q (SFdiv B32.prec B32.emax (S754_finite false mx ex)
                    (S754_finite false my ey))).
Proof.
  intros Hl Hu. pose proof (finite_mag_pos my ey) as Py.
  destruct (@SFdiv_finite_rep false mx my ex ey Hu)
    as (q & e' & k & y & Fin & Val & Hk & Hq & Hyq & Hyq1 & Eq & Hbig).
  split; [exact Fin|].
  set (X := inject_Z (Zpos mx) * bpow ex) in *. set (Y := inject_Z (Zpos my) * bpow ey) in *.
  assert (Ea : X / Y == y * bpow e') by (rewrite <- Eq; field; lra).
  pose proof (bpow_pos e') as Pe.
  assert (Ha : bpow (-149) <= y * bpow e').
  { destruct (Qlt_le_dec (y * bpow e') (bpow (-149))) as [G|G]; [|exact G].
    apply (Qmult_lt_compat_r _ _ Y) in G; [|exact Py]. lra. }
  assert (Hqp : (0 < q)%Z).
  { destruct (Z.eq_dec q 0) as [Z0|Z0]; [|lia]. exfalso. subst q.
    change (inject_Z 0) with 0 in Hyq1.
    assert (He : (e' <= -149)%Z).
    { destruct (Z_le_gt_dec e' (-149)) as [|G]; [assumption|]. specialize (Hbig ltac:(lia)). lia. }
    assert (bpow e' <= bpow (-149)) by (apply bpow_le; exact He).
    assert (y * bpow e' < 1 * bpow e') by (apply Qmult_lt_compat_r; [exact Pe|lra]).
    lra. }
  destruct q as [|p|p]; try lia. cbn [Zdigits2] in *.
  set (g := fexp B32.prec B32.emax (Zpos (digits2_pos p) + e')) in *.
  exists (Zpos (digits2_pos p) + e')%Z, k. fold g.
  destruct (Zpos_bpow_bounds p e') as [Lp Up]. destruct (digits2_pos_bounds p) as [_ Ud].
  split; [|split; [|split]].
  - rewrite Ea. apply Qle_trans with (inject_Z (Zpos p) * bpow e'); [exact Lp|].
    apply Qmul_bpow_le. exact Hyq.
  - rewrite Ea. apply Qlt_le_trans with ((inject_Z (Zpos p) + 1) * bpow e').
    + apply Qmult_lt_compat_r; [exact Pe|exact Hyq1].
    + rewrite bpow_add. apply Qmul_bpow_le. rewrite bpow_Z by lia.
      change 1 with (inject_Z 1). rewrite <- inject_Z_plus, <- Zle_Qle. lia.
  - apply is_rne_ext with (y := y * bpow (e' - g)); [|exact Hk].
    rewrite Ea. unfold Z.sub. rewrite bpow_add. ring.
  - exact Val.
Qed.

Lemma bpow_127_big : 8589934592 < bpow 127.
Proof.
  rewrite bpow_Z by lia. change 8589934592 with (inject_Z 8589934592).
  rewrite <- Zlt_Qlt. lia.
Qed.

Lemma bpow_126_big : 1048576 < bpow 126.
Proof. rewrite bpow_Z by lia. change 1048576 with (inject_Z 1048576). rewrite <- Zlt_Qlt. lia. Qed.

Lemma glide_rate_b32 : @of_Z B32.float32 _ DELAY_GLIDE_RATE = S754_finite false 12288000 (-10).
Proof. vm_compute. reflexivity. Qed.

(** *** Index arithmetic and exact arithmetic *)


Lemma mask_is_mod (z : Z) :
  Z.land z DELAY_LINE_SIZE_MASK = (z mod DELAY_LINE_SIZE)%Z.
Proof. exact (Z.land_ones z 18 ltac:(lia)). Qed.

Lemma mask_range (z : Z) :
  (0 <= Z.land z DELAY_LINE_SIZE_MASK < DELAY_LINE_SIZE)%Z.
Proof. rewrite mask_is_mod. apply Z.mod_pos_bound. reflexivity. Qed.

Lemma mask_succ_wrap (z : Z) :
  Z.land ((z + 1) mod UINT32_MOD) DELAY_LINE_SIZE_MASK
  = ((z + 1) mod DELAY_LINE_SIZE)%Z.
Proof.
  rewrite mask_is_mod.
  change UINT32_MOD with (DELAY_LINE_SIZE * 16384)%Z.
  rewrite Z.rem_mul_r by (unfold DELAY_LINE_SIZE; lia).
  rewrite Z.mul_comm, Z.mod_add by (unfold DELAY_LINE_SIZE; lia).
  apply Z.mod_mod. unfold DELAY_LINE_SIZE; lia.
Qed.

Lemma Q_trunc_floor (q : Q) : 0 <= q -> Q_trunc q = Qfloor q.
Proof.
  destruct q as [n d]. unfold Qle, Q_trunc, Qfloor. simpl. intros H.
  apply Z.quot_div_nonneg; lia.
Qed.

Lemma Qflt_true (x y : Q) : flt x y = true <-> x < y.
Proof.
  qsimpl. rewrite negb_true_iff. split; intros H.
  - apply Qnot_le_lt. intros C. apply Qle_bool_iff in C. congruence.
  - destruct (Qle_bool y x) eqn:E; [|reflexivity].
    apply Qle_bool_iff in E. apply Qlt_not_le in H. contradiction.
Qed.

Lemma Qflt_false (x y : Q) : flt x y = false <-> y <= x.
Proof.
  qsimpl. rewrite negb_false_iff. apply Qle_bool_iff.
Qed.

Lemma Qfle_true (x y : Q) : fle x y = true <-> x <= y.
Proof. qsimpl. apply Qle_bool_iff. Qed.

Lemma Qfle_false (x y : Q) : fle x y = false <-> y < x.
Proof.
  qsimpl. split; intros H.
  - apply Qnot_le_lt. intros C. apply Qle_bool_iff in C. congruence.
  - destruct (Qle_bool x y) eqn:E; [|reflexivity].
    apply Qle_bool_iff in E. apply Qlt_not_le in H. contradiction.
Qed.

Lemma to_uint32_Q (p : Q) :
  0 <= p -> p < inject_Z UINT32_MOD -> to_uint32 p = Some (Qfloor p).
Proof.
  intros H0 H1. unfold to_uint32. qsimpl. rewrite (Q_trunc_floor H0).
  assert (0 <= Qfloor p)%Z.
  { change 0%Z with (Qfloor 0). now apply Qfloor_resp_le. }
  assert (Qfloor p < UINT32_MOD)%Z.
  { rewrite Zlt_Qlt. eapply Qle_lt_trans; [apply Qfloor_le|exact H1]. }
  destruct (Z.leb_spec 0 (Qfloor p)); [|lia].
  destruct (Z.ltb_spec (Qfloor p) UINT32_MOD); [|lia].
  reflexivity.
Qed.


Lemma readFrac_Q (p : Q) (buf : Z -> Q) :
  0 <= p -> p < inject_Z UINT32_MOD ->
  readFrac p buf
  = Some (buf (Qfloor p mod DELAY_LINE_SIZE)%Z
          + (p - inject_Z (Qfloor p))
            * (buf ((Qfloor p + 1) mod DELAY_LINE_SIZE)%Z
               - buf (Qfloor p mod DELAY_LINE_SIZE)%Z)).
Proof.
  intros H0 H1. unfold readFrac. rewrite (to_uint32_Q H0 H1).
  rewrite mask_succ_wrap, mask_is_mod. reflexivity.
Qed.

(** *** readFrac *)




(** *** The glide of the delay time *)
Lemma glide_Q (t c : Q) : t - glide t c == (11999 # 12000) * (t - c).
Proof. unfold glide. qsimpl. unfold DELAY_GLIDE_RATE. field. Qed.






(** *** Silence in, silence out *)

(** clearing loop *)
Lemma clear_lines_spec {F} {ops : FloatOps F} (n : nat) (l r : Z -> F) (i : Z) :
  (0 <= i < Z.of_nat n)%Z ->
  fst (clear_lines n (l, r)) i = of_Z 0 /\ snd (clear_lines n (l, r)) i = of_Z 0.
Proof.
  induction n as [|n IH]; intros Hi; [lia|].
  cbn [clear_lines]. destruct (clear_lines n (l, r)) as [l' r'] eqn:E.
  cbn [fst snd] in *. unfold upd.
  destruct (Z.eqb_spec i (Z.of_nat n)) as [->|Hne]; [split; reflexivity|].
  apply IH. lia.
Qed.

Lemma glide_between (t c m : Q) :
  0 <= c <= m -> 0 <= t <= m -> 0 <= glide t c <= m.
Proof.
  intros Hc Ht. pose proof (glide_Q t c) as E. lra.
Qed.

(** The read position is a valid [uint32_t] when the delay time fits. *)
Lemma readIndex_valid (wr : Z) (c : Q) :
  (0 <= wr < DELAY_LINE_SIZE)%Z -> 0 <= c <= inject_Z DELAY_LINE_SIZE_MASK ->
  let r := (of_Z wr - c)%fl in
  let r := if (r <? of_Z 0)%fl then (r + of_Z DELAY_LINE_SIZE_MASK)%fl else r in
  0 <= r /\ r < inject_Z UINT32_MOD.
Proof.
  intros Hw Hc.
  assert (0 <= inject_Z wr /\ inject_Z wr < inject_Z DELAY_LINE_SIZE) as [H1 H2].
  { split; [change 0 with (inject_Z 0); rewrite <- Zle_Qle|rewrite <- Zlt_Qlt]; lia. }
  cbv zeta.
  destruct (flt (of_Z wr - c)%fl (of_Z 0)) eqn:E.
  - apply Qflt_true in E. qsimpl.
    change (inject_Z 0) with 0 in *.
    change (inject_Z DELAY_LINE_SIZE_MASK) with 262143 in *.
    change (inject_Z UINT32_MOD) with 4294967296.
    change (inject_Z DELAY_LINE_SIZE) with 262144 in *. lra.
  - apply Qflt_false in E. qsimpl.
    change (inject_Z 0) with 0 in *.
    change (inject_Z DELAY_LINE_SIZE_MASK) with 262143 in *.
    change (inject_Z UINT32_MOD) with 4294967296.
    change (inject_Z DELAY_LINE_SIZE) with 262144 in *. lra.
Qed.

Lemma target_fits (bpmF m : Q) :
  tempo_fits bpmF -> m == 1 ->
  0 <= target_of_bpm bpmF m <= inject_Z DELAY_LINE_SIZE_MASK.
Proof.
  intros Hb Hm. unfold target_of_bpm, failsafe_bpm.
  change (inject_Z DELAY_LINE_SIZE_MASK) with 262143.
  destruct (fle bpmF (of_Z 0)) eqn:E; qsimpl;
    unfold SAMPLE_RATE, NUM_NOTES_PER_BEAT, MIN_BPM;
    rewrite Hm.
  - split; [unfold Qle; cbn; lia|unfold Qle; cbn; lia].
  - apply Qfle_false in E. qsimpl. change (inject_Z 0) with 0 in E.
    destruct Hb as [Hb|Hb]; [lra|].
    assert (inject_Z 48000 * (inject_Z 60 / bpmF) * inject_Z 4 * 1 == 11520000 / bpmF) as ->.
    { change (inject_Z 48000) with 48000. change (inject_Z 60) with 60.
      change (inject_Z 4) with 4. field. lra. }
    split.
    + apply Qle_shift_div_l; lra.
    + apply Qle_shift_div_r; lra.
Qed.

Lemma silence_length {F} {ops : FloatOps F} (n : nat) : length (@silence F _ n) = n.
Proof. apply repeat_length. Qed.

(** The same for the binary32 program, through the rounding of each
    operation *)

Lemma b32_rounds_double (x : Q) (r : B32.float32) :
  b32_rounds x r ->
  (0 <= x -> 0 <= B32.to_Q r /\ B32.to_Q r <= 2 * x)
  /\ (x <= 0 -> 2 * x <= B32.to_Q r /\ B32.to_Q r <= 0).
Proof.
  intros [_ [E|[[Hx Hv]|[[Hx H]|[Hx H]]]]].
  - split; intros; split; lra.
  - split; intros; split; lra.
  - pose proof (rounds_mag_nonneg H). pose proof (rounds_mag_double H). split; intros; split; lra.
  - pose proof (rounds_mag_nonneg H). pose proof (rounds_mag_double H). split; intros; split; lra.
Qed.

(** One step of the glide in binary32 stays in the delay line *)
Lemma glide_fits_b32 (t c : B32.float32) :
  b32_between 0 262143 c -> b32_between 0 262143 t ->
  b32_between 0 262143 (glide t c).
Proof.
  intros (Fc & C0 & C1) (Ft & T0 & T1).
  unfold glide. rewrite glide_rate_b32. cbn [fsub fdiv fadd b32_ops].
  pose proof bpow_126_big as B126. pose proof bpow_127_big as B127.
  set (k := S754_finite false 12288000 (-10)).
  assert (Ek : inject_Z (Zpos 12288000) * bpow (-10) == 12000) by reflexivity.
  assert (R1 : b32_rounds (B32.to_Q t - B32.to_Q c) (SFsub B32.prec B32.emax t c)).
  { apply SFsub_rounds; [exact Ft|exact Fc|lra|lra]. }
  destruct (b32_rounds_double R1) as [P1 N1].
  set (d1 := SFsub B32.prec B32.emax t c) in *.
  assert (Hd1 : - 1048576 <= B32.to_Q d1 /\ B32.to_Q d1 <= 1048576).
  { destruct (Qlt_le_dec (B32.to_Q t - B32.to_Q c) 0) as [G|G].
    - destruct (N1 ltac:(lra)). lra.
    - destruct (P1 G). lra. }
  destruct (@SFdiv_bound d1 12288000 (-10)) as (Fd & P2 & N2).
  - apply R1.
  - rewrite Ek. lra.
  - rewrite Ek. lra.
  - fold k in Fd, P2, N2. set (dl := SFdiv B32.prec B32.emax d1 k) in *.
    rewrite Ek in P2, N2.
    assert (Hdl : (B32.to_Q c <= B32.to_Q t ->
                   0 <= B32.to_Q dl /\ B32.to_Q c + B32.to_Q dl <= B32.to_Q t)
                  /\ (B32.to_Q t <= B32.to_Q c ->
                      B32.to_Q dl <= 0 /\ B32.to_Q t <= B32.to_Q c + B32.to_Q dl)).
    { split; intros G.
      - destruct (P1 ltac:(lra)) as [A1 A2]. destruct (P2 A1) as [A3 A4]. split; lra.
      - destruct (N1 ltac:(lra)) as [A1 A2]. destruct (N2 A2) as [A3 A4]. split; lra. }
    assert (Hsum : 0 <= B32.to_Q c + B32.to_Q dl /\ B32.to_Q c + B32.to_Q dl <= 262143).
    { destruct Hdl as [Hup Hdn]. destruct (Qlt_le_dec (B32.to_Q t) (B32.to_Q c)) as [G|G].
      - destruct (Hdn ltac:(lra)). lra.
      - destruct (Hup G). lra. }
    assert (R3 : b32_rounds (B32.to_Q c + B32.to_Q dl) (SFadd B32.prec B32.emax c dl)).
    { apply SFadd_rounds; [exact Fc|exact Fd|lra|lra]. }
    split; [apply R3|]. split.
    + change 0 with (inject_Z 0). apply (b32_rounds_int_ge R3); [|lia].
      change (inject_Z 0) with 0. lra.
    + change 262143 with (inject_Z 262143). apply (b32_rounds_int_le R3); [|lia].
      change (inject_Z 262143) with 262143. lra.
Qed.

Lemma of_Z_exact_b32 (z : Z) : (- 2 ^ 24 < z < 2 ^ 24)%Z ->
  B32.is_finite (@of_Z B32.float32 _ z) = true /\ B32.to_Q (@of_Z B32.float32 _ z) == inject_Z z.
Proof. apply of_int_exact. Qed.

(** The read position in binary32, for a delay time that fits the line:
    its conversion to [uint32_t] is defined *)
Lemma readIndex_defined_b32 (wr : Z) (c : B32.float32) :
  (0 <= wr < DELAY_LINE_SIZE)%Z -> b32_between 0 262143 c ->
  let readIndex := (of_Z wr - c)%fl in
  exists base,
    to_uint32 (if (readIndex <? of_Z 0)%fl then (readIndex + of_Z DELAY_LINE_SIZE_MASK)%fl
               else readIndex) = Some base.
Proof.
  intros Hwr (Fc & C0 & C1) readIndex. unfold DELAY_LINE_SIZE in Hwr.
  pose proof bpow_127_big as B127.
  destruct (@of_Z_exact_b32 wr ltac:(lia)) as [Fw Ew].
  assert (W0 : 0 <= inject_Z wr) by (change 0 with (inject_Z 0); rewrite <- Zle_Qle; lia).
  assert (W1 : inject_Z wr <= 262143).
  { change 262143 with (inject_Z 262143). rewrite <- Zle_Qle. lia. }
  assert (R1 : b32_rounds (B32.to_Q (of_Z wr) - B32.to_Q c) readIndex).
  { apply SFsub_rounds; [exact Fw|exact Fc|rewrite Ew; lra|rewrite Ew; lra]. }
  assert (L1 : -262143 <= B32.to_Q readIndex).
  { change (-262143) with (inject_Z (-262143)). apply (b32_rounds_int_ge R1); [|lia].
    change (inject_Z (-262143)) with (-262143). rewrite Ew. lra. }
  assert (U1 : B32.to_Q readIndex <= 262143).
  { change 262143 with (inject_Z 262143). apply (b32_rounds_int_le R1); [|lia].
    change (inject_Z 262143) with 262143. rewrite Ew. lra. }
  assert (Fr : B32.is_finite readIndex = true) by apply R1.
  assert (G : forall p : B32.float32, B32.is_finite p = true ->
              0 <= B32.to_Q p -> B32.to_Q p <= 262143 -> exists base, to_uint32 p = Some base).
  { intros p Fp P0 P1. destruct (to_Z_defined p Fp) as [z Ez].
    destruct (to_Z_spec p Ez) as (_ & Hp & _). destruct (Hp P0) as [L U].
    assert (Hz : (0 <= z <= 262143)%Z).
    { split.
      - assert (inject_Z (-1) < inject_Z z) by (change (inject_Z (-1)) with (-1); lra).
        rewrite <- Zlt_Qlt in H. lia.
      - assert (inject_Z z <= inject_Z 262143) by (change (inject_Z 262143) with 262143; lra).
        rewrite <- Zle_Qle in H. exact H. }
    exists z. unfold to_uint32. cbn [trunc b32_ops]. rewrite Ez. unfold UINT32_MOD.
    destruct (Z.leb_spec 0 z); [|lia]. destruct (Z.ltb_spec z (2 ^ 32)); [|lia]. reflexivity. }
  change (@of_Z B32.float32 _ 0) with (S754_zero false).
  destruct (b32_lt_zero readIndex Fr) as [Hlt Hge].
  cbn [flt b32_ops]. destruct (SFltb readIndex (S754_zero false)) eqn:C.
  - specialize (Hlt eq_refl).
    destruct (@of_Z_exact_b32 DELAY_LINE_SIZE_MASK ltac:(unfold DELAY_LINE_SIZE_MASK; lia)) as [Fm Em].
    change (inject_Z DELAY_LINE_SIZE_MASK) with 262143 in Em.
    assert (R2 : b32_rounds (B32.to_Q readIndex + B32.to_Q (of_Z DELAY_LINE_SIZE_MASK))
                   (readIndex + of_Z DELAY_LINE_SIZE_MASK)%fl).
    { apply SFadd_rounds; [exact Fr|exact Fm|rewrite Em; lra|rewrite Em; lra]. }
    apply G.
    + apply R2.
    + change 0 with (inject_Z 0). apply (b32_rounds_int_ge R2); [|lia].
      change (inject_Z 0) with 0. rewrite Em. lra.
    + change 262143 with (inject_Z 262143). apply (b32_rounds_int_le R2); [|lia].
      change (inject_Z 262143) with 262143. rewrite Em. lra.
  - apply G; [exact Fr|apply Hge; reflexivity|exact U1].
Qed.

(** Reading a clear line in binary32 at a position whose conversion is
    defined returns +0 *)
Lemma readFrac_clear_b32 (pos : B32.float32) (buf : Z -> B32.float32) (base : Z) :
  to_uint32 pos = Some base ->
  (forall i, (0 <= i < DELAY_LINE_SIZE)%Z -> buf i = B32.zero) ->
  readFrac pos buf = Some B32.zero.
Proof.
  intros E Hb. unfold readFrac. rewrite E.
  rewrite !Hb by apply mask_range. f_equal.
  unfold to_uint32 in E. cbn [trunc b32_ops] in E.
  destruct (B32.to_Z pos) as [z|] eqn:Ez; [|discriminate].
  destruct ((0 <=? z)%Z && (z <? UINT32_MOD)%Z) eqn:Hz; [|discriminate].
  injection E as ->. apply andb_prop in Hz. destruct Hz as [Z0 Z1].
  apply Z.leb_le in Z0. apply Z.ltb_lt in Z1. unfold UINT32_MOD in Z1.
  destruct (to_Z_spec pos Ez) as (Fp & Hp & Hn).
  pose proof bpow_127_big as B127.
  destruct (@of_int_rounds base ltac:(lia)) as [Fb Rb].
  assert (B0 : 0 <= inject_Z base) by (change 0 with (inject_Z 0); rewrite <- Zle_Qle; lia).
  assert (B1 : inject_Z base <= inject_Z 1 * bpow 32).
  { rewrite bpow_Z by lia. rewrite <- inject_Z_mult, <- Zle_Qle. lia. }
  assert (E32 : inject_Z 1 * bpow 32 == 4294967296) by reflexivity.
  assert (Vb : 0 <= B32.to_Q (B32.of_int base) /\ B32.to_Q (B32.of_int base) <= 4294967296).
  { split.
    - change 0 with (inject_Z 0). apply (rounds_int_ge Rb); [|lia]. change (inject_Z 0) with 0. lra.
    - rewrite <- E32. apply (rounds_le Rb); [exact B1|lia|lia]. }
  assert (Vp : -1 <= B32.to_Q pos /\ B32.to_Q pos <= 4294967296).
  { assert (inject_Z base + 1 <= 4294967296).
    { change 1 with (inject_Z 1). rewrite <- inject_Z_plus.
      change 4294967296 with (inject_Z 4294967296). rewrite <- Zle_Qle. lia. }
    destruct (Qlt_le_dec (B32.to_Q pos) 0) as [G|G].
    - destruct (Hn ltac:(lra)). lra.
    - destruct (Hp G). lra. }
  assert (Rf : b32_rounds (B32.to_Q pos - B32.to_Q (B32.of_int base))
                 (SFsub B32.prec B32.emax pos (B32.of_int base))).
  { apply SFsub_rounds; [exact Fp|exact Fb|lra|lra]. }
  destruct Rf as [Ff _]. unfold linintf. cbn [fadd fsub fmul of_Z b32_ops].
  destruct (SFsub B32.prec B32.emax pos (B32.of_int base)) as [s|s| |s m e];
    try discriminate; destruct s; reflexivity.
Qed.

Lemma upd_clear_b32 (a : Z -> B32.float32) (j : Z) :
  (forall i, (0 <= i < DELAY_LINE_SIZE)%Z -> a i = B32.zero) ->
  forall i, (0 <= i < DELAY_LINE_SIZE)%Z -> upd a j B32.zero i = B32.zero.
Proof.
  intros H i Hi. unfold upd. destruct (Z.eqb i j); [reflexivity|apply H; exact Hi].
Qed.

(** A silent frame through the binary32 sample loop: if the frame is
    processed, the result is silent and the lines stay clear *)
Lemma process_frame_silent_b32 (st : state B32.float32) :
  silent_inv st ->
  forall y st', process_frame (of_Z 0, of_Z 0) st = Some (y, st') ->
    y = (of_Z 0, of_Z 0) /\ silent_inv st'
    /\ currentDelayTime st' = glide (targetDelayTime st) (currentDelayTime st)
    /\ targetDelayTime st' = targetDelayTime st.
Proof.
  intros [HL HR Hwr Hd Hw Hdr Hm] y st'. unfold process_frame.
  set (c' := glide (targetDelayTime st) (currentDelayTime st)).
  set (pos := if ((of_Z (delayLine_Wr st) - c') <? of_Z 0)%fl
              then (of_Z (delayLine_Wr st) - c' + of_Z DELAY_LINE_SIZE_MASK)%fl
              else (of_Z (delayLine_Wr st) - c')%fl).
  destruct (to_uint32 pos) as [base|] eqn:E.
  - rewrite (@readFrac_clear_b32 _ _ _ E HR). rewrite Hd, Hw, Hdr. cbn [fst snd].
    change (B32.zero * B32.zero)%fl with B32.zero.
    rewrite (@readFrac_clear_b32 _ _ _ E (@upd_clear_b32 _ _ HL)).
    intros H. injection H as <- <-. split; [reflexivity|]. split; [|split; reflexivity].
    constructor; cbn [delayLine_L delayLine_R delayLine_Wr valDepth wet dry multiplier];
      try assumption; try reflexivity.
    + apply upd_clear_b32. exact HL.
    + intros i Hi. unfold upd. rewrite Z.eqb_refl.
      destruct (Z.eqb i (delayLine_Wr st)); [reflexivity|apply HR; exact Hi].
    + apply mask_range.
  - unfold readFrac. rewrite E. discriminate.
Qed.

(** ... and the frame is processed when the delay times fit the line *)
Lemma process_frame_defined_b32 (st : state B32.float32) :
  silent_inv st -> delay_fits st ->
  exists y st', process_frame (of_Z 0, of_Z 0) st = Some (y, st') /\ delay_fits st'.
Proof.
  intros Hs [Hc Ht].
  pose proof (@glide_fits_b32 _ _ Hc Ht) as Hg.
  destruct (@readIndex_defined_b32 (delayLine_Wr st) _ (si_wr Hs) Hg) as [base E].
  destruct (process_frame (of_Z 0, of_Z 0) st) as [[y st']|] eqn:P.
  - exists y, st'. split; [reflexivity|].
    destruct (@process_frame_silent_b32 _ Hs _ _ P) as (_ & _ & Ec & Et).
    unfold delay_fits. rewrite Ec, Et. split; assumption.
  - exfalso. destruct Hs as [HL HR Hwr Hd Hw Hdr Hm].
    unfold process_frame in P.
    rewrite (@readFrac_clear_b32 _ _ _ E HR) in P. rewrite Hd in P. cbn [fst snd] in P.
    change (B32.zero * B32.zero)%fl with B32.zero in P.
    rewrite (@readFrac_clear_b32 _ _ _ E (@upd_clear_b32 _ _ HL)) in P.
    discriminate.
Qed.

Lemma process_frames_silent_b32 (n : nat) : forall st : state B32.float32,
  silent_inv st ->
  forall ys st', process_frames (silence n) st = Some (ys, st') ->
    ys = silence n /\ silent_inv st'.
Proof.
  induction n as [|n IH]; intros st Hs ys st'; cbn [silence repeat process_frames].
  - intros E. injection E as <- <-. split; [reflexivity|exact Hs].
  - destruct (process_frame (of_Z 0, of_Z 0) st) as [[y st1]|] eqn:P; [|discriminate].
    destruct (@process_frame_silent_b32 _ Hs _ _ P) as (Ey & Hs1 & _).
    fold (@silence B32.float32 _ n).
    destruct (process_frames (silence n) st1) as [[ys' st2]|] eqn:Q; [|discriminate].
    destruct (IH _ Hs1 _ _ Q) as [Eys Hs2].
    intros E. injection E as <- <-. subst. split; [reflexivity|exact Hs2].
Qed.

Lemma process_frames_defined_b32 (n : nat) : forall st : state B32.float32,
  silent_inv st -> delay_fits st ->
  exists ys st', process_frames (silence n) st = Some (ys, st') /\ delay_fits st'.
Proof.
  induction n as [|n IH]; intros st Hs Hf; cbn [silence repeat process_frames].
  - exists [], st. split; [reflexivity|exact Hf].
  - destruct (@process_frame_defined_b32 _ Hs Hf) as (y & st1 & P & Hf1).
    rewrite P. destruct (@process_frame_silent_b32 _ Hs _ _ P) as (_ & Hs1 & _).
    fold (@silence B32.float32 _ n).
    destruct (IH _ Hs1 Hf1) as (ys & st2 & Q & Hf2). rewrite Q.
    eexists. eexists. split; [reflexivity|exact Hf2].
Qed.

Lemma silent_inv_set_target (t : B32.float32) (st : state B32.float32) :
  silent_inv st -> silent_inv (set_target t st).
Proof. intros [HL HR Hwr Hd Hw Hdr Hm]. constructor; assumption. Qed.

Lemma process_calls_silent_b32 (calls : list (B32.float32 * nat)) :
  forall st : state B32.float32, silent_inv st ->
  forall outs st',
    process_calls (map (fun c => (fst c, silence (snd c))) calls) st = Some (outs, st') ->
    outs = map (fun c => silence (snd c)) calls.
Proof.
  induction calls as [|[bpmF n] calls IH]; intros st Hs outs st'; cbn [map process_calls fst snd].
  - intros E. injection E as <- <-. reflexivity.
  - unfold DELFX_PROCESS.
    destruct (process_frames (silence n) _) as [[ys st1]|] eqn:P; [|discriminate].
    destruct (@process_frames_silent_b32 n _ (@silent_inv_set_target _ _ Hs) _ _ P) as [Eys Hs1].
    destruct (process_calls _ st1) as [[yss st2]|] eqn:Q; [|discriminate].
    intros E. injection E as <- <-. rewrite Eys. f_equal. apply (IH _ Hs1 _ _ Q).
Qed.

Lemma process_calls_defined_b32 (calls : list (B32.float32 * nat)) :
  forall st : state B32.float32, silent_inv st ->
  b32_between 0 262143 (currentDelayTime st) ->
  Forall (fun c => b32_between 0 262143 (target_of_bpm (fst c) (of_Z 1))) calls ->
  exists outs st',
    process_calls (map (fun c => (fst c, silence (snd c))) calls) st = Some (outs, st').
Proof.
  induction calls as [|[bpmF n] calls IH]; intros st Hs Hc Hall; cbn [map process_calls fst snd].
  - eexists. eexists. reflexivity.
  - inversion Hall as [|c l Ht Hall' E0]; subst. cbn [fst] in Ht.
    unfold DELFX_PROCESS. rewrite (si_mult Hs).
    pose proof (@silent_inv_set_target (target_of_bpm bpmF (of_Z 1)) _ Hs) as Hs0.
    assert (Hf0 : delay_fits (set_target (target_of_bpm bpmF (of_Z 1)) st)).
    { split; cbn [set_target currentDelayTime targetDelayTime]; assumption. }
    destruct (@process_frames_defined_b32 n _ Hs0 Hf0) as (ys & st1 & P & Hf1).
    rewrite P. destruct (@process_frames_silent_b32 n _ Hs0 _ _ P) as [_ Hs1].
    destruct (IH _ Hs1 (proj1 Hf1) Hall') as (yss & st2 & Q). rewrite Q.
    eexists. eexists. reflexivity.
Qed.

Lemma DELFX_INIT_silent_b32 (st0 : state B32.float32) :
  silent_inv (DELFX_INIT st0) /\ b32_between 0 262143 (currentDelayTime (DELFX_INIT st0)).
Proof.
  split.
  - constructor; cbn [DELFX_INIT delayLine_L delayLine_R delayLine_Wr valDepth wet dry multiplier];
      try reflexivity.
    + intros i Hi.
      destruct (@clear_lines_spec B32.float32 _ (Z.to_nat DELAY_LINE_SIZE)
                  (delayLine_L st0) (delayLine_R st0) i) as [E1 E2].
      { rewrite Z2Nat.id; [exact Hi|unfold DELAY_LINE_SIZE; lia]. }
      rewrite E1. reflexivity.
    + intros i Hi.
      destruct (@clear_lines_spec B32.float32 _ (Z.to_nat DELAY_LINE_SIZE)
                  (delayLine_L st0) (delayLine_R st0) i) as [E1 E2].
      { rewrite Z2Nat.id; [exact Hi|unfold DELAY_LINE_SIZE; lia]. }
      rewrite E2. reflexivity.
    + unfold DELAY_LINE_SIZE. lia.
  - cbn [DELFX_INIT currentDelayTime]. split; [reflexivity|split; apply Qle_bool_iff; reflexivity].
Qed.

Lemma target_fits_b32 (bpmF : B32.float32) :
  tempo_fits_b32 bpmF -> b32_between 0 262143 (target_of_bpm bpmF (of_Z 1)).
Proof.
  intros [H|(Fb & L & U)]; unfold target_of_bpm, failsafe_bpm.
  - rewrite H. split; [reflexivity|split; apply Qle_bool_iff; reflexivity].
  - pose proof bpow_127_big as B127. pose proof bpow_126_big as B126.
    destruct bpmF as [s|s| |s m e]; try discriminate.
    { cbn [B32.to_Q] in L. lra. }
    pose proof (to_Q_finite s m e) as Eb. pose proof (finite_mag_pos m e) as Pb.
    destruct s; [lra|]. cbn [fle b32_ops SFleb SFcompare]. cbv iota.
    change (@of_Z B32.float32 _ 0) with (S754_zero false). cbn [SFleb SFcompare].
    change (@of_Z B32.float32 _ 60) with (S754_finite false 15728640 (-18)).
    change (@of_Z B32.float32 _ SAMPLE_RATE) with (S754_finite false 12288000 (-8)).
    change (@of_Z B32.float32 _ NUM_NOTES_PER_BEAT) with (S754_finite false 8388608 (-21)).
    change (@of_Z B32.float32 _ 1) with (S754_finite false 8388608 (-23)).
    cbn [fdiv fmul b32_ops].
    set (Y := inject_Z (Zpos m) * bpow e) in *.
    assert (E60 : inject_Z (Zpos 15728640) * bpow (-18) == 60) by reflexivity.
    assert (Hsmall : bpow (-149) <= 1 # 1073741824).
    { change (1 # 1073741824) with (bpow (-30)). apply bpow_le. lia. }
    destruct (@SFdiv_pos_rounds 15728640 m (-18) e) as [Fq Rq].
    { fold Y. rewrite E60.
      apply Qle_trans with ((1 # 1073741824) * Y); [apply Qmult_le_compat_r; lra|lra]. }
    { fold Y. rewrite E60.
      apply Qlt_le_trans with (1048576 * Y); [lra|apply Qmult_le_compat_r; lra]. }
    set (q := SFdiv B32.prec B32.emax (S754_finite false 15728640 (-18))
                (S754_finite false m e)) in *.
    fold Y in Rq.
    assert (Lq : 0 <= B32.to_Q q) by apply (rounds_mag_nonneg Rq).
    assert (Uq : B32.to_Q q <= inject_Z 11439011 * bpow (-23)).
    { apply (rounds_mag_le Rq); [|lia|lia]. rewrite E60.
      apply Qle_shift_div_r; [lra|].
      change (inject_Z 11439011 * bpow (-23)) with (11439011 # 8388608). lra. }
    change (inject_Z 11439011 * bpow (-23)) with (11439011 # 8388608) in Uq.
    set (c1 := S754_finite false 12288000 (-8)).
    assert (Ec1 : B32.to_Q c1 == 48000) by reflexivity.
    assert (R1 : b32_rounds (B32.to_Q c1 * B32.to_Q q) (SFmul B32.prec B32.emax c1 q)).
    { apply SFmul_b32_rounds; [reflexivity|exact Fq|left; cbn; lia| |]; rewrite Ec1; lra. }
    set (t1 := SFmul B32.prec B32.emax c1 q) in *.
    assert (L1 : 0 <= B32.to_Q t1).
    { change 0 with (inject_Z 0). apply (b32_rounds_int_ge R1); [|lia].
      change (inject_Z 0) with 0. rewrite Ec1. lra. }
    assert (U1 : B32.to_Q t1 <= 65455).
    { change 65455 with (inject_Z 65455). apply (b32_rounds_int_le R1); [|lia].
      change (inject_Z 65455) with 65455. rewrite Ec1. lra. }
    set (c2 := S754_finite false 8388608 (-21)).
    assert (Ec2 : B32.to_Q c2 == 4) by reflexivity.
    assert (R2 : b32_rounds (B32.to_Q t1 * B32.to_Q c2) (SFmul B32.prec B32.emax t1 c2)).
    { apply SFmul_b32_rounds; [apply R1|reflexivity|right; cbn; lia| |]; rewrite Ec2; lra. }
    set (t2 := SFmul B32.prec B32.emax t1 c2) in *.
    assert (L2 : 0 <= B32.to_Q t2).
    { change 0 with (inject_Z 0). apply (b32_rounds_int_ge R2); [|lia].
      change (inject_Z 0) with 0. rewrite Ec2. lra. }
    assert (U2 : B32.to_Q t2 <= 261820).
    { change 261820 with (inject_Z 261820). apply (b32_rounds_int_le R2); [|lia].
      change (inject_Z 261820) with 261820. rewrite Ec2. lra. }
    set (c3 := S754_finite false 8388608 (-23)).
    assert (Ec3 : B32.to_Q c3 == 1) by reflexivity.
    assert (R3 : b32_rounds (B32.to_Q t2 * B32.to_Q c3) (SFmul B32.prec B32.emax t2 c3)).
    { apply SFmul_b32_rounds; [apply R2|reflexivity|right; cbn; lia| |]; rewrite Ec3; lra. }
    split; [apply R3|]. split.
    + change 0 with (inject_Z 0). apply (b32_rounds_int_ge R3); [|lia].
      change (inject_Z 0) with 0. rewrite Ec3. lra.
    + change 262143 with (inject_Z 262143). apply (b32_rounds_int_le R3); [|lia].
      change (inject_Z 262143) with 262143. rewrite Ec3. lra.
Qed.

(** C2: in binary32, after [DELFX_INIT], for any number of consecutive
    calls of [DELFX_PROCESS] with any frame counts and all-zero input,
    whatever the tempo of each call: whenever the calls return, every
    output buffer is all-zero (it equals its input, +0 in every sample);
    and the calls do return when the delay time computed from each call's
    tempo is a binary32 number between 0 and 262143 samples, that is when
    it fits the delay line, as the engine assumes; it does for every tempo
    the failsafe replaces and for every tempo from 44 to 10^9 BPM. *)
Theorem silence_in_silence_out (st0 : state B32.float32)
    (calls : list (B32.float32 * nat)) :
  (forall outs st',
     process_calls (map (fun c => (fst c, silence (snd c))) calls) (DELFX_INIT st0)
     = Some (outs, st') ->
     outs = map (fun c => silence (snd c)) calls)
  /\ (Forall (fun c => b32_between 0 262143 (target_of_bpm (fst c) (of_Z 1))) calls ->
      exists st',
        process_calls (map (fun c => (fst c, silence (snd c))) calls) (DELFX_INIT st0)
        = Some (map (fun c => silence (snd c)) calls, st'))
  /\ (Forall (fun c => tempo_fits_b32 (fst c)) calls ->
      exists st',
        process_calls (map (fun c => (fst c, silence (snd c))) calls) (DELFX_INIT st0)
        = Some (map (fun c => silence (snd c)) calls, st')).
Proof.
  destruct (DELFX_INIT_silent_b32 st0) as [Hs Hc].
  assert (G : Forall (fun c => b32_between 0 262143 (target_of_bpm (fst c) (of_Z 1))) calls ->
              exists st',
                process_calls (map (fun c => (fst c, silence (snd c))) calls) (DELFX_INIT st0)
                = Some (map (fun c => silence (snd c)) calls, st')).
  { intros Hall. destruct (@process_calls_defined_b32 calls _ Hs Hc Hall) as (outs & st' & E).
    exists st'. rewrite E. rewrite (@process_calls_silent_b32 calls _ Hs _ _ E). reflexivity. }
  split; [|split].
  - intros outs st'. apply (@process_calls_silent_b32 calls _ Hs).
  - exact G.
  - intros Hall. apply G. revert Hall. apply Forall_impl.
    intros c. apply target_fits_b32.
Qed.

Lemma silence_in_silence_out_witness :
  exists st',
    process_calls
      (map (fun c => (fst c, silence (snd c)))
         [(of_Z 120, 64%nat); (of_Z 0, 16%nat); (lit 44, 32%nat)])
      (DELFX_INIT b32_demo_state)
    = Some (map (fun c => silence (snd c))
              [(@of_Z B32.float32 _ 120, 64%nat); (of_Z 0, 16%nat); (lit 44, 32%nat)], st').
Proof.
  apply (proj2 (proj2 (silence_in_silence_out b32_demo_state
                         [(of_Z 120, 64%nat); (of_Z 0, 16%nat); (lit 44, 32%nat)]))).
  constructor; [right; split; [reflexivity|split; apply Qle_bool_iff; reflexivity]|].
  constructor; [left; reflexivity|].
  constructor; [right; split; [reflexivity|split; apply Qle_bool_iff; reflexivity]|].
  constructor.
Defined.

(** Whether the sample loop returns depends on the cursor and the delay
    times only, not on the lines or the input. *)
Section Control.
Context {F : Type} {ops : FloatOps F}.

Lemma readFrac_undefined (pos : F) (b1 b2 : Z -> F) :
  readFrac pos b1 = None -> readFrac pos b2 = None.
Proof.
  unfold readFrac. destruct (to_uint32 pos); [discriminate|reflexivity].
Qed.

Lemma process_frame_control (x1 x2 : frame F) (s1 s2 : state F) :
  same_control s1 s2 ->
  match process_frame x1 s1, process_frame x2 s2 with
  | Some (_, s1'), Some (_, s2') => same_control s1' s2'
  | None, None => True
  | _, _ => False
  end.
Proof.
  intros (Hw & Hc & Ht). unfold process_frame. rewrite Hw, Hc, Ht.
  set (pos := if (_ <? _)%fl then _ else _).
  unfold readFrac. destruct (to_uint32 pos); [|exact I].
  repeat split.
Qed.

Lemma process_frames_control (xs1 : list (frame F)) :
  forall (xs2 : list (frame F)) (s1 s2 : state F),
  length xs1 = length xs2 -> same_control s1 s2 ->
  process_frames xs2 s2 = None -> process_frames xs1 s1 = None.
Proof.
  induction xs1 as [|x1 xs1 IH]; intros [|x2 xs2] s1 s2 Hlen Hs; try discriminate.
  cbn [process_frames].
  pose proof (process_frame_control x1 x2 Hs) as H.
  destruct (process_frame x1 s1) as [[y1 s1']|], (process_frame x2 s2) as [[y2 s2']|];
    try contradiction; [|reflexivity].
  intros E. rewrite (IH xs2 s1' s2'); [reflexivity|cbn in Hlen; lia|exact H|].
  destruct (process_frames xs2 s2') as [[? ?]|]; [discriminate|reflexivity].
Qed.
End Control.

(** The condition on the delay time cannot be dropped: after [DELFX_INIT],
    at a tempo of 1 BPM the delay time glides past the length of the delay
    line within 300 silent frames; the read position is then negative and
    its conversion to [uint32_t] is undefined in C, so this model gives the
    call no result (the device's conversion saturates). *)
Lemma slow_tempo_undefined_b32 :
  DELFX_PROCESS (of_Z 1) (silence 300)
    (DELFX_INIT (b32_clear_state B32.zero B32.zero B32.zero B32.zero B32.zero B32.zero))
  = None.
Proof.
  unfold DELFX_PROCESS.
  apply process_frames_control with
    (xs2 := silence 300)
    (s2 := b32_clear_state (of_Z 48000) (of_Z 11520000) B32.zero (of_Z 1) B32.zero B32.zero).
  - reflexivity.
  - split; [reflexivity|]. split; [reflexivity|].
    cbn [set_target targetDelayTime DELFX_INIT multiplier b32_clear_state].
    vm_compute. reflexivity.
  - vm_compute. reflexivity.
Qed.

(** *** The echoes of an impulse *)

Lemma inject_Z_sub (a b : Z) : inject_Z (a - b) == inject_Z a - inject_Z b.
Proof. unfold Z.sub. rewrite inject_Z_plus, inject_Z_opp. reflexivity. Qed.

Lemma echo_before_T (T : Z) (d : Q) (n : Z) :
  (1 <= T)%Z -> (0 <= n < T)%Z -> echo_R T d n = 0 /\ echo_L T d n = 0.
Proof.
  intros HT Hn. unfold echo_R, echo_L, echo_amp.
  rewrite Z.div_small by lia. rewrite Z.mod_small by lia. cbn [Z.odd Z.even].
  split; [reflexivity|].
  destruct (Z.ltb_spec 0 n); [|reflexivity].
  destruct (Z.eqb_spec n 0); [lia|reflexivity].
Qed.

Lemma div_mod_shift (T n : Z) :
  (1 <= T)%Z -> ((n - T) / T = n / T - 1 /\ (n - T) mod T = n mod T)%Z.
Proof.
  intros HT. replace (n - T)%Z with (n + (-1) * T)%Z by lia.
  rewrite Z.div_add, Z.mod_add by lia. lia.
Qed.

Lemma echo_R_rec (T : Z) (d : Q) (n : Z) :
  (1 <= T)%Z -> (T <= n)%Z ->
  echo_R T d n == inR_at (n - T) + echo_L T d (n - T) * d.
Proof.
  intros HT Hn. unfold echo_R, echo_L, echo_amp, inR_at.
  destruct (div_mod_shift n HT) as [Ed Em]. rewrite Ed, Em.
  assert (1 <= n / T)%Z as Hk by (apply Z.div_le_lower_bound; lia).
  pose proof (Z.div_mod n T ltac:(lia)) as Hdm.
  replace (Z.even (n / T - 1)) with (Z.odd (n / T))
    by (rewrite Z.even_sub; cbn [Z.even]; rewrite <- Z.negb_odd;
        destruct (Z.odd (n / T)); reflexivity).
  destruct (Z.eqb_spec (n mod T) 0) as [Hm|Hm].
  - destruct (Z.ltb_spec 0 n); [|lia]. cbn [andb].
    destruct (Z.odd (n / T)) eqn:Ho.
    + destruct (Z.eqb_spec (n - T) 0) as [Hz|Hz].
      * assert (n / T = 1)%Z as -> by nia.
        destruct (Z.ltb_spec 0 (n - T)); [lia|]. cbn. ring.
      * assert (2 <= n / T)%Z by nia.
        destruct (Z.ltb_spec 0 (n - T)); [|lia]. cbn [andb].
        replace (Z.to_nat (n / T - 1)) with (S (Z.to_nat (n / T - 1 - 1))) by lia.
        cbn [qpow]. ring.
    + destruct (Z.eqb_spec (n - T) 0) as [Hz|Hz]; [|ring].
      assert (n / T = 1)%Z as E by nia. rewrite E in Ho. discriminate.
  - rewrite !andb_false_r.
    destruct (Z.eqb_spec (n - T) 0) as [Hz|Hz].
    + exfalso. apply Hm. replace n with (1 * T)%Z by lia. apply Z.mod_mul. lia.
    + destruct (Z.odd (n / T)); ring.
Qed.

Lemma echo_L_rec (T : Z) (d : Q) (n : Z) :
  (1 <= T)%Z -> (T <= n)%Z ->
  echo_L T d n == echo_R T d (n - T) * d.
Proof.
  intros HT Hn. unfold echo_R, echo_L, echo_amp.
  destruct (div_mod_shift n HT) as [Ed Em]. rewrite Ed, Em.
  assert (1 <= n / T)%Z as Hk by (apply Z.div_le_lower_bound; lia).
  pose proof (Z.div_mod n T ltac:(lia)) as Hdm.
  replace (Z.odd (n / T - 1)) with (Z.even (n / T))
    by (rewrite Z.odd_sub; cbn [Z.odd]; rewrite <- Z.negb_even;
        destruct (Z.even (n / T)); reflexivity).
  destruct (Z.eqb_spec (n mod T) 0) as [Hm|Hm].
  - destruct (Z.ltb_spec 0 n); [|lia]. cbn [andb].
    destruct (Z.even (n / T)) eqn:Ho; [|ring].
    assert (2 <= n / T)%Z.
    { destruct (Z.eq_dec (n / T) 1) as [E|E]; [rewrite E in Ho; discriminate|lia]. }
    destruct (Z.ltb_spec 0 (n - T)); [|nia].
    replace (Z.to_nat (n / T - 1)) with (S (Z.to_nat (n / T - 1 - 1))) by lia.
    cbn [qpow andb]. ring.
  - rewrite !andb_false_r. destruct (Z.even (n / T)); ring.
Qed.

Lemma readFrac_at (pos : Q) (z : Z) (buf : Z -> Q) :
  pos == inject_Z z -> (0 <= z < DELAY_LINE_SIZE)%Z ->
  exists r, readFrac pos buf = Some r /\ r == buf z.
Proof.
  intros E Hz.
  assert (0 <= pos) as H0.
  { rewrite E. change 0 with (inject_Z 0). rewrite <- Zle_Qle. lia. }
  assert (pos < inject_Z UINT32_MOD) as H1.
  { rewrite E. rewrite <- Zlt_Qlt. unfold DELAY_LINE_SIZE, UINT32_MOD in *. lia. }
  eexists. split; [apply readFrac_Q; assumption|].
  assert (Qfloor pos = z) as ->.
  { rewrite (Qfloor_comp _ _ E). apply Qfloor_Z. }
  rewrite (Z.mod_small z) by lia. rewrite E. ring.
Qed.

Lemma process_frame_echo (T : Z) (d w dr m : Q) (n : Z) (x : frame Q) (st : state Q) :
  (1 <= T < DELAY_LINE_SIZE_MASK)%Z -> (0 <= n < DELAY_LINE_SIZE)%Z ->
  echo_inv T d w dr m n st ->
  fst x == 0 -> snd x == inR_at n ->
  exists y st', process_frame x st = Some (y, st')
    /\ echo_inv T d w dr m (n + 1) st'
    /\ fst y == echo_L T d n * w
    /\ snd y == inR_at n * dr + echo_R T d n * w.
Proof.
  intros HT Hn [Hwr Hcur Htgt Hd Hw Hdr Hm HR HL] HxL HxR.
  rewrite Z.mod_small in Hwr by exact Hn.
  unfold DELAY_LINE_SIZE, DELAY_LINE_SIZE_MASK in HT, Hn.
  assert (glide (targetDelayTime st) (currentDelayTime st) == inject_Z T) as Hg.
  { pose proof (glide_Q (targetDelayTime st) (currentDelayTime st)). lra. }
  unfold process_frame. rewrite Hwr.
  set (g := glide _ _) in *.
  set (pos := if (_ <? _)%fl then _ else _).
  set (z := if (n <? T)%Z then (n - T + DELAY_LINE_SIZE_MASK)%Z else (n - T)%Z).
  assert (pos == inject_Z z) as Hpos.
  { unfold pos, z. destruct (Z.ltb_spec n T) as [Hlt|Hge].
    - assert (flt (of_Z n - g)%fl (of_Z 0) = true) as ->.
      { apply Qflt_true. qsimpl. rewrite Hg. change (inject_Z 0) with 0.
        rewrite Zlt_Qlt in Hlt. lra. }
      qsimpl. rewrite Hg, inject_Z_plus, inject_Z_sub. ring.
    - assert (flt (of_Z n - g)%fl (of_Z 0) = false) as ->.
      { apply Qflt_false. qsimpl. rewrite Hg. change (inject_Z 0) with 0.
        rewrite Zle_Qle in Hge. lra. }
      qsimpl. rewrite Hg, inject_Z_sub. ring. }
  assert (0 <= z < DELAY_LINE_SIZE)%Z as Hz.
  { unfold z, DELAY_LINE_SIZE, DELAY_LINE_SIZE_MASK. destruct (Z.ltb_spec n T); lia. }
  assert (z <> n) as Hzn.
  { unfold z, DELAY_LINE_SIZE_MASK. destruct (Z.ltb_spec n T); lia. }
  (* the delayed right sample *)
  destruct (readFrac_at (delayLine_R st) Hpos Hz) as (sR & ER & HsR). rewrite ER.
  assert (sR == echo_R T d n) as HsR'.
  { rewrite HsR, (HR z Hz). unfold line_R_at, z.
    destruct (Z.ltb_spec n T) as [Hlt|Hge].
    - destruct (Z.ltb_spec (n - T + DELAY_LINE_SIZE_MASK) n);
        [unfold DELAY_LINE_SIZE_MASK in *; lia|].
      destruct (@echo_before_T T d n) as [-> _]; [lia|lia|reflexivity].
    - destruct (Z.ltb_spec (n - T) n); [|lia].
      symmetry. apply echo_R_rec; lia. }
  (* the delayed left sample, read after the write at the cursor *)
  set (lineL := upd (delayLine_L st) n _).
  destruct (readFrac_at lineL Hpos Hz) as (sL & EL & HsL). rewrite EL.
  assert (sL == echo_L T d n) as HsL'.
  { rewrite HsL. unfold lineL, upd. destruct (Z.eqb_spec z n); [contradiction|].
    rewrite (HL z Hz). unfold line_L_at, z.
    destruct (Z.ltb_spec n T) as [Hlt|Hge].
    - destruct (Z.ltb_spec (n - T + DELAY_LINE_SIZE_MASK) n);
        [unfold DELAY_LINE_SIZE_MASK in *; lia|].
      destruct (@echo_before_T T d n) as [_ ->]; [lia|lia|reflexivity].
    - destruct (Z.ltb_spec (n - T) n); [|lia].
      symmetry. apply echo_L_rec; lia. }
  eexists. eexists. split; [reflexivity|].
  split; [constructor|split].
  - cbn [delayLine_Wr]. rewrite mask_succ_wrap. reflexivity.
  - exact Hg.
  - exact Htgt.
  - exact Hd.
  - exact Hw.
  - exact Hdr.
  - exact Hm.
  - intros i Hi. cbn [delayLine_R]. unfold upd at 1. unfold line_R_at.
    destruct (Z.eqb_spec i n) as [->|Hne].
    + destruct (Z.ltb_spec n (n + 1)); [|lia].
      unfold upd. rewrite Z.eqb_refl. qsimpl. rewrite HxR, HsL', Hd. reflexivity.
    + unfold upd. destruct (Z.eqb_spec i n); [contradiction|].
      rewrite (HR i Hi). unfold line_R_at.
      destruct (Z.ltb_spec i n), (Z.ltb_spec i (n + 1)); try lia; reflexivity.
  - intros i Hi. cbn [delayLine_L]. fold lineL. unfold lineL, upd, line_L_at.
    destruct (Z.eqb_spec i n) as [->|Hne].
    + destruct (Z.ltb_spec n (n + 1)); [|lia].
      qsimpl. rewrite HsR', Hd. reflexivity.
    + rewrite (HL i Hi). unfold line_L_at.
      destruct (Z.ltb_spec i n), (Z.ltb_spec i (n + 1)); try lia; reflexivity.
  - cbn [fst]. qsimpl. rewrite HxL, HsL', Hw. ring.
  - cbn [snd]. qsimpl. rewrite HxR, HsR', Hw, Hdr. ring.
Qed.

Lemma is_stream_app (n : nat) (xs ys : list (frame Q)) :
  is_stream n (xs ++ ys) -> is_stream n xs /\ is_stream (n + length xs) ys.
Proof.
  intros H. split; intros j Hj.
  - specialize (H j). rewrite length_app in H. rewrite app_nth1 in H by exact Hj.
    apply H. lia.
  - specialize (H (length xs + j)%nat). rewrite length_app in H.
    rewrite app_nth2 in H by lia.
    replace (length xs + j - length xs)%nat with j in H by lia.
    replace (n + length xs + j)%nat with (n + (length xs + j))%nat by lia.
    apply H. lia.
Qed.

Lemma is_echo_app (T : Z) (d w dr : Q) (n : nat) (xs ys : list (frame Q)) :
  is_echo T d w dr n xs -> is_echo T d w dr (n + length xs) ys ->
  is_echo T d w dr n (xs ++ ys).
Proof.
  intros Hx Hy j Hj. rewrite length_app in Hj.
  destruct (Nat.lt_ge_cases j (length xs)) as [Hlt|Hge].
  - rewrite app_nth1 by exact Hlt. apply Hx. exact Hlt.
  - rewrite app_nth2 by exact Hge.
    replace (n + j)%nat with (n + length xs + (j - length xs))%nat by lia.
    apply Hy. lia.
Qed.

Lemma impulse_is_stream (N : nat) : is_stream 0 (@impulse_R Q _ N).
Proof.
  intros j Hj. unfold impulse_R. destruct j as [|j]; cbn [nth].
  - split; reflexivity.
  - assert (nth j (@silence Q _ N) (0, 0) = (0, 0)) as ->.
    { destruct (nth_in_or_default j (@silence Q _ N) (0, 0)) as [Hin|Hd];
        [|exact Hd].
      unfold silence in Hin. apply repeat_spec in Hin. exact Hin. }
    cbn [fst snd]. split; [reflexivity|].
    unfold inR_at. destruct (Z.eqb_spec (Z.of_nat (0 + S j)) 0); [lia|reflexivity].
Qed.

Lemma process_frames_echo (T : Z) (d w dr m : Q) (xs : list (frame Q)) :
  (1 <= T < DELAY_LINE_SIZE_MASK)%Z ->
  forall (n : nat) (st : state Q),
  (Z.of_nat (n + length xs) <= DELAY_LINE_SIZE)%Z ->
  is_stream n xs ->
  echo_inv T d w dr m (Z.of_nat n) st ->
  exists ys st', process_frames xs st = Some (ys, st')
    /\ length ys = length xs
    /\ echo_inv T d w dr m (Z.of_nat (n + length xs)) st'
    /\ is_echo T d w dr n ys.
Proof.
  intros HT. induction xs as [|x xs IH]; intros n st Hlen Hs Hinv.
  - exists [], st. cbn [process_frames length]. rewrite Nat.add_0_r.
    split; [reflexivity|]. split; [reflexivity|]. split; [exact Hinv|].
    intros j Hj. cbn in Hj. lia.
  - cbn [length] in Hlen.
    destruct (@is_stream_app n [x] xs Hs) as [Hs1 Hs2]. cbn [length] in Hs2.
    specialize (Hs1 0%nat ltac:(cbn; lia)). cbn [nth] in Hs1. rewrite Nat.add_0_r in Hs1.
    destruct Hs1 as [HxL HxR].
    destruct (@process_frame_echo T d w dr m (Z.of_nat n) x st HT ltac:(lia) Hinv HxL HxR)
      as (y & st1 & E1 & Hinv1 & HyL & HyR).
    replace (Z.of_nat n + 1)%Z with (Z.of_nat (n + 1)) in Hinv1 by lia.
    destruct (IH (n + 1)%nat st1 ltac:(lia) Hs2 Hinv1)
      as (ys & st2 & E2 & Hl2 & Hinv2 & Hy2).
    exists (y :: ys), st2. cbn [process_frames length]. rewrite E1, E2.
    split; [reflexivity|]. split; [congruence|].
    split; [replace (n + S (length xs))%nat with (n + 1 + length xs)%nat by lia; exact Hinv2|].
    apply (@is_echo_app T d w dr n [y] ys).
    + intros j Hj. cbn [length] in Hj. assert (j = 0%nat) as -> by lia.
      cbn [nth]. rewrite Nat.add_0_r. split; assumption.
    + exact Hy2.
Qed.

Lemma echo_inv_set_target (T : Z) (d w dr m : Q) (n : Z) (t : Q) (st : state Q) :
  echo_inv T d w dr m n st -> t == inject_Z T ->
  echo_inv T d w dr m n (set_target t st).
Proof.
  intros [Hwr Hcur Htgt Hd Hw Hdr Hm HR HL] Ht.
  constructor; cbn [set_target delayLine_Wr currentDelayTime targetDelayTime
                    valDepth wet dry multiplier delayLine_R delayLine_L]; assumption.
Qed.

Lemma process_calls_echo (T : Z) (bpmF d w dr m : Q) (blocks : list (list (frame Q))) :
  (1 <= T < DELAY_LINE_SIZE_MASK)%Z ->
  target_of_bpm bpmF m == inject_Z T ->
  forall (n : nat) (st : state Q),
  (Z.of_nat (n + length (concat blocks)) <= DELAY_LINE_SIZE)%Z ->
  is_stream n (concat blocks) ->
  echo_inv T d w dr m (Z.of_nat n) st ->
  exists outs st',
    process_calls (map (fun xn => (bpmF, xn)) blocks) st = Some (outs, st')
    /\ length (concat outs) = length (concat blocks)
    /\ is_echo T d w dr n (concat outs).
Proof.
  intros HT Htgt. induction blocks as [|b blocks IH]; intros n st Hlen Hs Hinv.
  - exists [], st. cbn. split; [reflexivity|]. split; [reflexivity|].
    intros j Hj. cbn in Hj. lia.
  - cbn [concat] in Hlen, Hs. rewrite length_app in Hlen.
    destruct (@is_stream_app n b (concat blocks) Hs) as [Hs1 Hs2].
    cbn [map process_calls]. unfold DELFX_PROCESS.
    assert (echo_inv T d w dr m (Z.of_nat n)
              (set_target (target_of_bpm bpmF (multiplier st)) st)) as Hinv0.
    { apply echo_inv_set_target; [exact Hinv|]. rewrite (ei_m Hinv). exact Htgt. }
    destruct (@process_frames_echo T d w dr m b HT n _ ltac:(lia) Hs1 Hinv0)
      as (ys & st1 & E1 & Hl1 & Hinv1 & Hy1).
    rewrite E1.
    destruct (IH (n + length b)%nat st1 ltac:(lia) Hs2 Hinv1)
      as (outs & st2 & E2 & Hl2 & Hy2).
    rewrite E2. exists (ys :: outs), st2.
    split; [reflexivity|]. cbn [concat]. split.
    + rewrite !length_app. congruence.
    + apply is_echo_app; [exact Hy1|]. rewrite Hl1. exact Hy2.
Qed.

(** C1 (amended): in exact arithmetic, with clear delay lines, the cursor
    at 0, a stable delay time of [T] whole samples ([1 <= T < 262143]) and
    feedback depth [d], a unit impulse on the right input followed by [N]
    silent frames ([N < 262144]), passed in any number of calls, gives at
    frame [k] the left output [wet * echo_L T d k] and the right output
    [dry * input + wet * echo_R T d k]: the first echo, of amplitude 1, is
    on the right at offset [T], the second, of amplitude [d], on the left
    at [2T], the third, [d^2], on the right at [3T], and so on; the left
    output is zero before [2T]. *)
Theorem ping_pong_echoes (T : Z) (bpmF : Q) (st : state Q)
    (blocks : list (list (frame Q))) (N : nat) :
  (1 <= T < DELAY_LINE_SIZE_MASK)%Z ->
  (Z.of_nat N < DELAY_LINE_SIZE)%Z ->
  lines_clear st ->
  delayLine_Wr st = 0%Z ->
  currentDelayTime st == inject_Z T ->
  target_of_bpm bpmF (multiplier st) == inject_Z T ->
  concat blocks = impulse_R N ->
  exists outs st',
    process_calls (map (fun xn => (bpmF, xn)) blocks) st = Some (outs, st')
    /\ length (concat outs) = S N
    /\ forall k, (k <= N)%nat ->
         fst (nth k (concat outs) (0, 0))
           == echo_L T (valDepth st) (Z.of_nat k) * wet st
         /\ snd (nth k (concat outs) (0, 0))
           == (if Nat.eqb k 0 then 1 else 0) * dry st
              + echo_R T (valDepth st) (Z.of_nat k) * wet st.
Proof.
  intros HT HN Hclear Hwr Hcur Htgt Hin.
  assert (echo_inv T (valDepth st) (wet st) (dry st) (multiplier st) (Z.of_nat 0)
            (set_target (inject_Z T) st)) as Hinv.
  { constructor; cbn [set_target delayLine_Wr currentDelayTime targetDelayTime
                      valDepth wet dry multiplier delayLine_R delayLine_L];
      try reflexivity; try assumption.
    - intros i Hi. unfold line_R_at. destruct (Z.ltb_spec i (Z.of_nat 0)); [lia|].
      apply Hclear. exact Hi.
    - intros i Hi. unfold line_L_at. destruct (Z.ltb_spec i (Z.of_nat 0)); [lia|].
      apply Hclear. exact Hi. }
  assert (length (concat blocks) = S N) as Hlen.
  { rewrite Hin. unfold impulse_R. cbn [length]. rewrite silence_length. reflexivity. }
  destruct (@process_calls_echo T bpmF (valDepth st) (wet st) (dry st) (multiplier st)
              blocks HT Htgt 0%nat (set_target (inject_Z T) st))
    as (outs & st' & E & Hl & Hy).
  { rewrite Hlen. lia. }
  { rewrite Hin. apply impulse_is_stream. }
  { exact Hinv. }
  assert (process_calls (map (fun xn => (bpmF, xn)) blocks) st = Some (outs, st')) as E'.
  { destruct blocks as [|b blocks]; [discriminate Hlen|].
    cbn [map process_calls] in *. unfold DELFX_PROCESS in *.
    cbn [set_target multiplier] in E. exact E. }
  exists outs, st'. split; [exact E'|]. split; [congruence|].
  intros k Hk. destruct (Hy k ltac:(lia)) as [HL HR]. cbn [Nat.add] in HL, HR.
  split; [exact HL|]. rewrite HR. unfold inR_at.
  destruct k; [reflexivity|].
  destruct (Z.eqb_spec (Z.of_nat (S k)) 0); [lia|reflexivity].
Qed.

Lemma ping_pong_echoes_witness :
  exists outs st',
    process_calls
      (map (fun xn => (240, xn)) [[(0, 1); (0, 0)]; [(0, 0)]])
      (mkState (fun _ => 0) (fun _ => 0) 0 750 750 (1 # 2) 0 (1 # 64)
         (1 # 2) (1 # 2))
    = Some (outs, st')
    /\ length (concat outs) = 3%nat
    /\ forall k, (k <= 2)%nat ->
         fst (nth k (concat outs) (0, 0))
           == echo_L 750 (1 # 2) (Z.of_nat k) * (1 # 2)
         /\ snd (nth k (concat outs) (0, 0))
           == (if Nat.eqb k 0 then 1 else 0) * (1 # 2)
              + echo_R 750 (1 # 2) (Z.of_nat k) * (1 # 2).
Proof.
  apply (@ping_pong_echoes 750 240
           (mkState (fun _ => 0) (fun _ => 0) 0 750 750 (1 # 2) 0 (1 # 64)
              (1 # 2) (1 # 2))
           [[(0, 1); (0, 0)]; [(0, 0)]] 2).
  - unfold DELAY_LINE_SIZE_MASK. lia.
  - unfold DELAY_LINE_SIZE. lia.
  - intros i _. split; reflexivity.
  - reflexivity.
  - reflexivity.
  - vm_compute. reflexivity.
  - reflexivity.
Defined.

(** The first echoes of the train *)
Lemma echo_train_head (T : Z) (d : Q) :
  (1 <= T)%Z ->
  echo_R T d T = 1 /\ echo_L T d T = 0
  /\ echo_L T d (2 * T) = d * 1 /\ echo_R T d (2 * T) = 0
  /\ echo_R T d (3 * T) = d * (d * 1) /\ echo_L T d (3 * T) = 0
  /\ (forall k, (0 <= k < 2 * T)%Z -> echo_L T d k = 0).
Proof.
  intros HT. unfold echo_R, echo_L, echo_amp.
  rewrite !Z.div_mul, !Z.mod_mul, Z.div_same, Z.mod_same by lia.
  destruct (Z.ltb_spec 0 T); [|lia].
  destruct (Z.ltb_spec 0 (2 * T)); [|lia].
  destruct (Z.ltb_spec 0 (3 * T)); [|lia].
  repeat split.
  intros k Hk.
  assert (k / T = 0 \/ k / T = 1)%Z as [E|E].
  { assert (0 <= k / T)%Z by (apply Z.div_pos; lia).
    assert (k / T < 2)%Z by (apply Z.div_lt_upper_bound; lia). lia. }
  - rewrite E. cbn [Z.even].
    assert (k mod T = k)%Z as -> by (pose proof (Z.div_mod k T ltac:(lia)); nia).
    destruct (Z.ltb_spec 0 k); [|reflexivity].
    destruct (Z.eqb_spec k 0); [lia|reflexivity].
  - rewrite E. reflexivity.
Qed.

(** C1 (as stated, refuted): in binary32, with a stable delay of 750
    samples (240 BPM, division 1/64), feedback 0.5 and wet = dry = 0.5, the
    frame at offset T = 750 has no echo on the left and the undamped echo
    (wet * 1) on the right; the echo of amplitude d (wet * d = 0.25) is on
    the left at offset 2T = 1500, where the right output is silent. *)
Lemma ping_pong_offsets_b32 :
  match DELFX_PROCESS (of_Z 240) (impulse_R 1500)
          (b32_clear_state (of_Z 750) (of_Z 750) (lit 0.5) (dlit 0.015625)
             (lit 0.5) (lit 0.5))
  with
  | Some (ys, st') =>
      nth 750 ys (B32.nan, B32.nan) = (B32.zero, lit 0.5)
      /\ nth 1500 ys (B32.nan, B32.nan) = (lit 0.25, B32.zero)
      /\ currentDelayTime st' = B32.of_int 750
  | None => False
  end.
Proof. vm_compute. repeat split; reflexivity. Qed.

(** *** The wet/dry law and the tempo failsafe in binary32 *)

Lemma SFcompare_antisym (x y : spec_float) :
  SFcompare y x = option_map CompOpp (SFcompare x y).
Proof.
  destruct x as [sx|sx| |sx mx ex], y as [sy|sy| |sy my ey]; cbn;
    try destruct sx; try destruct sy; cbn; try reflexivity;
    rewrite (Z.compare_antisym ey ex);
    destruct (ey ?= ex)%Z; cbn; try reflexivity;
    rewrite (Pos.compare_cont_antisym mx my Eq); cbn;
    rewrite ?CompOpp_involutive; reflexivity.
Qed.

Lemma b32_lt_not_ge (x y : B32.float32) : flt x y = true -> fle y x = false.
Proof.
  cbn [flt fle b32_ops]. unfold SFltb, SFleb. rewrite (SFcompare_antisym x y).
  destruct (SFcompare x y) as [[| |]|]; cbn; congruence.
Qed.

Lemma lit_049_b32 : @lit B32.float32 _ 0.49 = S754_finite false 16441672 (-25).
Proof. vm_compute. reflexivity. Qed.

Lemma lit_051_b32 : @lit B32.float32 _ 0.51 = S754_finite false 8556380 (-24).
Proof. vm_compute. reflexivity. Qed.

Lemma b32_ge_051_not_le_049 (v : B32.float32) :
  fle (lit 0.51) v = true -> fle v (lit 0.49) = false.
Proof.
  rewrite lit_049_b32, lit_051_b32.
  cbn [flt fle b32_ops]. unfold SFleb.
  destruct v as [[|]|[|]| |[|] m e]; cbn [SFcompare];
    try discriminate; try (intros _; reflexivity).
  destruct (Z.compare_spec (-24) e) as [H|H|H];
    destruct (Z.compare_spec e (-25)) as [H'|H'|H'];
    try lia; try discriminate; intros _; reflexivity.
Qed.

Lemma lit_mix_slope_b32 :
  @lit B32.float32 _ 1.02040816326530612244 = lit 1.0204081633.
Proof. vm_compute. reflexivity. Qed.

Lemma half_complement_b32 : (lit 1 - lit 0.5)%fl = @lit B32.float32 _ 0.5.
Proof. vm_compute. reflexivity. Qed.

(** C3: in binary32, for the knob value [v] the platform conversion
    returns, the shift-depth handler of [DELFX_PARAM] sets: if v <= 0.49,
    wet = 1.0204081633 * v and dry = 1 - wet; if v >= 0.51,
    wet = 0.5 + 1.02 * (v - 0.51) and dry = 1 - wet; if 0.49 < v < 0.51,
    wet = dry = 0.5 (the constants are the binary32 constants of the
    source; 1.0204081633 and the source's 1.02040816326530612244 are the
    same binary32 number). *)
Theorem mix_law_b32 (q31_to_f32 : Z -> B32.float32) (value : Z)
    (st : state B32.float32) :
  let v := q31_to_f32 value in
  exists st',
    DELFX_PARAM q31_to_f32 k_user_delfx_param_shift_depth value st = Some st'
    /\ ((v <=? lit 0.49)%fl = true ->
        wet st' = (lit 1.0204081633 * v)%fl
        /\ dry st' = (lit 1 - wet st')%fl)
    /\ ((v >=? lit 0.51)%fl = true ->
        wet st' = (lit 0.5 + lit 1.02 * (v - lit 0.51))%fl
        /\ dry st' = (lit 1 - wet st')%fl)
    /\ ((lit 0.49 <? v)%fl = true -> (v <? lit 0.51)%fl = true ->
        wet st' = lit 0.5 /\ dry st' = lit 0.5).
Proof.
  intros v. eexists. split; [reflexivity|].
  cbn [wet dry]. fold v. unfold mix_of. rewrite lit_mix_slope_b32.
  split; [|split].
  - intros ->. split; reflexivity.
  - intros H. rewrite (b32_ge_051_not_le_049 v H), H. split; reflexivity.
  - intros H1 H2. rewrite (b32_lt_not_ge _ _ H1), (b32_lt_not_ge _ _ H2).
    split; [reflexivity|exact half_complement_b32].
Qed.

Lemma mix_at_049_b32 : mix_of (@lit B32.float32 _ 0.49) = lit 0.5.
Proof. vm_compute. reflexivity. Qed.
Lemma mix_at_050_b32 : mix_of (@lit B32.float32 _ 0.5) = lit 0.5.
Proof. vm_compute. reflexivity. Qed.
Lemma mix_at_051_b32 : mix_of (@lit B32.float32 _ 0.51) = lit 0.5.
Proof. vm_compute. reflexivity. Qed.
Lemma mix_at_0_b32 : mix_of (@lit B32.float32 _ 0) = B32.zero.
Proof. vm_compute. reflexivity. Qed.
Lemma mix_at_1_b32 :
  mix_of (@lit B32.float32 _ 1) = S754_finite false 16773860 (-24).
Proof. vm_compute. reflexivity. Qed.

(** C4 (amended): in binary32, at v = 0.49, 0.5 and 0.51, wet + dry is
    within 1e-6 of 1; wet(0) = 0 and dry(0) = 1; at the top of the knob
    wet(1) is 0.9998 and dry(1) is 0.0002 (within 1e-6): the law stops
    just short of full wet, it does not overshoot. *)
Theorem mix_law_points_b32 (q31_to_f32 : Z -> B32.float32) (value : Z)
    (st : state B32.float32) :
  let v := q31_to_f32 value in
  exists st',
    DELFX_PARAM q31_to_f32 k_user_delfx_param_shift_depth value st = Some st'
    /\ (v = lit 0.49 \/ v = lit 0.5 \/ v = lit 0.51 ->
        Qabs (B32.to_Q (wet st') + B32.to_Q (dry st') - 1) <= 0.000001)
    /\ (v = lit 0 -> wet st' = lit 0 /\ dry st' = lit 1)
    /\ (v = lit 1 ->
        Qabs (B32.to_Q (wet st') - 0.9998) <= 0.000001
        /\ Qabs (B32.to_Q (dry st') - 0.0002) <= 0.000001).
Proof.
  intros v. eexists. split; [reflexivity|].
  cbn [wet dry]. fold v. split; [|split].
  - intros [E|[E|E]]; rewrite E;
      rewrite ?mix_at_049_b32, ?mix_at_050_b32, ?mix_at_051_b32;
      vm_compute; discriminate.
  - intros ->. rewrite mix_at_0_b32. split; vm_compute; reflexivity.
  - intros ->. rewrite mix_at_1_b32. split; vm_compute; discriminate.
Qed.

(** C4 (as stated, refuted): at the largest control value, which the
    reference conversion maps to 1.0, wet is below 1 and dry is positive,
    each more than 0.02 away from the 1.0201 and -0.0201 of the claim. *)
Lemma mix_top_is_below_one_b32 :
  match DELFX_PARAM q31_to_f32_ref k_user_delfx_param_shift_depth 2147483647
          (b32_clear_state B32.zero B32.zero B32.zero B32.zero B32.zero B32.zero)
  with
  | Some st' =>
      q31_to_f32_ref 2147483647 = @lit B32.float32 _ 1
      /\ B32.to_Q (wet st') < 1 /\ 0 < B32.to_Q (dry st')
      /\ 0.02 < Qabs (B32.to_Q (wet st') - 1.0201)
      /\ 0.02 < Qabs (B32.to_Q (dry st') - (-0.0201))
  | None => False
  end.
Proof. vm_compute. repeat split; reflexivity. Qed.

(** The sample loop leaves the knob values and the target alone. *)
Section Frame.
Context {F : Type} {ops : FloatOps F}.

Lemma process_frame_keeps (x : frame F) (st st' : state F) (y : frame F) :
  process_frame x st = Some (y, st') ->
  targetDelayTime st' = targetDelayTime st
  /\ multiplier st' = multiplier st
  /\ valDepth st' = valDepth st
  /\ valTime st' = valTime st
  /\ wet st' = wet st /\ dry st' = dry st.
Proof.
  unfold process_frame.
  destruct (readFrac _ (delayLine_R st)); [|discriminate].
  destruct (readFrac _ _); [|discriminate].
  intros E. inversion E; subst. cbn. repeat split.
Qed.

Lemma process_frames_keeps (xn : list (frame F)) :
  forall (st st' : state F) (ys : list (frame F)),
  process_frames xn st = Some (ys, st') ->
  targetDelayTime st' = targetDelayTime st
  /\ multiplier st' = multiplier st
  /\ valDepth st' = valDepth st
  /\ valTime st' = valTime st
  /\ wet st' = wet st /\ dry st' = dry st.
Proof.
  induction xn as [|x xn IH]; intros st st' ys; cbn [process_frames].
  - intros E. inversion E; subst. repeat split.
  - destruct (process_frame x st) as [[y st1]|] eqn:E1; [|discriminate].
    destruct (process_frames xn st1) as [[ys' st2]|] eqn:E2; [|discriminate].
    intros E. inversion E; subst.
    destruct (process_frame_keeps _ _ E1) as (A1 & A2 & A3 & A4 & A5 & A6).
    destruct (IH _ _ _ E2) as (B1 & B2 & B3 & B4 & B5 & B6).
    repeat split; congruence.
Qed.
End Frame.

Lemma b32_le_zero (x : B32.float32) : (x <=? of_Z 0)%fl = b32_nonpositive x.
Proof. destruct x as [[|]|[|]| |[|] m e]; reflexivity. Qed.

(** C5 (amended): in binary32, a call of [DELFX_PROCESS] that returns sets
    the target delay time from MIN_BPM = 56 exactly when the tempo is a
    zero, a negative number or minus infinity; every other tempo
    (positive numbers, plus infinity and NaN) is used unchanged. *)
Theorem tempo_failsafe_b32 (bpmF : B32.float32) (xn ys : list (frame B32.float32))
    (st st' : state B32.float32) :
  DELFX_PROCESS bpmF xn st = Some (ys, st') ->
  targetDelayTime st'
  = (of_Z SAMPLE_RATE
     * (of_Z 60 / (if b32_nonpositive bpmF then of_Z MIN_BPM else bpmF))
     * of_Z NUM_NOTES_PER_BEAT * multiplier st)%fl.
Proof.
  unfold DELFX_PROCESS. intros E.
  destruct (process_frames_keeps _ _ E) as (Ht & _).
  rewrite Ht. cbn [set_target targetDelayTime].
  unfold target_of_bpm, failsafe_bpm. rewrite b32_le_zero. reflexivity.
Qed.

Lemma tempo_failsafe_b32_witness :
  targetDelayTime
    (b32_clear_state (of_Z 48000) (target_of_bpm B32.ninf (of_Z 1))
       B32.zero (of_Z 1) (lit 0.5) (lit 0.5))
  = (of_Z SAMPLE_RATE
     * (of_Z 60 / (if b32_nonpositive B32.ninf then of_Z MIN_BPM else B32.ninf))
     * of_Z NUM_NOTES_PER_BEAT * of_Z 1)%fl.
Proof.
  apply (@tempo_failsafe_b32 B32.ninf [] []
           (b32_clear_state (of_Z 48000) (of_Z 48000) B32.zero (of_Z 1)
              (lit 0.5) (lit 0.5))).
  reflexivity.
Defined.

(** C5 (as stated, refuted): a NaN tempo gives a NaN target and an
    infinite tempo a target of 0 samples, not the target of the safe
    tempo (a finite delay above 205714 samples). *)
Lemma tempo_nan_inf_not_replaced_b32 :
  let st := b32_clear_state (of_Z 48000) (of_Z 48000) B32.zero (of_Z 1)
              (lit 0.5) (lit 0.5) in
  let safe := target_of_bpm (of_Z MIN_BPM) (multiplier st) in
  match DELFX_PROCESS B32.nan [] st, DELFX_PROCESS B32.pinf [] st with
  | Some (_, s1), Some (_, s2) =>
      targetDelayTime s1 = B32.nan /\ targetDelayTime s2 = B32.zero
      /\ B32.is_finite safe = true /\ (of_Z 205714 <? safe)%fl = true
  | _, _ => False
  end.
Proof. vm_compute. repeat split; reflexivity. Qed.

(** *** The division table *)

Lemma divIndex_failsafe_in (i : Z) :
  (0 <= i <= 14)%Z -> divIndex_failsafe i = i.
Proof.
  intros H. unfold divIndex_failsafe, NUM_DELAY_DIVISIONS.
  destruct (Z.leb_spec 15 i); [lia|]. destruct (Z.ltb_spec i 0); [lia|]. reflexivity.
Qed.

Lemma divIndex_failsafe_out (i : Z) :
  (i < 0 \/ 15 <= i)%Z -> divIndex_failsafe i = 14%Z.
Proof.
  intros H. unfold divIndex_failsafe, NUM_DELAY_DIVISIONS.
  destruct (Z.leb_spec 15 i); [reflexivity|].
  destruct (Z.ltb_spec i 0); [reflexivity|lia].
Qed.

Lemma divIndex_failsafe_range (i : Z) : (0 <= divIndex_failsafe i <= 14)%Z.
Proof.
  unfold divIndex_failsafe, NUM_DELAY_DIVISIONS.
  destruct (Z.leb_spec 15 i); cbn [orb]; [lia|].
  destruct (Z.ltb_spec i 0); lia.
Qed.

Lemma table_lookup {F} {ops : FloatOps F} (i : Z) :
  (0 <= i <= 14)%Z ->
  exists m, nth_error (@delayDivisions F ops) (Z.to_nat i) = Some m.
Proof.
  intros H. assert (Z.to_nat i < 15)%nat as Hn by lia.
  destruct (nth_error delayDivisions (Z.to_nat i)) as [m|] eqn:E; [eauto|].
  apply nth_error_None in E. cbn [delayDivisions length] in E. lia.
Qed.

Lemma table_scale_b32 :
  @of_Z B32.float32 _ (NUM_DELAY_DIVISIONS - 1) = S754_finite false 14680064 (-20).
Proof. reflexivity. Qed.

(** The scaled knob value in binary32: a finite number that rounds 14 v *)
Lemma scaled_knob_b32 (v : B32.float32) :
  b32_between 0 1 v ->
  B32.is_finite (v * of_Z (NUM_DELAY_DIVISIONS - 1))%fl = true
  /\ rounds (B32.to_Q v * 14) (B32.to_Q (v * of_Z (NUM_DELAY_DIVISIONS - 1))%fl).
Proof.
  intros (Fv & H0 & H1). rewrite table_scale_b32. cbn [fmul b32_ops].
  assert (E : B32.to_Q (S754_finite false 14680064 (-20)) == 14) by reflexivity.
  pose proof bpow_127_big as Hb.
  destruct (@SFmul_rounds v (S754_finite false 14680064 (-20)) Fv eq_refl) as [Hf Hr].
  - right. cbn. lia.
  - rewrite E. lra.
  - rewrite E. lra.
  - split; [exact Hf|].
    assert (E' : B32.to_Q v * B32.to_Q (S754_finite false 14680064 (-20)) == B32.to_Q v * 14)
      by (rewrite E; reflexivity).
    apply (@rounds_ext _ _ _ _ E' (Qeq_refl _) Hr).
Qed.

Lemma to_int_b32 (f : B32.float32) :
  B32.is_finite f = true -> 0 <= B32.to_Q f -> B32.to_Q f <= 14 ->
  exists i, to_int f = Some i /\ (0 <= i <= 14)%Z
            /\ inject_Z i <= B32.to_Q f /\ B32.to_Q f < inject_Z i + 1.
Proof.
  intros Hf H0 H1. destruct (to_Z_defined f Hf) as [z Ez].
  destruct (to_Z_spec f Ez) as (_ & Hp & _). destruct (Hp H0) as [L U].
  assert (Hz : (0 <= z <= 14)%Z).
  { split.
    - assert (inject_Z (-1) < inject_Z z) by (change (inject_Z (-1)) with (-1); lra).
      rewrite <- Zlt_Qlt in H. lia.
    - assert (inject_Z z <= inject_Z 14) by (change (inject_Z 14) with 14; lra).
      rewrite <- Zle_Qle in H. exact H. }
  exists z. unfold to_int. cbn [trunc b32_ops]. rewrite Ez.
  unfold INT_MIN, INT_MAX.
  destruct (Z.leb_spec (- 2 ^ 31) z); [|lia].
  destruct (Z.leb_spec z (2 ^ 31 - 1)); [|lia].
  cbn [andb]. repeat split; try lia; assumption.
Qed.

(** The index computed from a knob value in [0,1], in binary32 *)
Lemma divIndex_b32 (v : B32.float32) :
  b32_between 0 1 v ->
  exists i, divIndex_of v = Some i /\ (0 <= i <= 14)%Z
    /\ inject_Z i <= B32.to_Q (v * of_Z (NUM_DELAY_DIVISIONS - 1))%fl
    /\ B32.to_Q (v * of_Z (NUM_DELAY_DIVISIONS - 1))%fl < inject_Z i + 1.
Proof.
  intros Hv. destruct (scaled_knob_b32 Hv) as [Hf Hr].
  destruct Hv as (Fv & H0 & H1).
  apply to_int_b32.
  - exact Hf.
  - change 0 with (inject_Z 0). apply (rounds_int_ge Hr); [|lia]. change (inject_Z 0) with 0. lra.
  - change 14 with (inject_Z 14). apply (rounds_int_le Hr); [|lia]. change (inject_Z 14) with 14. lra.
Qed.

Lemma divIndex_mono_b32 (va vb : B32.float32) (ia ib : Z) :
  b32_between 0 1 va -> b32_between 0 1 vb -> B32.to_Q va <= B32.to_Q vb ->
  divIndex_of va = Some ia -> divIndex_of vb = Some ib -> (ia <= ib)%Z.
Proof.
  intros Ha Hb Hab Ea Eb.
  destruct (divIndex_b32 Ha) as (ia' & Ea' & _ & La & Ua).
  destruct (divIndex_b32 Hb) as (ib' & Eb' & _ & Lb & Ub).
  rewrite Ea in Ea'. rewrite Eb in Eb'. injection Ea' as <-. injection Eb' as <-.
  destruct (scaled_knob_b32 Ha) as [_ Ra]. destruct (scaled_knob_b32 Hb) as [_ Rb].
  assert (M : B32.to_Q (va * of_Z (NUM_DELAY_DIVISIONS - 1))%fl
              <= B32.to_Q (vb * of_Z (NUM_DELAY_DIVISIONS - 1))%fl).
  { apply (rounds_mono Ra Rb). lra. }
  assert (inject_Z ia < inject_Z (ib + 1)).
  { rewrite inject_Z_plus. change (inject_Z 1) with 1. lra. }
  rewrite <- Zlt_Qlt in H. lia.
Qed.

Lemma divIndex_at_b32 (v : B32.float32) (k i : Z) :
  b32_between 0 1 v -> B32.to_Q v * 14 == inject_Z k -> divIndex_of v = Some i -> i = k.
Proof.
  intros Hv E Ei.
  destruct (divIndex_b32 Hv) as (i' & Ei' & R & L & U).
  rewrite Ei in Ei'. injection Ei' as <-.
  destruct (scaled_knob_b32 Hv) as [_ Hr]. destruct Hv as (_ & H0 & H1).
  assert (Hk : (-1 < k < 15)%Z).
  { split.
    - assert (inject_Z (-1) < inject_Z k) by (change (inject_Z (-1)) with (-1); lra).
      rewrite <- Zlt_Qlt in H. exact H.
    - assert (inject_Z k < inject_Z 15) by (change (inject_Z 15) with 15; lra).
      rewrite <- Zlt_Qlt in H. exact H. }
  assert (V : B32.to_Q (v * of_Z (NUM_DELAY_DIVISIONS - 1))%fl == inject_Z k).
  { apply Qle_antisym.
    - apply (rounds_int_le Hr); [lra|lia].
    - apply (rounds_int_ge Hr); [lra|lia]. }
  rewrite V in L, U.
  assert (inject_Z i < inject_Z (k + 1) /\ inject_Z k < inject_Z (i + 1)).
  { rewrite !inject_Z_plus. change (inject_Z 1) with 1. split; lra. }
  rewrite <- !Zlt_Qlt in H. lia.
Qed.

Lemma table_b32 :
  @delayDivisions B32.float32 _ =
  [ S754_finite false 8388608 (-29); S754_finite false 11184809 (-29);
    S754_finite false 8388608 (-28); S754_finite false 11184809 (-28);
    S754_finite false 8388608 (-27); S754_finite false 11184810 (-27);
    S754_finite false 8388608 (-26); S754_finite false 11184811 (-26);
    S754_finite false 12582912 (-26); S754_finite false 8388608 (-25);
    S754_finite false 11184811 (-25); S754_finite false 12582912 (-25);
    S754_finite false 8388608 (-24); S754_finite false 12582912 (-24);
    S754_finite false 8388608 (-23) ].
Proof. vm_compute. reflexivity. Qed.

Lemma table_sorted_b32 : StronglySorted b32_le (@delayDivisions B32.float32 _).
Proof.
  rewrite table_b32.
  repeat (constructor;
          [|repeat (constructor; [split; [reflexivity|apply Qle_bool_iff; reflexivity]|]);
            constructor]).
  constructor.
Qed.

Lemma table_refl_b32 (a : nat) (m : B32.float32) :
  nth_error (@delayDivisions B32.float32 _) a = Some m -> b32_le m m.
Proof.
  rewrite table_b32. intros E.
  do 15 (destruct a as [|a];
         [injection E as <-; split; [reflexivity|apply Qle_refl]|]).
  destruct a; discriminate.
Qed.

Lemma table_monotone_b32 (a b : nat) (ma mb : B32.float32) :
  (a <= b)%nat ->
  nth_error (@delayDivisions B32.float32 _) a = Some ma ->
  nth_error (@delayDivisions B32.float32 _) b = Some mb ->
  b32_le ma mb.
Proof.
  intros Hab Ea Eb. destruct (Nat.eq_dec a b) as [->|Hne].
  - rewrite Ea in Eb. injection Eb as <-. apply (table_refl_b32 _ Ea).
  - revert a b ma mb Hab Hne Ea Eb.
    assert (G : forall l, StronglySorted b32_le l -> forall (a b : nat) (x y : B32.float32),
              (a < b)%nat -> nth_error l a = Some x -> nth_error l b = Some y -> b32_le x y).
    { intros l Hs. induction Hs as [|h l Hs IH Hall]; intros a b x y Hab Ea Eb.
      - destruct a; discriminate.
      - destruct a as [|a], b as [|b]; cbn [nth_error] in Ea, Eb; try lia.
        + inversion Ea; subst. apply nth_error_In in Eb.
          rewrite Forall_forall in Hall. apply Hall. exact Eb.
        + apply (IH a b); [lia|assumption|assumption]. }
    intros a b ma mb Hab Hne Ea Eb. apply (G _ table_sorted_b32 a b); [lia|assumption|assumption].
Qed.

Lemma table_bounds_b32 (a : nat) (m : B32.float32) :
  nth_error (@delayDivisions B32.float32 _) a = Some m ->
  0.015625 <= B32.to_Q m /\ B32.to_Q m <= 1.
Proof.
  rewrite table_b32. intros E.
  do 15 (destruct a as [|a];
         [injection E as <-; split; apply Qle_bool_iff; reflexivity|]).
  destruct a; discriminate.
Qed.

(** C8: in binary32, for two knob values va <= vb in [0,1] returned by the
    platform conversion, the time handler of [DELFX_PARAM] returns and
    selects multipliers with m(va) <= m(vb) (as C compares them and as
    reals); the knob value 0 selects 0.015625, the smallest entry, and the
    knob value 1 selects 1, the largest. *)
Theorem time_knob_monotone (q31_to_f32 : Z -> B32.float32) (a b : Z)
    (st : state B32.float32) :
  b32_between 0 1 (q31_to_f32 a) -> b32_between 0 1 (q31_to_f32 b) ->
  B32.to_Q (q31_to_f32 a) <= B32.to_Q (q31_to_f32 b) ->
  exists sa sb,
    DELFX_PARAM q31_to_f32 k_user_delfx_param_time a st = Some sa
    /\ DELFX_PARAM q31_to_f32 k_user_delfx_param_time b st = Some sb
    /\ (multiplier sa <=? multiplier sb)%fl = true
    /\ B32.to_Q (multiplier sa) <= B32.to_Q (multiplier sb)
    /\ (B32.to_Q (q31_to_f32 a) == 0 ->
        multiplier sa = dlit 0.015625 /\ B32.to_Q (multiplier sa) == 0.015625)
    /\ (B32.to_Q (q31_to_f32 b) == 1 ->
        multiplier sb = of_Z 1 /\ B32.to_Q (multiplier sb) == 1)
    /\ 0.015625 <= B32.to_Q (multiplier sa) /\ B32.to_Q (multiplier sb) <= 1.
Proof.
  intros Ha Hb Hab.
  destruct (divIndex_b32 Ha) as (ia & Ea & Ra & _).
  destruct (divIndex_b32 Hb) as (ib & Eb & Rb & _).
  destruct (@table_lookup B32.float32 _ _ Ra) as [ma Ema].
  destruct (@table_lookup B32.float32 _ _ Rb) as [mb Emb].
  unfold DELFX_PARAM. rewrite Ea, Eb.
  rewrite (divIndex_failsafe_in Ra), (divIndex_failsafe_in Rb), Ema, Emb.
  eexists. eexists. split; [reflexivity|]. split; [reflexivity|].
  cbn [multiplier].
  destruct (table_bounds_b32 _ Ema) as [La Ua]. destruct (table_bounds_b32 _ Emb) as [Lb Ub].
  assert (M : b32_le ma mb).
  { apply (@table_monotone_b32 (Z.to_nat ia) (Z.to_nat ib)); try assumption.
    apply Z2Nat.inj_le; try lia. apply (divIndex_mono_b32 Ha Hb Hab Ea Eb). }
  destruct M as [M1 M2].
  split; [exact M1|]. split; [exact M2|]. split; [|split; [|split; assumption]].
  - intros E. assert (ia = 0%Z).
    { apply (@divIndex_at_b32 (q31_to_f32 a) 0 ia Ha); [|exact Ea]. rewrite E. reflexivity. }
    subst ia. rewrite table_b32 in Ema. cbn in Ema. injection Ema as <-.
    split; reflexivity.
  - intros E. assert (ib = 14%Z).
    { apply (@divIndex_at_b32 (q31_to_f32 b) 14 ib Hb); [|exact Eb]. rewrite E. reflexivity. }
    subst ib. rewrite table_b32 in Emb. cbn in Emb. injection Emb as <-.
    split; reflexivity.
Qed.

Lemma time_knob_monotone_witness :
  exists sa sb,
    DELFX_PARAM q31_to_f32_ref k_user_delfx_param_time 0 b32_demo_state = Some sa
    /\ DELFX_PARAM q31_to_f32_ref k_user_delfx_param_time 2147483647 b32_demo_state = Some sb
    /\ (multiplier sa <=? multiplier sb)%fl = true
    /\ B32.to_Q (multiplier sa) <= B32.to_Q (multiplier sb)
    /\ (B32.to_Q (q31_to_f32_ref 0) == 0 ->
        multiplier sa = dlit 0.015625 /\ B32.to_Q (multiplier sa) == 0.015625)
    /\ (B32.to_Q (q31_to_f32_ref 2147483647) == 1 ->
        multiplier sb = of_Z 1 /\ B32.to_Q (multiplier sb) == 1)
    /\ 0.015625 <= B32.to_Q (multiplier sa) /\ B32.to_Q (multiplier sb) <= 1.
Proof.
  apply (@time_knob_monotone q31_to_f32_ref 0 2147483647 b32_demo_state).
  - split; [reflexivity|split; apply Qle_bool_iff; reflexivity].
  - split; [reflexivity|split; apply Qle_bool_iff; reflexivity].
  - apply Qle_bool_iff. reflexivity.
Defined.

(** C9: in binary32, for every knob value in [0,1] returned by the platform
    conversion the index computed by the time handler lies in [0, 14], the
    failsafe leaves it alone and the table access succeeds; an index
    outside [0, 14] is replaced by 14; and whatever index is computed, the
    index used is in [0, 14] and the access succeeds. *)
Theorem division_index_in_bounds (q31_to_f32 : Z -> B32.float32) (value : Z)
    (st : state B32.float32) :
  (b32_between 0 1 (q31_to_f32 value) ->
   exists i st',
     divIndex_of (q31_to_f32 value) = Some i
     /\ (0 <= i <= NUM_DELAY_DIVISIONS - 1)%Z
     /\ divIndex_failsafe i = i
     /\ DELFX_PARAM q31_to_f32 k_user_delfx_param_time value st = Some st'
     /\ nth_error delayDivisions (Z.to_nat i) = Some (multiplier st'))
  /\ (forall i, (i < 0 \/ NUM_DELAY_DIVISIONS <= i)%Z ->
        divIndex_failsafe i = (NUM_DELAY_DIVISIONS - 1)%Z)
  /\ (forall i, divIndex_of (q31_to_f32 value) = Some i ->
        (0 <= divIndex_failsafe i <= NUM_DELAY_DIVISIONS - 1)%Z
        /\ exists st',
             DELFX_PARAM q31_to_f32 k_user_delfx_param_time value st = Some st'
             /\ nth_error delayDivisions (Z.to_nat (divIndex_failsafe i))
                = Some (multiplier st')).
Proof.
  split; [|split].
  - intros Hv. destruct (divIndex_b32 Hv) as (i & E & R & _).
    destruct (@table_lookup B32.float32 _ _ R) as [m Em].
    exists i. eexists.
    split; [exact E|]. split; [exact R|].
    split; [apply divIndex_failsafe_in; exact R|].
    unfold DELFX_PARAM. rewrite E, (divIndex_failsafe_in R), Em.
    split; reflexivity.
  - intros i H. apply divIndex_failsafe_out. exact H.
  - intros i E. pose proof (divIndex_failsafe_range i) as R.
    split; [exact R|].
    destruct (@table_lookup B32.float32 _ _ R) as [m Em].
    unfold DELFX_PARAM. rewrite E, Em. eexists. split; reflexivity.
Qed.

Lemma division_index_in_bounds_witness :
  exists i st',
    divIndex_of (q31_to_f32_ref 1073741824 : B32.float32) = Some i
    /\ (0 <= i <= NUM_DELAY_DIVISIONS - 1)%Z
    /\ divIndex_failsafe i = i
    /\ DELFX_PARAM q31_to_f32_ref k_user_delfx_param_time 1073741824 b32_demo_state
       = Some st'
    /\ nth_error delayDivisions (Z.to_nat i) = Some (multiplier st').
Proof.
  apply (proj1 (division_index_in_bounds q31_to_f32_ref 1073741824 b32_demo_state)).
  split; [reflexivity|split; apply Qle_bool_iff; reflexivity].
Defined.

Lemma lit_slope_b32 :
  @lit B32.float32 _ 1.02040816326530612244 = S754_finite false 8559804 (-23).
Proof. vm_compute. reflexivity. Qed.

Lemma lit_102_b32 : @lit B32.float32 _ 1.02 = S754_finite false 8556380 (-23).
Proof. vm_compute. reflexivity. Qed.

Lemma lit_05_b32 : @lit B32.float32 _ 0.5 = S754_finite false 8388608 (-24).
Proof. vm_compute. reflexivity. Qed.

Lemma lit_1_b32 : @lit B32.float32 _ 1 = S754_finite false 8388608 (-23).
Proof. vm_compute. reflexivity. Qed.

(** The wet level in binary32, for a knob value in [0,1]: a finite number
    between 0 and 3/2 *)
Lemma mix_of_bounds_b32 (v : B32.float32) :
  valid_binary B32.prec B32.emax v = true -> b32_between 0 1 v ->
  B32.is_finite (mix_of v) = true
  /\ 0 <= B32.to_Q (mix_of v) /\ B32.to_Q (mix_of v) <= 3 # 2.
Proof.
  intros Vv (Fv & H0 & H1). unfold mix_of.
  rewrite lit_049_b32, lit_051_b32, lit_slope_b32, lit_102_b32, lit_05_b32.
  pose proof bpow_127_big as Hb.
  assert (E32 : inject_Z 3 * bpow (-1) == 3 # 2) by reflexivity.
  assert (E12 : inject_Z 1 * bpow (-1) == 1 # 2) by reflexivity.
  assert (E0 : inject_Z 0 * bpow 0 == 0) by reflexivity.
  destruct (v <=? S754_finite false 16441672 (-25))%fl.
  - set (c := S754_finite false 8559804 (-23)).
    assert (Ec : B32.to_Q c == 8559804 # 8388608) by reflexivity.
    assert (R : b32_rounds (B32.to_Q c * B32.to_Q v) (c * v)%fl).
    { apply SFmul_b32_rounds; [reflexivity|exact Fv|left; cbn; lia|rewrite Ec; lra|rewrite Ec; lra]. }
    split; [apply R|]. split.
    + rewrite <- E0. apply (b32_rounds_ge R); [rewrite E0, Ec; lra|lia|lia].
    + rewrite <- E32. apply (b32_rounds_le R); [rewrite E32, Ec; lra|lia|lia].
  - set (c51 := S754_finite false 8556380 (-24)).
    destruct (@fle B32.float32 _ c51 v) eqn:C.
    + assert (E51 : B32.to_Q c51 == 8556380 # 16777216) by reflexivity.
      destruct (@b32_le_value c51 v eq_refl Vv eq_refl Fv) as [Hle _].
      specialize (Hle C).
      assert (R1 : b32_rounds (B32.to_Q v - B32.to_Q c51) (v - c51)%fl).
      { apply SFsub_rounds; [exact Fv|reflexivity|rewrite E51; lra|rewrite E51; lra]. }
      assert (L1 : 0 <= B32.to_Q (v - c51)%fl).
      { rewrite <- E0. apply (b32_rounds_ge R1); [rewrite E0; lra|lia|lia]. }
      assert (U1 : B32.to_Q (v - c51)%fl <= 1 # 2).
      { rewrite <- E12. apply (b32_rounds_le R1); [rewrite E12, E51; lra|lia|lia]. }
      set (c102 := S754_finite false 8556380 (-23)).
      assert (E102 : B32.to_Q c102 == 8556380 # 8388608) by reflexivity.
      assert (R2 : b32_rounds (B32.to_Q c102 * B32.to_Q (v - c51)%fl) (c102 * (v - c51))%fl).
      { apply SFmul_b32_rounds; [reflexivity|apply R1|left; cbn; lia| |]; rewrite E102; lra. }
      assert (L2 : 0 <= B32.to_Q (c102 * (v - c51))%fl).
      { rewrite <- E0. apply (b32_rounds_ge R2); [rewrite E0, E102; lra|lia|lia]. }
      assert (U2 : B32.to_Q (c102 * (v - c51))%fl <= 1).
      { change 1 with (inject_Z 1). apply (b32_rounds_int_le R2); [|lia].
        change (inject_Z 1) with 1. rewrite E102. lra. }
      set (c05 := S754_finite false 8388608 (-24)).
      assert (E05 : B32.to_Q c05 == 1 # 2) by reflexivity.
      assert (R3 : b32_rounds (B32.to_Q c05 + B32.to_Q (c102 * (v - c51))%fl)
                     (c05 + c102 * (v - c51))%fl).
      { apply SFadd_rounds; [reflexivity|apply R2|rewrite E05; lra|rewrite E05; lra]. }
      split; [apply R3|]. split.
      * apply Qle_trans with (1 # 2); [lra|]. rewrite <- E12.
        apply (b32_rounds_ge R3); [rewrite E12, E05; lra|lia|lia].
      * rewrite <- E32. apply (b32_rounds_le R3); [rewrite E32, E05; lra|lia|lia].
    + assert (E05 : B32.to_Q (S754_finite false 8388608 (-24)) == 1 # 2) by reflexivity.
      split; [reflexivity|]. rewrite E05. split; lra.
Qed.

(** The dry level in binary32: 1 - wet rounded, at most 2^-25 away *)
Lemma dry_error_b32 (w : B32.float32) :
  B32.is_finite w = true -> 0 <= B32.to_Q w -> B32.to_Q w <= 3 # 2 ->
  Qabs (B32.to_Q w + B32.to_Q (lit 1 - w)%fl - 1) <= 1 # 33554432.
Proof.
  intros Fw H0 H1. rewrite lit_1_b32. cbn [fsub b32_ops].
  set (one := S754_finite false 8388608 (-23)).
  assert (E1 : B32.to_Q one == 1) by reflexivity.
  pose proof bpow_127_big as Hb.
  assert (R : b32_rounds (B32.to_Q one - B32.to_Q w) (SFsub B32.prec B32.emax one w)).
  { apply SFsub_rounds; [reflexivity|exact Fw|rewrite E1; lra|rewrite E1; lra]. }
  apply Qabs_case; intros _.
  - destruct (Qlt_le_dec 0 (B32.to_Q w)) as [Hp|Hz].
    + destruct (@b32_rounds_err _ _ 0 R) as [_ U].
      * change (bpow 0) with 1. rewrite E1. lra.
      * change (bpow 0) with 1. rewrite E1. lra.
      * change (bpow (fexp B32.prec B32.emax 0 - 1)) with (1 # 33554432) in U.
        rewrite E1 in U. lra.
    + assert (B32.to_Q (SFsub B32.prec B32.emax one w) <= inject_Z 1).
      { apply (b32_rounds_int_le R); [|lia]. change (inject_Z 1) with 1. rewrite E1. lra. }
      change (inject_Z 1) with 1 in H. lra.
  - destruct (Qlt_le_dec 0 (B32.to_Q w)) as [Hp|Hz].
    + destruct (@b32_rounds_err _ _ 0 R) as [L _].
      * change (bpow 0) with 1. rewrite E1. lra.
      * change (bpow 0) with 1. rewrite E1. lra.
      * change (bpow (fexp B32.prec B32.emax 0 - 1)) with (1 # 33554432) in L.
        rewrite E1 in L. lra.
    + assert (inject_Z 1 <= B32.to_Q (SFsub B32.prec B32.emax one w)).
      { apply (b32_rounds_int_ge R); [|lia]. change (inject_Z 1) with 1. rewrite E1. lra. }
      change (inject_Z 1) with 1 in H. lra.
Qed.

(** C10 (amended): in binary32, [DELFX_INIT] sets wet = dry = 0.5, whose
    sum is 1; the shift-depth handler of [DELFX_PARAM] always returns,
    with wet = s_mix and dry the binary32 rounding of 1 - s_mix, so that
    for a knob value in [0,1] the sum wet + dry is within 2^-25 of 1;
    every other [DELFX_PARAM] call that returns leaves wet and dry
    unchanged; and in exact arithmetic the shift-depth handler gives
    wet + dry = 1 for every value. *)
Theorem mix_sums_to_one (q31_to_f32 : Z -> B32.float32) :
  (forall st0 : state B32.float32,
     wet (DELFX_INIT st0) = lit 0.5 /\ dry (DELFX_INIT st0) = lit 0.5
     /\ B32.to_Q (wet (DELFX_INIT st0)) + B32.to_Q (dry (DELFX_INIT st0)) == 1)
  /\ (forall value st, exists st',
        DELFX_PARAM q31_to_f32 k_user_delfx_param_shift_depth value st = Some st'
        /\ wet st' = mix_of (q31_to_f32 value)
        /\ dry st' = (lit 1 - wet st')%fl
        /\ (valid_binary B32.prec B32.emax (q31_to_f32 value) = true ->
            b32_between 0 1 (q31_to_f32 value) ->
            Qabs (B32.to_Q (wet st') + B32.to_Q (dry st') - 1) <= 1 # 33554432))
  /\ (forall index value st st',
        index <> k_user_delfx_param_shift_depth ->
        DELFX_PARAM q31_to_f32 index value st = Some st' ->
        wet st' = wet st /\ dry st' = dry st)
  /\ (forall (q31_exact : Z -> Q) value st, exists st',
        DELFX_PARAM q31_exact k_user_delfx_param_shift_depth value st = Some st'
        /\ wet st' = mix_of (q31_exact value)
        /\ wet st' + dry st' == 1).
Proof.
  split; [|split; [|split]].
  - intros st0. cbn [DELFX_INIT wet dry]. split; [reflexivity|]. split; reflexivity.
  - intros value st. eexists. split; [reflexivity|]. cbn [wet dry].
    split; [reflexivity|]. split; [reflexivity|]. intros Vv Hv.
    destruct (mix_of_bounds_b32 Vv Hv) as (Fw & L & U).
    apply (dry_error_b32 _ Fw L U).
  - intros index value st st' Hi E. destruct index; cbn [DELFX_PARAM] in E.
    + destruct (divIndex_of _); [|discriminate].
      destruct (nth_error _ _); [|discriminate].
      inversion E; subst. split; reflexivity.
    + inversion E; subst. split; reflexivity.
    + contradiction.
    + inversion E; subst. split; reflexivity.
  - intros q31_exact value st. eexists. split; [reflexivity|]. cbn [wet dry].
    split; [reflexivity|]. qsimpl. ring.
Qed.

Lemma mix_sums_to_one_witness :
  exists st',
    DELFX_PARAM q31_to_f32_ref k_user_delfx_param_shift_depth 644245094 b32_demo_state
    = Some st'
    /\ Qabs (B32.to_Q (wet st') + B32.to_Q (dry st') - 1) <= 1 # 33554432.
Proof.
  destruct (proj1 (proj2 (mix_sums_to_one q31_to_f32_ref)) 644245094%Z b32_demo_state)
    as (st' & E & _ & _ & H).
  exists st'. split; [exact E|]. apply H.
  - reflexivity.
  - split; [reflexivity|split; apply Qle_bool_iff; reflexivity].
Defined.

(** C10 (as stated, refuted): from a state with wet + dry = 1, the
    shift-depth handler at the control value 644245094 (a knob value of
    0.3) sets wet and dry whose sum as reals is not 1; and at the control
    value -177479905 (which the reference conversion maps below 0) even
    the binary32 sum wet + dry is not 1. *)
Lemma mix_sum_rounded_b32 :
  match DELFX_PARAM q31_to_f32_ref k_user_delfx_param_shift_depth 644245094 b32_demo_state with
  | Some st' =>
      B32.to_Q (wet b32_demo_state) + B32.to_Q (dry b32_demo_state) == 1
      /\ b32_between 0 1 (q31_to_f32_ref 644245094)
      /\ ~ B32.to_Q (wet st') + B32.to_Q (dry st') == 1
  | None => False
  end
  /\ match DELFX_PARAM q31_to_f32_ref k_user_delfx_param_shift_depth (-177479905)
            b32_demo_state with
     | Some st' => (wet st' + dry st')%fl <> lit 1
     | None => False
     end.
Proof.
  split.
  - cbn [DELFX_PARAM wet dry]. split; [reflexivity|]. split.
    + split; [reflexivity|split; apply Qle_bool_iff; reflexivity].
    + vm_compute. discriminate.
  - vm_compute. discriminate.
Qed.

(** ** Further properties of the engine and the knobs *)

Section Engine.
Context {F : Type} {ops : FloatOps F}.

Lemma process_frame_cursor (x y : frame F) (st st' : state F) :
  process_frame x st = Some (y, st') ->
  delayLine_Wr st' = ((delayLine_Wr st + 1) mod DELAY_LINE_SIZE)%Z.
Proof.
  unfold process_frame.
  destruct (readFrac _ (delayLine_R st)); [|discriminate].
  destruct (readFrac _ _); [|discriminate].
  intros E. inversion E; subst. cbn [delayLine_Wr]. apply mask_succ_wrap.
Qed.

Lemma process_frames_cursor (xn : list (frame F)) :
  forall (st st' : state F) (ys : list (frame F)),
  process_frames xn st = Some (ys, st') ->
  length ys = length xn
  /\ (delayLine_Wr st' mod DELAY_LINE_SIZE
      = (delayLine_Wr st + Z.of_nat (length xn)) mod DELAY_LINE_SIZE)%Z
  /\ (xn <> [] -> 0 <= delayLine_Wr st' < DELAY_LINE_SIZE)%Z.
Proof.
  induction xn as [|x xn IH]; intros st st' ys; cbn [process_frames].
  - intros E. inversion E; subst. cbn [length Z.of_nat].
    rewrite Z.add_0_r. split; [reflexivity|]. split; [reflexivity|].
    intros H. contradiction H. reflexivity.
  - destruct (process_frame x st) as [[y st1]|] eqn:E1; [|discriminate].
    destruct (process_frames xn st1) as [[ys' st2]|] eqn:E2; [|discriminate].
    intros E. inversion E; subst.
    pose proof (process_frame_cursor _ _ E1) as H1.
    destruct (IH _ _ _ E2) as (Hl & Hw & Hr).
    split; [cbn [length]; congruence|]. split.
    + rewrite Hw, H1. cbn [length]. rewrite Z.add_mod_idemp_l by (unfold DELAY_LINE_SIZE; lia).
      f_equal. lia.
    + intros _. destruct xn as [|x' xn'].
      * cbn [process_frames] in E2. inversion E2; subst. rewrite H1.
        apply Z.mod_pos_bound. reflexivity.
      * apply Hr. discriminate.
Qed.

Lemma set_target_same (st : state F) : set_target (targetDelayTime st) st = st.
Proof. destruct st; reflexivity. Qed.

Lemma process_frames_app (xs ys : list (frame F)) : forall st : state F,
  process_frames (xs ++ ys) st
  = match process_frames xs st with
    | None => None
    | Some (o1, s1) =>
        match process_frames ys s1 with
        | None => None
        | Some (o2, s2) => Some (o1 ++ o2, s2)
        end
    end.
Proof.
  induction xs as [|x xs IH]; intros st; cbn [app process_frames].
  - destruct (process_frames ys st) as [[o2 s2]|]; reflexivity.
  - destruct (process_frame x st) as [[y s1]|]; [|reflexivity].
    rewrite IH. destruct (process_frames xs s1) as [[o1 s1']|]; [|reflexivity].
    destruct (process_frames ys s1') as [[o2 s2]|]; reflexivity.
Qed.

(** X1: in every arithmetic, processing a buffer in one call gives the
    same frames and the same final state as processing a first part and
    then the rest in two calls at the same tempo; when either call of the
    pair has no result, the single call has none. *)
Theorem DELFX_PROCESS_split (bpmF : F) (xs ys : list (frame F)) (st : state F) :
  DELFX_PROCESS bpmF (xs ++ ys) st
  = match DELFX_PROCESS bpmF xs st with
    | None => None
    | Some (o1, s1) =>
        match DELFX_PROCESS bpmF ys s1 with
        | None => None
        | Some (o2, s2) => Some (o1 ++ o2, s2)
        end
    end.
Proof.
  unfold DELFX_PROCESS. rewrite process_frames_app.
  destruct (process_frames xs _) as [[o1 s1]|] eqn:E; [|reflexivity].
  destruct (process_frames_keeps _ _ E) as (Ht & Hm & _).
  cbn [set_target targetDelayTime multiplier] in Ht, Hm.
  rewrite Hm, <- Ht, set_target_same. reflexivity.
Qed.

(** X2: in every arithmetic, a call that returns gives back as many
    frames as it was given and leaves the write cursor advanced by that
    number modulo the line size, inside the line. *)
Theorem DELFX_PROCESS_advances (bpmF : F) (xn ys : list (frame F)) (st st' : state F) :
  DELFX_PROCESS bpmF xn st = Some (ys, st') ->
  (0 <= delayLine_Wr st < DELAY_LINE_SIZE)%Z ->
  length ys = length xn
  /\ delayLine_Wr st'
     = ((delayLine_Wr st + Z.of_nat (length xn)) mod DELAY_LINE_SIZE)%Z
  /\ (0 <= delayLine_Wr st' < DELAY_LINE_SIZE)%Z.
Proof.
  unfold DELFX_PROCESS. intros E Hw.
  destruct (process_frames_cursor _ _ E) as (Hl & Hm & Hr).
  cbn [set_target delayLine_Wr] in Hm.
  assert (0 <= delayLine_Wr st' < DELAY_LINE_SIZE)%Z as Hr'.
  { destruct xn as [|x xn].
    - cbn [process_frames] in E. inversion E; subst. exact Hw.
    - apply Hr. discriminate. }
  split; [exact Hl|]. split; [|exact Hr'].
  rewrite <- Hm. symmetry. apply Z.mod_small. exact Hr'.
Qed.

(** X3: in every arithmetic, a call that returns leaves the feedback
    depth, the time value, the multiplier and the wet and dry levels as
    they were, and the target delay time is the one computed from the
    tempo of the call and the multiplier. *)
Theorem DELFX_PROCESS_keeps_knobs (bpmF : F) (xn ys : list (frame F)) (st st' : state F) :
  DELFX_PROCESS bpmF xn st = Some (ys, st') ->
  valDepth st' = valDepth st /\ valTime st' = valTime st
  /\ multiplier st' = multiplier st
  /\ wet st' = wet st /\ dry st' = dry st
  /\ targetDelayTime st' = target_of_bpm bpmF (multiplier st).
Proof.
  unfold DELFX_PROCESS. intros E.
  destruct (process_frames_keeps _ _ E) as (Ht & Hm & Hd & Hv & Hw & Hdr).
  cbn [set_target targetDelayTime multiplier valDepth valTime wet dry] in *.
  repeat split; assumption.
Qed.

Lemma process_frame_left_input (l1 l2 r : F) (st : state F) :
  match process_frame (l1, r) st, process_frame (l2, r) st with
  | Some (y1, s1), Some (y2, s2) => s1 = s2 /\ snd y1 = snd y2
  | None, None => True
  | _, _ => False
  end.
Proof.
  unfold process_frame. cbn [fst snd].
  destruct (readFrac _ (delayLine_R st)); [|exact I].
  destruct (readFrac _ _); [|exact I].
  split; reflexivity.
Qed.

Lemma process_frames_left_input (xs1 : list (frame F)) :
  forall (xs2 : list (frame F)) (st : state F),
  map snd xs1 = map snd xs2 ->
  match process_frames xs1 st, process_frames xs2 st with
  | Some (y1, s1), Some (y2, s2) => s1 = s2 /\ map snd y1 = map snd y2
  | None, None => True
  | _, _ => False
  end.
Proof.
  induction xs1 as [|[l1 r1] xs1 IH]; intros [|[l2 r2] xs2] st Hs; try discriminate.
  - cbn. split; reflexivity.
  - cbn [map snd] in Hs. inversion Hs as [[Hr Hs']]. subst r2.
    cbn [process_frames].
    pose proof (process_frame_left_input l1 l2 r1 st) as H.
    destruct (process_frame (l1, r1) st) as [[y1 s1]|],
             (process_frame (l2, r1) st) as [[y2 s2]|]; try contradiction; [|exact I].
    destruct H as [<- Hy].
    specialize (IH xs2 s1 Hs').
    destruct (process_frames xs1 s1) as [[ys1 t1]|],
             (process_frames xs2 s1) as [[ys2 t2]|]; try contradiction; [|exact I].
    destruct IH as [<- Hys]. split; [reflexivity|].
    cbn [map]. congruence.
Qed.

(** X4: in every arithmetic, the left input never enters a delay line:
    two buffers with the same right samples give the same final state
    and the same right outputs (or both have no result), whatever their
    left samples. *)
Theorem left_input_never_delayed (bpmF : F) (xs1 xs2 : list (frame F)) (st : state F) :
  map snd xs1 = map snd xs2 ->
  match DELFX_PROCESS bpmF xs1 st, DELFX_PROCESS bpmF xs2 st with
  | Some (y1, s1), Some (y2, s2) => s1 = s2 /\ map snd y1 = map snd y2
  | None, None => True
  | _, _ => False
  end.
Proof.
  intros H. unfold DELFX_PROCESS. apply process_frames_left_input. exact H.
Qed.

(** X5: in every arithmetic, whether a call has a result depends on the
    tempo, the frame count, the multiplier, the write cursor and the delay
    times only: not on the samples and not on what the lines hold. *)
Theorem DELFX_PROCESS_defined_by_control (bpmF : F) (xs1 xs2 : list (frame F))
    (s1 s2 : state F) :
  length xs1 = length xs2 ->
  same_control s1 s2 -> multiplier s1 = multiplier s2 ->
  (DELFX_PROCESS bpmF xs1 s1 = None <-> DELFX_PROCESS bpmF xs2 s2 = None).
Proof.
  intros Hl (Hw & Hc & Ht) Hm. unfold DELFX_PROCESS. rewrite Hm.
  split; apply process_frames_control; try congruence;
    repeat split; cbn [set_target delayLine_Wr currentDelayTime targetDelayTime];
    congruence.
Qed.

Lemma clear_lines_outside (n : nat) (l r : Z -> F) (i : Z) :
  (i < 0 \/ Z.of_nat n <= i)%Z ->
  fst (clear_lines n (l, r)) i = l i /\ snd (clear_lines n (l, r)) i = r i.
Proof.
  induction n as [|n IH]; intros Hi; [split; reflexivity|].
  cbn [clear_lines]. destruct (clear_lines n (l, r)) as [l' r'] eqn:E.
  cbn [fst snd] in *. unfold upd.
  destruct (Z.eqb_spec i (Z.of_nat n)) as [->|Hne]; [lia|].
  apply IH. lia.
Qed.

(** X9: in every arithmetic, [DELFX_INIT] zeroes the cells
    0 .. DELAY_LINE_SIZE - 1 of both lines and writes no other cell, and
    sets the cursor to 0, both delay times to SAMPLE_RATE, depth and time
    to 0, the multiplier to 1 and the mix to 0.5 / 0.5, whatever the state
    before. *)
Theorem DELFX_INIT_resets (st : state F) :
  let st' := DELFX_INIT st in
  (forall i, (0 <= i < DELAY_LINE_SIZE)%Z ->
     delayLine_L st' i = of_Z 0 /\ delayLine_R st' i = of_Z 0)
  /\ (forall i, (i < 0 \/ DELAY_LINE_SIZE <= i)%Z ->
     delayLine_L st' i = delayLine_L st i /\ delayLine_R st' i = delayLine_R st i)
  /\ delayLine_Wr st' = 0%Z
  /\ currentDelayTime st' = of_Z SAMPLE_RATE
  /\ targetDelayTime st' = of_Z SAMPLE_RATE
  /\ valDepth st' = of_Z 0 /\ valTime st' = of_Z 0 /\ multiplier st' = of_Z 1
  /\ wet st' = lit 0.5 /\ dry st' = lit 0.5.
Proof.
  cbv zeta. unfold DELFX_INIT.
  cbn [delayLine_L delayLine_R delayLine_Wr currentDelayTime targetDelayTime
       valDepth valTime multiplier wet dry].
  split; [|split; [|repeat split]].
  - intros i Hi. apply clear_lines_spec. rewrite Z2Nat.id; [exact Hi|unfold DELAY_LINE_SIZE; lia].
  - intros i Hi. apply clear_lines_outside. rewrite Z2Nat.id; [exact Hi|unfold DELAY_LINE_SIZE; lia].
Qed.

End Engine.

(** X10: in every arithmetic, a [DELFX_PARAM] call that returns never
    changes the delay lines, the cursor or the delay times; the time knob
    sets only the time value and the multiplier, which is an entry of the
    division table; the depth knob sets only the depth; the shift-depth
    knob leaves depth, time value and multiplier alone; any other index
    changes nothing. *)
Theorem DELFX_PARAM_frame {F : Type} {ops : FloatOps F} (q31_to_f32 : Z -> F)
    (index : delfx_param) (value : Z) (st st' : state F) :
  DELFX_PARAM q31_to_f32 index value st = Some st' ->
  delayLine_L st' = delayLine_L st /\ delayLine_R st' = delayLine_R st
  /\ delayLine_Wr st' = delayLine_Wr st
  /\ currentDelayTime st' = currentDelayTime st
  /\ targetDelayTime st' = targetDelayTime st
  /\ match index with
     | k_user_delfx_param_time =>
         valTime st' = q31_to_f32 value /\ In (multiplier st') delayDivisions
         /\ valDepth st' = valDepth st /\ wet st' = wet st /\ dry st' = dry st
     | k_user_delfx_param_depth =>
         valDepth st' = q31_to_f32 value
         /\ valTime st' = valTime st /\ multiplier st' = multiplier st
         /\ wet st' = wet st /\ dry st' = dry st
     | k_user_delfx_param_shift_depth =>
         valDepth st' = valDepth st
         /\ valTime st' = valTime st /\ multiplier st' = multiplier st
     | k_user_delfx_param_other _ => st' = st
     end.
Proof.
  destruct index; cbn [DELFX_PARAM].
  - destruct (divIndex_of _); [|discriminate].
    destruct (nth_error _ _) as [m|] eqn:E; [|discriminate].
    intros H. inversion H; subst. cbn. apply nth_error_In in E.
    repeat split. exact E.
  - intros H. inversion H; subst. cbn. repeat split.
  - intros H. inversion H; subst. cbn. repeat split.
  - intros H. inversion H; subst. repeat split.
Qed.

(** X13: in binary32, when the current delay time equals the target and
    is a finite number (or +0), a glide step returns it unchanged: a
    reached target is held exactly. *)
Theorem glide_stable_b32 (s : bool) (m : positive) (e : Z) :
  @glide B32.float32 _ (S754_finite s m e) (S754_finite s m e)
  = S754_finite s m e
  /\ @glide B32.float32 _ B32.zero B32.zero = B32.zero.
Proof.
  split; [|vm_compute; reflexivity].
  unfold glide. rewrite glide_rate_b32. cbn [fsub fdiv fadd b32_ops].
  assert (SFsub B32.prec B32.emax (S754_finite s m e) (S754_finite s m e)
          = S754_zero false) as ->.
  { cbn [SFsub]. rewrite Z.sub_diag. reflexivity. }
  reflexivity.
Qed.

(** X11: in binary32, a knob value v in [0,1] with k <= 14 v < k + 1
    selects the table entry k or, when the product 14 v rounds up to the
    integer k + 1, the entry k + 1; the entry is k whenever 14 v is more
    than 2^-21 below k + 1. *)
Theorem time_knob_zones (q31_to_f32 : Z -> B32.float32) (value k : Z)
    (st : state B32.float32) :
  b32_between 0 1 (q31_to_f32 value) ->
  inject_Z k <= B32.to_Q (q31_to_f32 value) * 14 ->
  B32.to_Q (q31_to_f32 value) * 14 < inject_Z (k + 1) ->
  exists i st',
    divIndex_of (q31_to_f32 value) = Some i
    /\ (i = k \/ i = (k + 1)%Z)
    /\ (B32.to_Q (q31_to_f32 value) * 14 + (1 # 2097152) < inject_Z (k + 1) -> i = k)
    /\ DELFX_PARAM q31_to_f32 k_user_delfx_param_time value st = Some st'
    /\ nth_error delayDivisions (Z.to_nat i) = Some (multiplier st').
Proof.
  intros Hv Hk0 Hk1.
  destruct (divIndex_b32 Hv) as (i & Ei & Ri & Li & Ui).
  destruct (scaled_knob_b32 Hv) as [Hf Hr].
  destruct (@table_lookup B32.float32 _ _ Ri) as [m Em].
  set (f := (q31_to_f32 value * of_Z (NUM_DELAY_DIVISIONS - 1))%fl) in *.
  destruct Hv as (Fv & V0 & V1).
  assert (Hkr : (-1 < k < 15)%Z).
  { split.
    - assert (inject_Z 0 < inject_Z (k + 1)) by (change (inject_Z 0) with 0; lra).
      rewrite <- Zlt_Qlt in H. lia.
    - assert (inject_Z k < inject_Z 15) by (change (inject_Z 15) with 15; lra).
      rewrite <- Zlt_Qlt in H. exact H. }
  assert (L : inject_Z k <= B32.to_Q f) by (apply (rounds_int_ge Hr); [exact Hk0|lia]).
  assert (U : B32.to_Q f <= inject_Z (k + 1)).
  { apply (rounds_int_le Hr); [apply Qlt_le_weak; exact Hk1|lia]. }
  assert (Hi : (k <= i <= k + 1)%Z).
  { split.
    - assert (inject_Z k < inject_Z (i + 1)).
      { rewrite inject_Z_plus. change (inject_Z 1) with 1. lra. }
      rewrite <- Zlt_Qlt in H. lia.
    - rewrite Zle_Qle. lra. }
  exists i. eexists. split; [exact Ei|]. split; [lia|]. split.
  - intros G. destruct (@rounds_err _ _ 4 Hr) as [_ E].
    + change (bpow 4) with 16. lra.
    + change (bpow 4) with 16. lra.
    + change (bpow (fexp B32.prec B32.emax 4 - 1)) with (1 # 2097152) in E.
      assert (inject_Z i < inject_Z (k + 1)) by lra.
      rewrite <- Zlt_Qlt in H. lia.
  - unfold DELFX_PARAM. rewrite Ei, (divIndex_failsafe_in Ri), Em. split; reflexivity.
Qed.

Lemma time_knob_zones_witness :
  (exists i st',
    divIndex_of (q31_to_f32_ref 1380525184 : B32.float32) = Some i
    /\ (i = 8%Z \/ i = (8 + 1)%Z)
    /\ (B32.to_Q (q31_to_f32_ref 1380525184) * 14 + (1 # 2097152) < inject_Z (8 + 1) -> i = 8%Z)
    /\ DELFX_PARAM q31_to_f32_ref k_user_delfx_param_time 1380525184 b32_demo_state = Some st'
    /\ nth_error delayDivisions (Z.to_nat i) = Some (multiplier st'))
  /\ divIndex_of (q31_to_f32_ref 1380525184 : B32.float32) = Some 9%Z.
Proof.
  split; [|vm_compute; reflexivity].
  apply (@time_knob_zones q31_to_f32_ref 1380525184 8 b32_demo_state).
  - split; [reflexivity|split; apply Qle_bool_iff; reflexivity].
  - apply Qle_bool_iff. reflexivity.
  - vm_compute. reflexivity.
Defined.

Lemma mix_of_Q (v : Q) :
  (v <= 0.49 /\ mix_of v == 1.02040816326530612244 * v)
  \/ (0.51 <= v /\ mix_of v == 0.5 + 1.02 * (v - 0.51))
  \/ (0.49 < v /\ v < 0.51 /\ mix_of v == 0.5).
Proof.
  unfold mix_of.
  destruct (fle v (lit 0.49)) eqn:E1.
  - left. apply Qfle_true in E1. qsimpl. split; [exact E1|reflexivity].
  - apply Qfle_false in E1. destruct (fle (lit 0.51) v) eqn:E2.
    + right; left. apply Qfle_true in E2. qsimpl. split; [exact E2|reflexivity].
    + right; right. apply Qfle_false in E2. qsimpl. repeat split; assumption || reflexivity.
Qed.

(** X12: in exact arithmetic, over knob values 0 <= va <= vb <= 1 the wet
    level never decreases and the dry level never increases, wet stays in
    [0, 0.9998] and dry in [0.0002, 1]. *)
Theorem mix_law_monotone (q31_to_f32 : Z -> Q) (a b : Z) (st : state Q) :
  0 <= q31_to_f32 a -> q31_to_f32 a <= q31_to_f32 b -> q31_to_f32 b <= 1 ->
  exists sa sb,
    DELFX_PARAM q31_to_f32 k_user_delfx_param_shift_depth a st = Some sa
    /\ DELFX_PARAM q31_to_f32 k_user_delfx_param_shift_depth b st = Some sb
    /\ 0 <= wet sa /\ wet sa <= wet sb /\ wet sb <= 0.9998
    /\ 0.0002 <= dry sb /\ dry sb <= dry sa /\ dry sa <= 1.
Proof.
  intros H0 Hab H1. eexists. eexists.
  split; [reflexivity|]. split; [reflexivity|].
  cbn [wet dry]. qsimpl.
  destruct (mix_of_Q (q31_to_f32 a)) as [[A1 A2]|[[A1 A2]|(A1 & A2 & A3)]];
  destruct (mix_of_Q (q31_to_f32 b)) as [[B1 B2]|[[B1 B2]|(B1 & B2 & B3)]];
  set (wa := mix_of (q31_to_f32 a)) in *; set (wb := mix_of (q31_to_f32 b)) in *;
  repeat split; lra.
Qed.

Lemma mix_law_monotone_witness :
  exists sa sb,
    DELFX_PARAM q31_to_f32_ref k_user_delfx_param_shift_depth 0
      (mkState (fun _ => 0) (fun _ => 0) 0 0 0 0 0 0 0 0) = Some sa
    /\ DELFX_PARAM q31_to_f32_ref k_user_delfx_param_shift_depth 2147483647
      (mkState (fun _ => 0) (fun _ => 0) 0 0 0 0 0 0 0 0) = Some sb
    /\ 0 <= wet sa /\ wet sa <= wet sb /\ wet sb <= 0.9998
    /\ 0.0002 <= dry sb /\ dry sb <= dry sa /\ dry sa <= 1.
Proof.
  apply (@mix_law_monotone q31_to_f32_ref 0 2147483647);
    unfold q31_to_f32_ref; qsimpl; unfold Qle; cbn; lia.
Defined.

(** X7: in exact arithmetic, with the current and target delay times
    equal to a whole number T of samples (0 <= T <= 262143) and the cursor
    n in the line, one frame reads both lines at the cell (n - T) mod size
    when T <= n, and at (n - T - 1) mod size, one sample further back,
    when n < T (the wrap adds the mask, not the size); the delayed right
    sample dR goes to the right output and, times the depth, into the left
    line at n; the left line is read after that write, and its sample dL
    goes to the left output and, times the depth, on top of the right
    input into the right line at n; no other cell changes. *)
Theorem process_frame_integer_delay (T : Z) (x : frame Q) (st : state Q) :
  (0 <= T <= DELAY_LINE_SIZE_MASK)%Z ->
  (0 <= delayLine_Wr st < DELAY_LINE_SIZE)%Z ->
  currentDelayTime st == inject_Z T -> targetDelayTime st == inject_Z T ->
  let n := delayLine_Wr st in
  let z := (if (n <? T)%Z then (n - T - 1) mod DELAY_LINE_SIZE
            else (n - T) mod DELAY_LINE_SIZE)%Z in
  let dR := delayLine_R st z in
  let dL := upd (delayLine_L st) n (dR * valDepth st) z in
  exists y st',
    process_frame x st = Some (y, st')
    /\ fst y == fst x * dry st + dL * wet st
    /\ snd y == snd x * dry st + dR * wet st
    /\ delayLine_L st' n == dR * valDepth st
    /\ delayLine_R st' n == snd x + dL * valDepth st
    /\ (forall i, i <> n ->
          delayLine_L st' i = delayLine_L st i
          /\ delayLine_R st' i = delayLine_R st i)
    /\ currentDelayTime st' == inject_Z T.
Proof.
  intros HT Hn Hcur Htgt n z dR dL.
  unfold DELAY_LINE_SIZE, DELAY_LINE_SIZE_MASK in HT, Hn.
  assert (glide (targetDelayTime st) (currentDelayTime st) == inject_Z T) as Hg.
  { pose proof (glide_Q (targetDelayTime st) (currentDelayTime st)). lra. }
  assert (z = if (n <? T)%Z then (n - T + DELAY_LINE_SIZE_MASK)%Z else (n - T)%Z) as Ez.
  { unfold z, n, DELAY_LINE_SIZE, DELAY_LINE_SIZE_MASK.
    destruct (Z.ltb_spec (delayLine_Wr st) T).
    - replace (delayLine_Wr st - T - 1)%Z
        with (delayLine_Wr st - T + 262143 + (-1) * 262144)%Z by lia.
      rewrite Z.mod_add by lia. apply Z.mod_small. lia.
    - apply Z.mod_small. lia. }
  assert (0 <= z < DELAY_LINE_SIZE)%Z as Hz.
  { rewrite Ez. unfold n, DELAY_LINE_SIZE, DELAY_LINE_SIZE_MASK.
    destruct (Z.ltb_spec (delayLine_Wr st) T); lia. }
  unfold process_frame. fold n.
  set (g := glide _ _) in *.
  set (pos := if (_ <? _)%fl then _ else _).
  assert (pos == inject_Z z) as Hpos.
  { unfold pos. rewrite Ez. destruct (Z.ltb_spec n T) as [Hlt|Hge].
    - assert (flt (of_Z n - g)%fl (of_Z 0) = true) as ->.
      { apply Qflt_true. qsimpl. rewrite Hg. change (inject_Z 0) with 0.
        rewrite Zlt_Qlt in Hlt. lra. }
      qsimpl. rewrite Hg, inject_Z_plus, inject_Z_sub. ring.
    - assert (flt (of_Z n - g)%fl (of_Z 0) = false) as ->.
      { apply Qflt_false. qsimpl. rewrite Hg. change (inject_Z 0) with 0.
        rewrite Zle_Qle in Hge. lra. }
      qsimpl. rewrite Hg, inject_Z_sub. ring. }
  destruct (readFrac_at (delayLine_R st) Hpos Hz) as (sR & ER & HsR). rewrite ER.
  fold dR in HsR.
  set (lineL := upd (delayLine_L st) n (sR * valDepth st)%fl).
  destruct (readFrac_at lineL Hpos Hz) as (sL & EL & HsL). rewrite EL.
  assert (sL == dL) as HsL'.
  { rewrite HsL. unfold lineL, dL, upd. destruct (Z.eqb z n); [|reflexivity].
    qsimpl. rewrite HsR. reflexivity. }
  eexists. eexists. split; [reflexivity|].
  cbn [fst snd delayLine_L delayLine_R currentDelayTime]. qsimpl.
  split; [rewrite HsL'; reflexivity|].
  split; [rewrite HsR; reflexivity|].
  split; [unfold lineL, upd; rewrite Z.eqb_refl, HsR; reflexivity|].
  split; [unfold upd; rewrite !Z.eqb_refl, HsL'; reflexivity|].
  split; [|exact Hg].
  intros i Hi. unfold lineL, upd. destruct (Z.eqb_spec i n); [contradiction|].
  split; reflexivity.
Qed.

Lemma process_frame_integer_delay_witness :
  let st := mkState (fun i : Z => inject_Z i) (fun i : Z => inject_Z (2 * i)) 1
              3 3 (1 # 2) 0 1 (1 # 2) (1 # 2) in
  let x : frame Q := (5, 7) in
  let n := delayLine_Wr st in
  let z := (if (n <? 3)%Z then (n - 3 - 1) mod DELAY_LINE_SIZE
            else (n - 3) mod DELAY_LINE_SIZE)%Z in
  let dR := delayLine_R st z in
  let dL := upd (delayLine_L st) n (dR * valDepth st) z in
  exists y st',
    process_frame x st = Some (y, st')
    /\ fst y == fst x * dry st + dL * wet st
    /\ snd y == snd x * dry st + dR * wet st
    /\ delayLine_L st' n == dR * valDepth st
    /\ delayLine_R st' n == snd x + dL * valDepth st
    /\ (forall i, i <> n ->
          delayLine_L st' i = delayLine_L st i
          /\ delayLine_R st' i = delayLine_R st i)
    /\ currentDelayTime st' == inject_Z 3.
Proof.
  apply (@process_frame_integer_delay 3 (5, 7)
           (mkState (fun i : Z => inject_Z i) (fun i : Z => inject_Z (2 * i)) 1
              3 3 (1 # 2) 0 1 (1 # 2) (1 # 2))).
  - unfold DELAY_LINE_SIZE_MASK. lia.
  - cbn [delayLine_Wr]. unfold DELAY_LINE_SIZE. lia.
  - reflexivity.
  - reflexivity.
Defined.

Lemma qpow_zero (n : nat) : qpow 0 (S n) == 0.
Proof. cbn [qpow]. ring. Qed.

Lemma echo_depth_zero (T k : Z) :
  (1 <= T)%Z -> (0 <= k)%Z ->
  echo_L T 0 k == 0 /\ echo_R T 0 k == (if (k =? T)%Z then 1 else 0).
Proof.
  intros HT Hk. unfold echo_L, echo_R, echo_amp.
  pose proof (Z.div_mod k T ltac:(lia)) as Hdm.
  assert (0 <= k / T)%Z as Hq by (apply Z.div_pos; lia).
  destruct (Z.ltb_spec 0 k) as [Hpos|Hnp]; cbn [andb].
  2:{ assert (k = 0)%Z as -> by lia. rewrite Z.div_0_l by lia. cbn [Z.even Z.odd].
      destruct (Z.eqb_spec 0 T); [lia|]. split; reflexivity. }
  destruct (Z.eqb_spec (k mod T) 0) as [Hm|Hm].
  - assert (1 <= k / T)%Z as Hq1 by nia.
    split.
    + destruct (Z.even (k / T)) eqn:Ev; [|reflexivity].
      assert (k / T <> 1)%Z as Hne by (intros E1; rewrite E1 in Ev; discriminate).
      replace (Z.to_nat (k / T - 1)) with (S (Z.to_nat (k / T - 2))) by lia.
      apply qpow_zero.
    + destruct (Z.eqb_spec k T) as [->|Hne].
      * rewrite Z.div_same by lia. reflexivity.
      * destruct (Z.odd (k / T)) eqn:Od; [|reflexivity].
        assert (k / T <> 1)%Z as Hne1 by nia.
        replace (Z.to_nat (k / T - 1)) with (S (Z.to_nat (k / T - 2))) by lia.
        apply qpow_zero.
  - split; [destruct (Z.even (k / T)); reflexivity|].
    destruct (Z.eqb_spec k T) as [->|Hne].
    + rewrite Z.mod_same in Hm by lia. contradiction.
    + destruct (Z.odd (k / T)); reflexivity.
Qed.

(** X8: in exact arithmetic, with feedback depth 0 the impulse on the
    right input still gives one echo: the right output is dry at frame 0,
    wet at frame T and 0 elsewhere, and the left output is 0 throughout. *)
Theorem single_echo_at_depth_zero (T : Z) (bpmF : Q) (st : state Q)
    (blocks : list (list (frame Q))) (N : nat) :
  (1 <= T < DELAY_LINE_SIZE_MASK)%Z ->
  (Z.of_nat N < DELAY_LINE_SIZE)%Z ->
  lines_clear st ->
  delayLine_Wr st = 0%Z ->
  currentDelayTime st == inject_Z T ->
  target_of_bpm bpmF (multiplier st) == inject_Z T ->
  valDepth st = 0 ->
  concat blocks = impulse_R N ->
  exists outs st',
    process_calls (map (fun xn => (bpmF, xn)) blocks) st = Some (outs, st')
    /\ forall k, (k <= N)%nat ->
         fst (nth k (concat outs) (0, 0)) == 0
         /\ snd (nth k (concat outs) (0, 0))
            == (if Nat.eqb k 0 then dry st else 0)
               + (if (Z.of_nat k =? T)%Z then wet st else 0).
Proof.
  intros HT HN Hclear Hwr Hcur Htgt Hd Hin.
  assert (echo_inv T 0 (wet st) (dry st) (multiplier st) (Z.of_nat 0)
            (set_target (inject_Z T) st)) as Hinv.
  { constructor; cbn [set_target delayLine_Wr currentDelayTime targetDelayTime
                      valDepth wet dry multiplier delayLine_R delayLine_L];
      try reflexivity; try assumption.
    - intros i Hi. unfold line_R_at. destruct (Z.ltb_spec i (Z.of_nat 0)); [lia|].
      apply Hclear. exact Hi.
    - intros i Hi. unfold line_L_at. destruct (Z.ltb_spec i (Z.of_nat 0)); [lia|].
      apply Hclear. exact Hi. }
  assert (length (concat blocks) = S N) as Hlen.
  { rewrite Hin. unfold impulse_R. cbn [length]. rewrite silence_length. reflexivity. }
  destruct (@process_calls_echo T bpmF 0 (wet st) (dry st) (multiplier st)
              blocks HT Htgt 0%nat (set_target (inject_Z T) st))
    as (outs & st' & E & Hl & Hy).
  { rewrite Hlen. lia. }
  { rewrite Hin. apply impulse_is_stream. }
  { exact Hinv. }
  assert (process_calls (map (fun xn => (bpmF, xn)) blocks) st = Some (outs, st')) as E'.
  { destruct blocks as [|b blocks]; [discriminate Hlen|].
    cbn [map process_calls] in *. unfold DELFX_PROCESS in *.
    cbn [set_target multiplier] in E. exact E. }
  exists outs, st'. split; [exact E'|].
  intros k Hk. destruct (Hy k ltac:(lia)) as [HL HR]. cbn [Nat.add] in HL, HR.
  destruct (@echo_depth_zero T (Z.of_nat k)) as [EL ER]; [lia|lia|].
  rewrite HL, HR, EL, ER. unfold inR_at. split; [ring|].
  destruct k as [|k].
  - change (Z.of_nat 0) with 0%Z. cbn [Nat.eqb]. rewrite Z.eqb_refl.
    destruct (Z.eqb_spec 0 T); [lia|]. cbv iota. ring.
  - destruct (Z.eqb_spec (Z.of_nat (S k)) 0); [lia|]. cbn [Nat.eqb].
    destruct (Z.of_nat (S k) =? T)%Z; cbv iota; ring.
Qed.

Lemma single_echo_at_depth_zero_witness :
  exists outs st',
    process_calls
      (map (fun xn => (240, xn)) [[(0, 1); (0, 0)]; [(0, 0)]])
      (mkState (fun _ => 0) (fun _ => 0) 0 750 750 0 0 (1 # 64) (1 # 2) (1 # 2))
    = Some (outs, st')
    /\ forall k, (k <= 2)%nat ->
         fst (nth k (concat outs) (0, 0)) == 0
         /\ snd (nth k (concat outs) (0, 0))
            == (if Nat.eqb k 0 then (1 # 2) else 0)
               + (if (Z.of_nat k =? 750)%Z then (1 # 2) else 0).
Proof.
  apply (@single_echo_at_depth_zero 750 240
           (mkState (fun _ => 0) (fun _ => 0) 0 750 750 0 0 (1 # 64) (1 # 2) (1 # 2))
           [[(0, 1); (0, 0)]; [(0, 0)]] 2).
  - unfold DELAY_LINE_SIZE_MASK. lia.
  - unfold DELAY_LINE_SIZE. lia.
  - intros i _. split; reflexivity.
  - reflexivity.
  - reflexivity.
  - vm_compute. reflexivity.
  - reflexivity.
  - reflexivity.
Defined.

(** X14: in exact arithmetic, at a whole position z in the [uint32_t]
    range [readFrac] returns the stored sample of the cell z mod
    DELAY_LINE_SIZE, with no interpolation error. *)
Theorem readFrac_whole_position (z : Z) (buf : Z -> Q) :
  (0 <= z < UINT32_MOD)%Z ->
  exists r, readFrac (inject_Z z) buf = Some r
            /\ r == buf (z mod DELAY_LINE_SIZE)%Z.
Proof.
  intros Hz.
  assert (0 <= inject_Z z) as H0.
  { change 0 with (inject_Z 0). rewrite <- Zle_Qle. lia. }
  assert (inject_Z z < inject_Z UINT32_MOD) as H1.
  { rewrite <- Zlt_Qlt. lia. }
  eexists. split; [apply readFrac_Q; assumption|].
  rewrite Qfloor_Z. ring.
Qed.

Lemma readFrac_whole_position_witness :
  exists r, readFrac (inject_Z 262147) (fun i : Z => inject_Z i) = Some r
            /\ r == inject_Z (262147 mod DELAY_LINE_SIZE).
Proof.
  apply (@readFrac_whole_position 262147 (fun i : Z => inject_Z i)).
  unfold UINT32_MOD. lia.
Defined.

Lemma target_fits_any (bpmF m : Q) :
  tempo_fits bpmF -> 0 <= m -> m <= 1 ->
  0 <= target_of_bpm bpmF m <= inject_Z DELAY_LINE_SIZE_MASK.
Proof.
  intros Hb Hm0 Hm1.
  pose proof (@target_fits bpmF 1 Hb ltac:(reflexivity)) as [A B].
  assert (target_of_bpm bpmF m == target_of_bpm bpmF 1 * m) as E.
  { unfold target_of_bpm. qsimpl. ring. }
  rewrite E. split; nra.
Qed.

Lemma process_frame_defined (x : frame Q) (st : state Q) :
  time_fits st ->
  exists y st', process_frame x st = Some (y, st') /\ time_fits st'.
Proof.
  intros (Hw & Hcur & Htgt).
  pose proof (glide_between Hcur Htgt) as Hg.
  pose proof (readIndex_valid Hw Hg) as Hr. cbv zeta in Hr.
  destruct Hr as [Hr0 Hr1].
  unfold process_frame.
  set (pos := if (_ <? _)%fl then _ else _) in *.
  rewrite (readFrac_Q (delayLine_R st) Hr0 Hr1).
  rewrite (readFrac_Q _ Hr0 Hr1).
  eexists. eexists. split; [reflexivity|].
  unfold time_fits. cbn [delayLine_Wr currentDelayTime targetDelayTime].
  split; [apply mask_range|]. split; assumption.
Qed.

Lemma process_frames_defined (xn : list (frame Q)) : forall st : state Q,
  time_fits st ->
  exists ys st', process_frames xn st = Some (ys, st') /\ time_fits st'.
Proof.
  induction xn as [|x xn IH]; intros st Ht.
  - exists [], st. split; [reflexivity|exact Ht].
  - destruct (process_frame_defined x Ht) as (y & s1 & E1 & H1).
    destruct (IH s1 H1) as (ys & s2 & E2 & H2).
    exists (y :: ys), s2. cbn [process_frames]. rewrite E1, E2.
    split; [reflexivity|exact H2].
Qed.

(** X6: in exact arithmetic, for any samples and any line contents, a
    call returns whenever the tempo is not positive or at least
    11520000 / 262143 BPM, the multiplier is in [0,1], the cursor is in
    the line and the current delay time is in [0, 262143]; the cursor and
    the delay time are again in these ranges afterwards. *)
Theorem DELFX_PROCESS_defined (bpmF : Q) (xn : list (frame Q)) (st : state Q) :
  tempo_fits bpmF ->
  0 <= multiplier st <= 1 ->
  (0 <= delayLine_Wr st < DELAY_LINE_SIZE)%Z ->
  0 <= currentDelayTime st <= inject_Z DELAY_LINE_SIZE_MASK ->
  exists ys st',
    DELFX_PROCESS bpmF xn st = Some (ys, st')
    /\ (0 <= delayLine_Wr st' < DELAY_LINE_SIZE)%Z
    /\ 0 <= currentDelayTime st' <= inject_Z DELAY_LINE_SIZE_MASK.
Proof.
  intros Hb [Hm0 Hm1] Hw Hc. unfold DELFX_PROCESS.
  destruct (@process_frames_defined xn
              (set_target (target_of_bpm bpmF (multiplier st)) st))
    as (ys & st' & E & (Hw' & Hc' & _)).
  { unfold time_fits. cbn [set_target delayLine_Wr currentDelayTime targetDelayTime].
    split; [exact Hw|]. split; [exact Hc|]. apply target_fits_any; assumption. }
  exists ys, st'. split; [exact E|]. split; [exact Hw'|exact Hc'].
Qed.

Lemma DELFX_PROCESS_defined_witness :
  exists ys st',
    DELFX_PROCESS 56 [(1, -1); (3 # 4, 1 # 3)]
      (mkState (fun i : Z => inject_Z i) (fun _ => 9) 262143 200000 5 (1 # 2) 0
         (3 # 4) (1 # 2) (1 # 2))
    = Some (ys, st')
    /\ (0 <= delayLine_Wr st' < DELAY_LINE_SIZE)%Z
    /\ 0 <= currentDelayTime st' <= inject_Z DELAY_LINE_SIZE_MASK.
Proof.
  apply (@DELFX_PROCESS_defined 56 [(1, -1); (3 # 4, 1 # 3)]
           (mkState (fun i : Z => inject_Z i) (fun _ => 9) 262143 200000 5 (1 # 2) 0
              (3 # 4) (1 # 2) (1 # 2))).
  - right. unfold Qle; cbn; lia.
  - cbn [multiplier]. split; unfold Qle; cbn; lia.
  - cbn [delayLine_Wr]. unfold DELAY_LINE_SIZE. lia.
  - cbn [currentDelayTime]. split; unfold Qle; cbn; lia.
Defined.

Lemma DELFX_PROCESS_advances_witness :
  let r := DELFX_PROCESS (of_Z 240) (impulse_R 2) b32_demo_state in
  let ys := match r with Some (ys, _) => ys | None => [] end in
  let st' := match r with Some (_, s) => s | None => b32_demo_state end in
  length ys = length (@impulse_R B32.float32 _ 2)
  /\ delayLine_Wr st'
     = ((delayLine_Wr b32_demo_state + Z.of_nat (length (@impulse_R B32.float32 _ 2)))
        mod DELAY_LINE_SIZE)%Z
  /\ (0 <= delayLine_Wr st' < DELAY_LINE_SIZE)%Z.
Proof.
  apply (@DELFX_PROCESS_advances B32.float32 _ (of_Z 240) (impulse_R 2)).
  - vm_compute. reflexivity.
  - cbn. unfold DELAY_LINE_SIZE. lia.
Defined.

Lemma DELFX_PROCESS_keeps_knobs_witness :
  let r := DELFX_PROCESS (of_Z 240) (impulse_R 2) b32_demo_state in
  let st' := match r with Some (_, s) => s | None => b32_demo_state end in
  valDepth st' = valDepth b32_demo_state /\ valTime st' = valTime b32_demo_state
  /\ multiplier st' = multiplier b32_demo_state
  /\ wet st' = wet b32_demo_state /\ dry st' = dry b32_demo_state
  /\ targetDelayTime st' = target_of_bpm (of_Z 240) (multiplier b32_demo_state).
Proof.
  apply (@DELFX_PROCESS_keeps_knobs B32.float32 _ (of_Z 240) (impulse_R 2)
           (match DELFX_PROCESS (of_Z 240) (impulse_R 2) b32_demo_state with
            | Some (ys, _) => ys | None => [] end)).
  vm_compute. reflexivity.
Defined.

Lemma left_input_never_delayed_witness :
  match DELFX_PROCESS (of_Z 240) [(of_Z 1, of_Z 1); (of_Z 0, of_Z 0)] b32_demo_state,
        DELFX_PROCESS (of_Z 240) [(of_Z 0, of_Z 1); (of_Z 5, of_Z 0)] b32_demo_state
  with
  | Some (y1, s1), Some (y2, s2) => s1 = s2 /\ map snd y1 = map snd y2
  | None, None => True
  | _, _ => False
  end.
Proof.
  apply (@left_input_never_delayed B32.float32 _ (of_Z 240)
           [(of_Z 1, of_Z 1); (of_Z 0, of_Z 0)]
           [(of_Z 0, of_Z 1); (of_Z 5, of_Z 0)] b32_demo_state).
  reflexivity.
Defined.

Lemma DELFX_PROCESS_defined_by_control_witness :
  DELFX_PROCESS (of_Z 240) (impulse_R 1) b32_demo_state = None
  <-> DELFX_PROCESS (of_Z 240) (silence 2)
        (mkState (fun _ => lit 0.25) (fun _ => B32.pinf) 0 (of_Z 750) (of_Z 750)
           B32.nan B32.zero (dlit 0.015625) B32.zero B32.zero) = None.
Proof.
  apply (@DELFX_PROCESS_defined_by_control B32.float32 _ (of_Z 240)
           (impulse_R 1) (silence 2) b32_demo_state
           (mkState (fun _ => lit 0.25) (fun _ => B32.pinf) 0 (of_Z 750) (of_Z 750)
              B32.nan B32.zero (dlit 0.015625) B32.zero B32.zero)).
  - reflexivity.
  - repeat split.
  - reflexivity.
Defined.

Lemma DELFX_PARAM_frame_witness :
  let st := b32_demo_state in
  let st' := match DELFX_PARAM q31_to_f32_ref k_user_delfx_param_time 1073741824 st with
             | Some s => s | None => st end in
  delayLine_L st' = delayLine_L st /\ delayLine_R st' = delayLine_R st
  /\ delayLine_Wr st' = delayLine_Wr st
  /\ currentDelayTime st' = currentDelayTime st
  /\ targetDelayTime st' = targetDelayTime st
  /\ (valTime st' = q31_to_f32_ref 1073741824 /\ In (multiplier st') delayDivisions
      /\ valDepth st' = valDepth st /\ wet st' = wet st /\ dry st' = dry st).
Proof.
  apply (@DELFX_PARAM_frame B32.float32 _ q31_to_f32_ref k_user_delfx_param_time
           1073741824 b32_demo_state).
  vm_compute. reflexivity.
Defined.
